(** * ds-diag: scoring engine and narrative generators

    A shallow embedding of [scoring.js], [report.js] and the export part of
    [app.js], followed by the properties of the engine.

    Modelling conventions:
    - A JavaScript number is [NaN], one of the two infinities, or a finite
      number.  Finite numbers are exact rationals ([Qc]): arithmetic is
      modelled without binary rounding and without a signed zero.
    - A JavaScript object that the code enumerates ([Object.entries]) is an
      association list in enumeration order, with distinct keys.  The keys
      are taken to be ordinary property names, for which the enumeration
      order is the insertion order: not array indices, which enumerate
      first, and not names that [Object.prototype] defines.
      The two response maps, which the code only probes with
      [hasOwnProperty] and reads by key, are finite maps ([gmap]).
    - Strings are ASCII strings; case mapping acts on the letters A-Z, a-z.
    - What the host provides (numeric reading of a string, number printing,
      the clock) is an interface, [Host], or an argument; the properties
      hold for every host. *)

From Stdlib Require Import QArith Qcanon Lqa ZArith Lia Ascii String.
From stdpp Require Import gmap strings list sorting pretty.

Local Open Scope string_scope.
Local Open Scope list_scope.

(* ===================================================================== *)
(** * JavaScript values *)
(* ===================================================================== *)

Module JS.

(** ** Numbers *)

Inductive number : Type :=
  | NaN
  | PInf
  | NInf
  | Fin (q : Qc).

#[global] Instance number_eq_dec : EqDecision number.
Proof. solve_decision. Defined.

(** The rational [n/d] and the literal it denotes; [lit 25 100] is [0.25]. *)
Definition ratio (n : Z) (d : positive) : Qc := Q2Qc (n # d).

Definition lit (n : Z) (d : positive) : number := Fin (ratio n d).

Definition int (n : Z) : number := lit n 1.

Definition of_nat (n : nat) : number := int (Z.of_nat n).

Definition isFinite (n : number) : bool :=
  match n with
  | Fin _ => true
  | _ => false
  end.

(** Comparison; [None] when an operand is [NaN]. *)
Definition compare (a b : number) : option comparison :=
  match a, b with
  | NaN, _ | _, NaN => None
  | PInf, PInf => Some Eq
  | PInf, _ => Some Gt
  | _, PInf => Some Lt
  | NInf, NInf => Some Eq
  | NInf, _ => Some Lt
  | _, NInf => Some Gt
  | Fin x, Fin y => Some (x ?= y)%Qc
  end.

(** [a < b], [a > b], [a >= b], [a <= b]: false as soon as one side is NaN. *)
Definition lt (a b : number) : bool :=
  match compare a b with Some Lt => true | _ => false end.

Definition gt (a b : number) : bool := lt b a.

Definition ge (a b : number) : bool :=
  match compare a b with Some Gt | Some Eq => true | _ => false end.

Definition le (a b : number) : bool := ge b a.

Definition neg (a : number) : number :=
  match a with
  | NaN => NaN
  | PInf => NInf
  | NInf => PInf
  | Fin x => Fin (- x)%Qc
  end.

Definition add (a b : number) : number :=
  match a, b with
  | NaN, _ | _, NaN => NaN
  | PInf, NInf | NInf, PInf => NaN
  | PInf, _ | _, PInf => PInf
  | NInf, _ | _, NInf => NInf
  | Fin x, Fin y => Fin (x + y)%Qc
  end.

Definition sub (a b : number) : number := add a (neg b).

(** Sign of a number that is not NaN: [Lt] negative, [Eq] zero, [Gt]
    positive. *)
Definition sign (a : number) : comparison :=
  match a with
  | NaN => Eq
  | PInf => Gt
  | NInf => Lt
  | Fin x => (x ?= 0)%Qc
  end.

Definition signed_inf (s : comparison) : number :=
  match s with
  | Lt => NInf
  | Eq => NaN
  | Gt => PInf
  end.

Definition mul (a b : number) : number :=
  match a, b with
  | NaN, _ | _, NaN => NaN
  | Fin x, Fin y => Fin (x * y)%Qc
  | _, _ =>
      (* an infinity times anything: NaN for zero, else signed infinity *)
      match sign a, sign b with
      | Eq, _ | _, Eq => NaN
      | Lt, Lt | Gt, Gt => PInf
      | _, _ => NInf
      end
  end.

Definition div (a b : number) : number :=
  match a, b with
  | NaN, _ | _, NaN => NaN
  | Fin x, Fin y =>
      if decide (y = 0%Qc) then signed_inf (sign a) else Fin (x / y)%Qc
  | Fin _, _ => Fin 0%Qc
  | _, Fin _ =>
      match sign a, sign b with
      | Lt, Lt | Gt, Gt | Gt, Eq => PInf
      | _, _ => NInf
      end
  | _, _ => NaN
  end.

(** [Math.max] and [Math.min] of two numbers. *)
Definition max (a b : number) : number :=
  match compare a b with
  | None => NaN
  | Some Lt => b
  | _ => a
  end.

Definition min (a b : number) : number :=
  match compare a b with
  | None => NaN
  | Some Gt => b
  | _ => a
  end.

(** Truthiness of a number: every number but [0] and [NaN]. *)
Definition truthy (a : number) : bool :=
  match a with
  | NaN => false
  | Fin x => negb (bool_decide (x = 0%Qc))
  | _ => true
  end.

(** [a || d] on a number. *)
Definition or_num (a d : number) : number := if truthy a then a else d.

(** [f || d] on an optional numeric field ([undefined] when absent). *)
Definition or_field (f : option number) (d : number) : number :=
  match f with
  | Some a => or_num a d
  | None => d
  end.

(** [o?.f] for an optional field [f] of an object that may be missing. *)
Definition optchain {A B} (o : option A) (f : A -> option B) : option B :=
  match o with
  | Some a => f a
  | None => None
  end.

Notation "o ?> f" := (optchain o f) (at level 40, left associativity).

(** ** Values found in the response maps *)

(** The maps come from form input and from parsed JSON: a value is a
    primitive or a plain object or array.  For [Number(v)] a plain object
    counts through the string it converts to. *)
Inductive value : Type :=
  | VUndefined
  | VNull
  | VBool (b : bool)
  | VNum (n : number)
  | VStr (s : string)
  | VObject (toString : string).

(** ** The host *)

Class Host : Type := {
  (** the numeric value of a string ([Number("...")]) *)
  StringToNumber : string -> number;
  (** [String(n)] for a number *)
  NumberToString : number -> string;
  (** [n.toFixed(digits)] *)
  toFixed : number -> nat -> string
}.

(** [Number(v)]. *)
Definition Number `{Host} (v : value) : number :=
  match v with
  | VUndefined => NaN
  | VNull => int 0
  | VBool b => if b then int 1 else int 0
  | VNum n => n
  | VStr s => StringToNumber s
  | VObject s => StringToNumber s
  end.

(** ** Strings *)

Definition is_upper (c : ascii) : bool :=
  let n := nat_of_ascii c in (65 <=? n)%nat && (n <=? 90)%nat.

Definition is_lower (c : ascii) : bool :=
  let n := nat_of_ascii c in (97 <=? n)%nat && (n <=? 122)%nat.

Definition lower_char (c : ascii) : ascii :=
  if is_upper c then ascii_of_nat (nat_of_ascii c + 32) else c.

Definition upper_char (c : ascii) : ascii :=
  if is_lower c then ascii_of_nat (nat_of_ascii c - 32) else c.

Fixpoint toLowerCase (s : string) : string :=
  match s with
  | EmptyString => EmptyString
  | String c r => String (lower_char c) (toLowerCase r)
  end.

Fixpoint toUpperCase (s : string) : string :=
  match s with
  | EmptyString => EmptyString
  | String c r => String (upper_char c) (toUpperCase r)
  end.

(** [arr.includes(x)] on an array of strings. *)
Definition includes (arr : list string) (x : string) : bool :=
  bool_decide (x ∈ arr).

(** [Array.from(new Set(arr))]: the elements in first-insertion order. *)
Fixpoint set_add_all (seen arr : list string) : list string :=
  match arr with
  | [] => seen
  | x :: rest =>
      if includes seen x then set_add_all seen rest
      else set_add_all (seen ++ [x]) rest
  end.

Definition array_from_set (arr : list string) : list string :=
  set_add_all [] arr.

(** ** Enumerated objects *)

Definition obj (V : Type) : Type := list (string * V).

Fixpoint obj_get {V} (o : obj V) (k : string) : option V :=
  match o with
  | [] => None
  | (k', v) :: rest => if decide (k' = k) then Some v else obj_get rest k
  end.

(** [o[k] = v]: an existing property keeps its place, a new one goes last. *)
Fixpoint obj_set {V} (o : obj V) (k : string) (v : V) : obj V :=
  match o with
  | [] => [(k, v)]
  | (k', v') :: rest =>
      if decide (k' = k) then (k, v) :: rest else (k', v') :: obj_set rest k v
  end.

Definition keys {V} (o : obj V) : list string := o.*1.

Definition values {V} (o : obj V) : list V := o.*2.

(** The representation invariant of an enumerated object. *)
Definition wf_obj {V} (o : obj V) : Prop := NoDup (keys o).

(** ** Arrays *)

(** [arr.sort(cmp)].  The sort is stable; for a comparator that orders the
    elements consistently every stable sort returns the same array, here
    the one of insertion sort.  A comparator result that is NaN counts as
    zero. *)
Section Sort.
Context {A : Type} (cmp : A -> A -> number).

(** [cmp a b > 0]: [a] goes after [b]. *)
Definition after (a b : A) : bool := gt (cmp a b) (int 0).

Fixpoint sort_insert (x : A) (l : list A) : list A :=
  match l with
  | [] => [x]
  | y :: rest => if after x y then y :: sort_insert x rest else x :: y :: rest
  end.

Fixpoint sort (l : list A) : list A :=
  match l with
  | [] => []
  | x :: rest => sort_insert x (sort rest)
  end.

End Sort.

(** [arr.slice(0, n)]. *)
Definition slice0 {A} (n : nat) (l : list A) : list A := take n l.

(** ** Parsed JSON *)

(** What [JSON.parse] returns.  An object lists its fields in enumeration
    order, each name once. *)
#[warnings="-register-all"] Inductive json : Type :=
  | JNull
  | JBool (b : bool)
  | JNum (n : number)
  | JStr (s : string)
  | JArr (items : list json)
  | JObj (fields : list (string * json)).

(** [JSON.parse] belongs to the browser: [None] when it throws. *)
Class Browser : Type := {
  JSON_parse : string -> option json
}.

(** Truthiness of a parsed value, and [typeof j === "object"]. *)
Definition json_truthy (j : json) : bool :=
  match j with
  | JNull => false
  | JBool b => b
  | JNum n => truthy n
  | JStr s => negb (String.eqb s "")
  | JArr _ | JObj _ => true
  end.

Definition typeof_object (j : json) : bool :=
  match j with
  | JNull | JArr _ | JObj _ => true
  | _ => false
  end.

(** [j[name]] for a name that is neither an array index nor [length]:
    [undefined] unless [j] is an object with that field. *)
Definition json_get (j : json) (name : string) : option json :=
  match j with
  | JObj fields => obj_get fields name
  | _ => None
  end.

(** [f || d] on a parsed value that may be [undefined]. *)
Definition json_or (f : option json) (d : json) : json :=
  match f with
  | Some j => if json_truthy j then j else d
  | None => d
  end.

(** The string a parsed value converts to: an array joins its elements
    with commas, [null] counting as the empty string; an object, which has
    no [toString] of its own, gives ["[object Object]"]. *)
Fixpoint json_toString `{Host} (j : json) : string :=
  match j with
  | JNull => "null"
  | JBool b => if b then "true" else "false"
  | JNum n => NumberToString n
  | JStr s => s
  | JArr items =>
      String.concat ","
        (List.map (fun x => match x with
                            | JNull => ""
                            | _ => json_toString x
                            end) items)
  | JObj _ => "[object Object]"
  end.

(** A parsed value as a value of the response maps. *)
Definition to_value `{Host} (j : json) : value :=
  match j with
  | JNull => VNull
  | JBool b => VBool b
  | JNum n => VNum n
  | JStr s => VStr s
  | JArr _ | JObj _ => VObject (json_toString j)
  end.

(** [j[name]] as a value, [undefined] when there is no such field. *)
Definition json_field `{Host} (j : json) (name : string) : value :=
  match json_get j name with
  | Some f => to_value f
  | None => VUndefined
  end.

(** The elements of an array or the characters of a string under their
    indices. *)
Definition index_properties (items : list value) : gmap string value :=
  list_to_map (imap (fun i v => (pretty i, v)) items).

(** The own properties of a parsed value, as [hasOwnProperty] and a read by
    key see them: the fields of an object; the elements and the length of an
    array; the characters and the length of a string; none for a number or
    a boolean. *)
Definition own_properties `{Host} (j : json) : gmap string value :=
  match j with
  | JObj fields => list_to_map (List.map (fun '(k, f) => (k, to_value f)) fields)
  | JArr items =>
      <["length" := VNum (of_nat (length items))]>
        (index_properties (List.map to_value items))
  | JStr s =>
      <["length" := VNum (of_nat (String.length s))]>
        (index_properties
           (List.map (fun c => VStr (String c EmptyString))
                     (list_ascii_of_string s)))
  | _ => ∅
  end.

End JS.

(* ===================================================================== *)
(** * scoring.js *)
(* ===================================================================== *)

Module Scoring.
Import JS.

Definition OPERATIONAL_WEIGHTS : obj number :=
  [ ("teamSize", lit 25 100);
    ("productComplexity", lit 25 100);
    ("aiUsage", lit 2 10);
    ("releaseFrequency", lit 15 100);
    ("toolingFragmentation", lit 15 100) ].

Definition CONTEXT_KEY_ALIASES : obj (list string) :=
  [ ("teamSize", ["teamSize"; "oc_team_size"]);
    ("productComplexity", ["productComplexity"; "oc_product_complexity"]);
    ("aiUsage", ["aiUsage"; "oc_ai_usage"]);
    ("releaseFrequency", ["releaseFrequency"; "oc_release_frequency"]);
    ("toolingFragmentation",
       ["toolingFragmentation"; "oc_tooling_fragmentation"]) ].

(** [CONTEXT_KEY_ALIASES[factor]].  Every factor the code looks up is a key
    of the table ([aliases_defined] below), so the default is never used. *)
Definition aliases_of (factor : string) : list string :=
  default [] (obj_get CONTEXT_KEY_ALIASES factor).

Section WithHost.
Context `{Host}.

Definition toClampedNumber (v : value) (lo hi : number) : number :=
  let n := Number v in
  if negb (isFinite n) then lo
  else min hi (max lo n).

Definition normalize0to3To100 (score0to3 : value) : number :=
  let clamped := toClampedNumber score0to3 (int 0) (int 3) in
  mul (div clamped (int 3)) (int 100).

Definition normalize1to4To100 (score1to4 : value) : number :=
  let clamped := toClampedNumber score1to4 (int 1) (int 4) in
  mul (div (sub clamped (int 1)) (int 3)) (int 100).

(** The first alias that is an own property of the map decides. *)
Fixpoint resolveContextValue (contextResponses : gmap string value)
    (aliases : list string) : number :=
  match aliases with
  | [] => int 1
  | key :: rest =>
      match contextResponses !! key with
      | Some v => Number v
      | None => resolveContextValue contextResponses rest
      end
  end.

(** ** Dimension scores *)

(** A behavioral question, [{id, dimension}].  The dimension is a string, so
    [String(q.dimension || "")] is that string. *)
Record question : Type := { q_id : string; q_dimension : string }.

Record StructuralMaturity : Type :=
  { behavioralQuestions : option (list question) }.

Record Questionnaire : Type :=
  { structuralMaturity : option StructuralMaturity }.

(** [QUESTIONNAIRE?.structuralMaturity?.behavioralQuestions ?? []] *)
Definition questions_of (QUESTIONNAIRE : option Questionnaire)
    : list question :=
  default [] (QUESTIONNAIRE ?> structuralMaturity ?> behavioralQuestions).

(** An entry of [accum]: [{sum, count, total}]. *)
Record Stats : Type :=
  { acc_sum : number; acc_count : number; acc_total : number }.

Record DimensionScore : Type :=
  { avg : number; score100 : number; answered : number; total : number }.

#[global] Instance DimensionScore_eq_dec : EqDecision DimensionScore.
Proof. solve_decision. Defined.

(** [o[k].field = ...]: the record stored under [k] is updated in place. *)
Fixpoint obj_modify {V} (o : obj V) (k : string) (f : V -> V) : obj V :=
  match o with
  | [] => []
  | (k', v) :: rest =>
      if decide (k' = k) then (k', f v) :: rest
      else (k', v) :: obj_modify rest k f
  end.

(** One turn of the loop over the questions. *)
Definition accumulate (responses : gmap string value) (accum : obj Stats)
    (q : question) : obj Stats :=
  let key := toLowerCase (q_dimension q) in
  let accum :=
    match obj_get accum key with
    | Some _ => accum
    | None =>
        obj_set accum key
          {| acc_sum := int 0; acc_count := int 0; acc_total := int 0 |}
    end in
  let accum :=
    obj_modify accum key (fun s =>
      {| acc_sum := acc_sum s; acc_count := acc_count s;
         acc_total := add (acc_total s) (int 1) |}) in
  match responses !! q_id q with
  | Some r =>
      let value := toClampedNumber r (int 0) (int 3) in
      let accum :=
        obj_modify accum key (fun s =>
          {| acc_sum := add (acc_sum s) value; acc_count := acc_count s;
             acc_total := acc_total s |}) in
      obj_modify accum key (fun s =>
        {| acc_sum := acc_sum s; acc_count := add (acc_count s) (int 1);
           acc_total := acc_total s |})
  | None => accum
  end.

Definition score_of_stats (stats : Stats) : DimensionScore :=
  let avg :=
    if gt (acc_count stats) (int 0)
    then div (acc_sum stats) (acc_count stats)
    else int 0 in
  {| avg := avg;
     score100 := normalize0to3To100 (VNum avg);
     answered := acc_count stats;
     total := acc_total stats |}.

Definition computeDimensionScores (responses : gmap string value)
    (QUESTIONNAIRE : option Questionnaire) : obj DimensionScore :=
  let questions := questions_of QUESTIONNAIRE in
  let accum := foldl (accumulate responses) [] questions in
  foldl (fun out '(dimension, stats) =>
           obj_set out dimension (score_of_stats stats))
        [] accum.

(** ** Operational pressure *)

Record BreakdownEntry : Type :=
  { b_raw : number; b_score100 : number; b_weight : number;
    b_contribution : number }.

#[global] Instance BreakdownEntry_eq_dec : EqDecision BreakdownEntry.
Proof. solve_decision. Defined.

Record OperationalPressure : Type :=
  { OPI : number; breakdown : obj BreakdownEntry }.

Definition pressure_entry (contextResponses : gmap string value)
    (factor : string) (weight : number) : BreakdownEntry :=
  let raw := resolveContextValue contextResponses (aliases_of factor) in
  let score100 := normalize1to4To100 (VNum raw) in
  let contribution := mul score100 weight in
  {| b_raw := raw; b_score100 := score100; b_weight := weight;
     b_contribution := contribution |}.

Definition computeOperationalPressure (contextResponses : gmap string value)
    : OperationalPressure :=
  foldl (fun st '(factor, weight) =>
           let e := pressure_entry contextResponses factor weight in
           {| OPI := add (OPI st) (b_contribution e);
              breakdown := obj_set (breakdown st) factor e |})
        {| OPI := int 0; breakdown := [] |}
        OPERATIONAL_WEIGHTS.

(** ** Composite index and gaps *)

Definition computeSSI (dimensionScores : option (obj DimensionScore))
    : number :=
  let values := values (default [] dimensionScores) in
  if bool_decide (length values = 0%nat) then int 0
  else
    let total :=
      foldl (fun sum d => add sum (or_num (score100 d) (int 0)))
            (int 0) values in
    div total (of_nat (length values)).

Definition computeAdequacyGap (SSI OPI : number) : number :=
  sub (or_num SSI (int 0)) (or_num OPI (int 0)).

Definition computeDimensionGaps (dimensionScores : option (obj DimensionScore))
    (OPI : number) : obj number :=
  foldl (fun gaps '(dimension, scores) =>
           obj_set gaps dimension
             (sub (or_num (score100 scores) (int 0)) (or_num OPI (int 0))))
        [] (default [] dimensionScores).

(** ** Risk classification *)

Record RiskContext : Type :=
  { ctx_aiUsage : option number;
    ctx_teamSize : option number;
    ctx_governanceAvg : option number;
    ctx_distributionAvg : option number }.

Record RiskInput : Type :=
  { in_dimensionGaps : option (obj number);
    in_context : option RiskContext }.

Record RiskEntry : Type := { gap : number; risk : bool }.

#[global] Instance RiskEntry_eq_dec : EqDecision RiskEntry.
Proof. solve_decision. Defined.

Record Risks : Type :=
  { byDimension : obj RiskEntry; flags : list string; hasRisk : bool }.

Definition ENTROPY_FLAG : string := "Entropy risk (AI velocity > governance)".
Definition DRIFT_FLAG : string := "Drift risk (scale > release discipline)".

(** The template [`${dimension} risk (gap < -15)`]. *)
Definition dimension_flag (dimension : string) : string :=
  dimension +:+ " risk (gap < -15)".

(** One turn of the loop over the dimension gaps. *)
Definition classify_dimension (st : obj RiskEntry * list string)
    (entry : string * number) : obj RiskEntry * list string :=
  let '(byDimension, flags) := st in
  let '(dimension, gap) := entry in
  let isRisk := lt gap (int (-15)) in
  let byDimension := obj_set byDimension dimension {| gap := gap; risk := isRisk |} in
  if isRisk then (byDimension, flags ++ [dimension_flag dimension])
  else (byDimension, flags).

Definition classifyRisks (input : RiskInput) : Risks :=
  let context := in_context input in
  let '(byDimension, flags) :=
    foldl classify_dimension ([], []) (default [] (in_dimensionGaps input)) in
  let aiUsage := or_field (context ?> ctx_aiUsage) (int 0) in
  let governanceAvg := or_field (context ?> ctx_governanceAvg) (int 0) in
  let flags :=
    if ge aiUsage (int 3) && lt governanceAvg (int 2)
    then flags ++ [ENTROPY_FLAG] else flags in
  let teamSize := or_field (context ?> ctx_teamSize) (int 0) in
  let distributionAvg := or_field (context ?> ctx_distributionAvg) (int 0) in
  let flags :=
    if ge teamSize (int 3) && lt distributionAvg (int 2)
    then flags ++ [DRIFT_FLAG] else flags in
  {| byDimension := byDimension;
     flags := flags;
     hasRisk := bool_decide (0 < length flags)%nat |}.

(** ** The report model *)

Record ReportContext : Type :=
  { raw : obj number; normalized100 : obj number }.

Record ReportModel : Type :=
  { rm_context : ReportContext;
    rm_operationalPressure : OperationalPressure;
    rm_dimensionScores : obj DimensionScore;
    rm_SSI : number;
    rm_adequacyGap : number;
    rm_dimensionGaps : obj number;
    rm_risks : Risks }.

Record ReportInput : Type :=
  { responses : gmap string value;
    contextResponses : gmap string value;
    QUESTIONNAIRE : option Questionnaire }.

Definition computeReportModel (input : ReportInput) : ReportModel :=
  let responses := responses input in
  let contextResponses := contextResponses input in
  let dimensionScores := computeDimensionScores responses (QUESTIONNAIRE input) in
  let operationalPressure := computeOperationalPressure contextResponses in
  let SSI := computeSSI (Some dimensionScores) in
  let adequacyGap := computeAdequacyGap SSI (OPI operationalPressure) in
  let dimensionGaps :=
    computeDimensionGaps (Some dimensionScores) (OPI operationalPressure) in
  let teamSize := resolveContextValue contextResponses (aliases_of "teamSize") in
  let aiUsage := resolveContextValue contextResponses (aliases_of "aiUsage") in
  let governanceAvg :=
    or_field (avg <$> obj_get dimensionScores "governance") (int 0) in
  let distributionAvg :=
    or_field (avg <$> obj_get dimensionScores "distribution") (int 0) in
  let risks :=
    classifyRisks
      {| in_dimensionGaps := Some dimensionGaps;
         in_context :=
           Some {| ctx_aiUsage := Some aiUsage;
                   ctx_teamSize := Some teamSize;
                   ctx_governanceAvg := Some governanceAvg;
                   ctx_distributionAvg := Some distributionAvg |} |} in
  let normalized100 :=
    foldl (fun normalized100 '(factor, aliases) =>
             let raw := resolveContextValue contextResponses aliases in
             obj_set normalized100 factor (normalize1to4To100 (VNum raw)))
          [] CONTEXT_KEY_ALIASES in
  {| rm_context :=
       {| raw :=
            [ ("teamSize", teamSize);
              ("productComplexity",
                 resolveContextValue contextResponses
                   (aliases_of "productComplexity"));
              ("aiUsage", aiUsage);
              ("releaseFrequency",
                 resolveContextValue contextResponses
                   (aliases_of "releaseFrequency"));
              ("toolingFragmentation",
                 resolveContextValue contextResponses
                   (aliases_of "toolingFragmentation")) ];
          normalized100 := normalized100 |};
     rm_operationalPressure := operationalPressure;
     rm_dimensionScores := dimensionScores;
     rm_SSI := SSI;
     rm_adequacyGap := adequacyGap;
     rm_dimensionGaps := dimensionGaps;
     rm_risks := risks |}.

Definition reportModel (input : ReportInput) : ReportModel :=
  computeReportModel input.

End WithHost.
End Scoring.

(* ===================================================================== *)
(** * report.js *)
(* ===================================================================== *)

Module Report.
Import JS.

(** The [ReportModel] of the typedef: every part may be missing. *)
Record ContextView : Type := { raw : option (obj number) }.

Record PressureView : Type := { OPI : number }.

Record RisksView : Type := { flags : option (list string) }.

Record ReportModel : Type :=
  { context : option ContextView;
    operationalPressure : option PressureView;
    SSI : option number;
    adequacyGap : option number;
    dimensionScores : option (obj Scoring.DimensionScore);
    risks : option RisksView }.

(** A dimension with its scores, as the generators return it. *)
Record Ranked : Type :=
  { dimension : string; avg : number; score100 : number }.

#[global] Instance Ranked_eq_dec : EqDecision Ranked.
Proof. solve_decision. Defined.

(** [charAt(0).toUpperCase() + slice(1)], and [""] for the empty key. *)
Definition toTitle (key : string) : string :=
  match key with
  | EmptyString => ""
  | String c rest => toUpperCase (String c EmptyString) +:+ rest
  end.

(** The comparator of [sortedDimensions]: [b.score100 - a.score100]. *)
Definition by_score_desc (a b : Ranked) : number :=
  sub (score100 b) (score100 a).

Definition sortedDimensions (dimensionScores : option (obj Scoring.DimensionScore))
    : list Ranked :=
  sort by_score_desc
    (map (fun '(dimension, value) =>
            {| dimension := dimension;
               avg := or_num (Scoring.avg value) (int 0);
               score100 := or_num (Scoring.score100 value) (int 0) |})
         (default [] dimensionScores)).

Definition titled (d : Ranked) : Ranked :=
  {| dimension := toTitle (dimension d);
     score100 := score100 d;
     avg := avg d |}.

Definition generateStrengths (reportModel : option ReportModel) : list Ranked :=
  map titled (slice0 2 (sortedDimensions (reportModel ?> dimensionScores))).

Definition generateWeaknesses (reportModel : option ReportModel) : list Ranked :=
  map titled
    (slice0 2 (reverse (sortedDimensions (reportModel ?> dimensionScores)))).

Definition ABOVE : string :=
  "tends to sit above current operational pressure".
Definition SLIGHTLY_ABOVE : string :=
  "is slightly above current operational pressure".
Definition SLIGHTLY_BELOW : string :=
  "is slightly below current operational pressure".
Definition NOTABLE_GAP : string :=
  "may indicate a notable gap to current operational pressure".

Definition relationship_of (AG : number) : string :=
  if ge AG (int 10) then ABOVE
  else if ge AG (int 0) then SLIGHTLY_ABOVE
  else if ge AG (int (-10)) then SLIGHTLY_BELOW
  else NOTABLE_GAP.

(** The template of the summary, with its five holes. *)
Definition summary_template (ssi relationship opi ag team ai : string) : string :=
  "Current maturity signals (SSI " +:+ ssi +:+ ") " +:+ relationship +:+
  " (OPI " +:+ opi +:+ ", AG " +:+ ag +:+ "). With team size level " +:+
  team +:+ " and AI usage level " +:+ ai +:+
  ", this tends to indicate where practice consistency may need reinforcement as delivery pace changes.".

Section WithHost.
Context `{Host}.

Definition generateSummary (reportModel : option ReportModel) : string :=
  let SSI := or_field (reportModel ?> SSI) (int 0) in
  let OPI :=
    or_field (reportModel ?> operationalPressure ?> (fun p => Some (OPI p)))
             (int 0) in
  let AG :=
    match reportModel ?> adequacyGap with
    | Some g => g
    | None => sub SSI OPI
    end in
  let context := default [] (reportModel ?> context ?> raw) in
  let relationship := relationship_of AG in
  summary_template (toFixed SSI 1) relationship (toFixed OPI 1) (toFixed AG 1)
    (NumberToString (or_field (obj_get context "teamSize") (int 1)))
    (NumberToString (or_field (obj_get context "aiUsage") (int 1))).

End WithHost.

Definition TIP_ENTROPY_1 : string :=
  "Add a contribution RFC template + review gate so AI-assisted changes are triaged with clear owners and decision criteria.".
Definition TIP_ENTROPY_2 : string :=
  "Create a weekly governance check-in that reviews incoming system changes, exceptions, and follow-up actions.".
Definition TIP_DRIFT_1 : string :=
  "Publish system releases on a fixed cadence with release notes and a lightweight migration checklist for consuming teams.".
Definition TIP_DRIFT_2 : string :=
  "Track package adoption and breakages after each release so distribution issues are visible within one sprint.".
Definition TIP_GOVERNANCE : string :=
  "Define who approves token/component changes and add a simple intake form so requests follow one visible path.".
Definition TIP_DISTRIBUTION : string :=
  "Set up one repeatable publish workflow (version, notes, package release) and treat failed releases as a tracked incident.".
Definition TIP_DOCUMENTATION : string :=
  "Update docs in the same pull request as component changes, including examples for loading, empty, and error states.".
Definition TIP_COMPONENTS : string :=
  "Standardize component API patterns (states, variants, naming) and add a pre-merge check for accessibility basics.".
Definition TIP_FOUNDATIONS : string :=
  "Move core style values into shared tokens and add a lint/review check to reduce hard-coded color and spacing values.".
Definition TIP_ADOPTION : string :=
  "Set a quarterly adoption target for two high-traffic flows and review progress with concrete usage metrics.".
Definition TIP_FALLBACK : string :=
  "Pick one low-scoring behavior per dimension and run a 2-week improvement sprint with a clear owner and observable success signal.".

(** [if (c) { tips.push(t1); tips.push(t2); ... }] *)
Definition push_if (c : bool) (new : list string) (tips : list string)
    : list string :=
  if c then tips ++ new else tips.

Definition generateGuidance (reportModel : option ReportModel) : list string :=
  let tips := [] in
  let riskFlags := default [] (reportModel ?> risks ?> flags) in
  let weakest := generateWeaknesses reportModel in
  let weakestKeys := map (fun d => toLowerCase (dimension d)) weakest in
  let tips :=
    push_if (includes riskFlags "Entropy risk (AI velocity > governance)")
      [TIP_ENTROPY_1; TIP_ENTROPY_2] tips in
  let tips :=
    push_if (includes riskFlags "Drift risk (scale > release discipline)")
      [TIP_DRIFT_1; TIP_DRIFT_2] tips in
  let tips := push_if (includes weakestKeys "governance") [TIP_GOVERNANCE] tips in
  let tips := push_if (includes weakestKeys "distribution") [TIP_DISTRIBUTION] tips in
  let tips := push_if (includes weakestKeys "documentation") [TIP_DOCUMENTATION] tips in
  let tips := push_if (includes weakestKeys "components") [TIP_COMPONENTS] tips in
  let tips := push_if (includes weakestKeys "foundations") [TIP_FOUNDATIONS] tips in
  let tips := push_if (includes weakestKeys "adoption") [TIP_ADOPTION] tips in
  let tips := push_if (bool_decide (length tips = 0%nat)) [TIP_FALLBACK] tips in
  array_from_set tips.

(** The report model of [scoring.js] read through the typedef above: the
    same object, every part present. *)
Definition of_scoring (m : Scoring.ReportModel) : ReportModel :=
  {| context := Some {| raw := Some (Scoring.raw (Scoring.rm_context m)) |};
     operationalPressure :=
       Some {| OPI := Scoring.OPI (Scoring.rm_operationalPressure m) |};
     SSI := Some (Scoring.rm_SSI m);
     adequacyGap := Some (Scoring.rm_adequacyGap m);
     dimensionScores := Some (Scoring.rm_dimensionScores m);
     risks := Some {| flags := Some (Scoring.flags (Scoring.rm_risks m)) |} |}.

End Report.

(* ===================================================================== *)
(** * app.js: the computed report and its export *)
(* ===================================================================== *)

Module App.
Import JS.

(** The wizard state: the step and the two answer maps. *)
Record State : Type :=
  { currentStep : number;
    contextResponses : gmap string value;
    responses : gmap string value }.

Record ComputedReport : Type :=
  { reportModel : Scoring.ReportModel;
    summary : string;
    guidance : list string;
    risks : list string }.

Record ExportScore : Type := { avg : number; score100 : number }.

#[global] Instance ExportScore_eq_dec : EqDecision ExportScore.
Proof. solve_decision. Defined.

Record ExportPayload : Type :=
  { timestamp : string;
    p_contextResponses : gmap string value;
    dimensionScores : obj ExportScore;
    SSI : number;
    OPI : number;
    adequacyGap : number;
    riskFlags : list string;
    guidanceTips : list string }.

Section WithHost.
Context `{Host}.

(** [state] and [QUESTIONNAIRE] are module-level bindings in the source;
    here they are passed in. *)
Definition getComputedReport (state : State)
    (QUESTIONNAIRE : option Scoring.Questionnaire) : ComputedReport :=
  let reportModel :=
    Scoring.computeReportModel
      {| Scoring.responses := responses state;
         Scoring.contextResponses := contextResponses state;
         Scoring.QUESTIONNAIRE := QUESTIONNAIRE |} in
  let summary := Report.generateSummary (Some (Report.of_scoring reportModel)) in
  let guidance := Report.generateGuidance (Some (Report.of_scoring reportModel)) in
  let risks := Scoring.flags (Scoring.rm_risks reportModel) in
  {| reportModel := reportModel; summary := summary; guidance := guidance;
     risks := risks |}.

(** [now] is the value of [new Date().toISOString()]. *)
Definition buildExportPayload (state : State) (now : string)
    (reportModel : Scoring.ReportModel) (guidance : list string)
    : ExportPayload :=
  let dimensionScores :=
    foldl (fun dimensionScores '(dimension, score) =>
             obj_set dimensionScores dimension
               {| avg := or_num (Scoring.avg score) (int 0);
                  score100 := or_num (Scoring.score100 score) (int 0) |})
          [] (Scoring.rm_dimensionScores reportModel) in
  {| timestamp := now;
     p_contextResponses := contextResponses state;
     dimensionScores := dimensionScores;
     SSI := or_num (Scoring.rm_SSI reportModel) (int 0);
     OPI := or_num (Scoring.OPI (Scoring.rm_operationalPressure reportModel)) (int 0);
     adequacyGap := or_num (Scoring.rm_adequacyGap reportModel) (int 0);
     riskFlags := Scoring.flags (Scoring.rm_risks reportModel);
     guidanceTips := guidance |}.

(** The payload that [downloadReportJson] serializes. *)
Definition exportedPayload (state : State)
    (QUESTIONNAIRE : option Scoring.Questionnaire) (now : string)
    : ExportPayload :=
  let r := getComputedReport state QUESTIONNAIRE in
  buildExportPayload state now (reportModel r) (guidance r).

End WithHost.

(** ** The wizard: state, page and event handlers *)

Definition STORAGE_KEY : string := "ds_diag_wizard_state_v1".
Definition REPORTS_STORAGE_KEY : string := "ds_diag_reports_v1".
Definition MAX_SAVED_REPORTS : nat := 25.
Definition TOTAL_STEPS : number := int 3.

(** The value of [state] when the module is loaded. *)
Definition initial_state : State :=
  {| currentStep := int 1; contextResponses := ∅; responses := ∅ |}.

(** What the wizard reads of [QUESTIONNAIRE]: the ids of
    [operationalContext.questions], in order, and the list
    [structuralMaturity.behavioralQuestions]. *)
Record Questions : Type :=
  { contextQuestions : list string;
    maturityQuestions : list Scoring.question }.

(** The elements of the page that the handlers write besides the step
    content: [validationMessage.textContent], [stepLabel.textContent], the
    value assigned to [progressFill.style.width], [backBtn.disabled] and
    [nextBtn.textContent]. *)
Record Page : Type :=
  { validationMessage : string;
    stepLabel : string;
    progressWidth : string;
    backDisabled : bool;
    nextText : string }.

(** The wizard: the module-level [state] and the page.  The content of the
    current step, the charts and [localStorage] are not part of it: the
    functions below that only write those ([persistState], the three step
    renderers) leave the wizard as it is. *)
Record Wizard : Type := { state : State; page : Page }.


Definition clearValidation (w : Wizard) : Wizard :=
  {| state := state w;
     page := {| validationMessage := "";
                stepLabel := stepLabel (page w);
                progressWidth := progressWidth (page w);
                backDisabled := backDisabled (page w);
                nextText := nextText (page w) |} |}.

Definition setValidation (message : string) (w : Wizard) : Wizard :=
  {| state := state w;
     page := {| validationMessage := message;
                stepLabel := stepLabel (page w);
                progressWidth := progressWidth (page w);
                backDisabled := backDisabled (page w);
                nextText := nextText (page w) |} |}.

Record AdequacyStatus : Type := { label : string; className : string }.

Definition getAdequacyStatus (gap : number) : AdequacyStatus :=
  if lt gap (int (-10)) then {| label := "Underbuilt"; className := "underbuilt" |}
  else if gt gap (int 10) then {| label := "Overbuilt"; className := "overbuilt" |}
  else {| label := "Balanced"; className := "balanced" |}.

(** [state] with another step. *)
Definition with_step (st : State) (step : number) : State :=
  {| currentStep := step;
     contextResponses := contextResponses st;
     responses := responses st |}.

(** [v === undefined] for the result of a read by key. *)
Definition is_undefined (v : option value) : bool :=
  match v with
  | None | Some VUndefined => true
  | Some _ => false
  end.

(** The color stops that the fill callback of [createGradientFill] adds. *)
Definition gradient_step (colors : list string) : number :=
  if gt (of_nat (length colors)) (int 1)
  then div (int 1) (sub (of_nat (length colors)) (int 1))
  else int 1.

Definition gradient_stops (colors : list string) : list (number * string) :=
  imap (fun index color => (mul (gradient_step colors) (of_nat index), color))
       colors.

(** The fill: the first color while the chart has no area yet, else a
    gradient with the stops above. *)
Inductive Fill : Type :=
  | FillColor (color : option string)
  | FillGradient (stops : list (number * string)).

Definition createGradientFill (colors : list string) (chartArea : bool) : Fill :=
  if chartArea then FillGradient (gradient_stops colors)
  else FillColor (head colors).

(** [s.replace(/[:.]/g, "-")] *)
Fixpoint replace_colon_dot (s : string) : string :=
  match s with
  | EmptyString => EmptyString
  | String c rest =>
      String (if bool_decide (c = ":"%char) || bool_decide (c = "."%char)
              then "-"%char else c)
             (replace_colon_dot rest)
  end.

(** The name under which [downloadReportJson] offers the report; [now] is
    the value of [new Date().toISOString()]. *)
Definition download_name (now : string) : string :=
  let stamp := replace_colon_dot now in
  "ds-maturity-report-" +:+ stamp +:+ ".json".

Section Wizard.
Context `{Host} `{Browser}.

(** [raw] is the value of [readStorage(STORAGE_KEY)]: [None] for [null]. *)
Definition restoreState (raw : option string) (state : State) : State :=
  match raw with
  | None => state
  | Some text =>
      if bool_decide (text = "") then state
      else
        match JSON_parse text with
        | None =>
            {| currentStep := int 1; contextResponses := ∅; responses := ∅ |}
        | Some parsed =>
            if negb (json_truthy parsed) || negb (typeof_object parsed)
            then state
            else
              let currentStep :=
                or_num (Number (json_field parsed "currentStep")) (int 1) in
              let currentStep :=
                if lt currentStep (int 1) || gt currentStep TOTAL_STEPS
                then int 1 else currentStep in
              {| currentStep := currentStep;
                 contextResponses :=
                   own_properties
                     (json_or (json_get parsed "contextResponses") (JObj []));
                 responses :=
                   own_properties
                     (json_or (json_get parsed "responses") (JObj [])) |}
        end
  end.

Definition updateProgress (w : Wizard) : Wizard :=
  let step := currentStep (state w) in
  {| state := state w;
     page :=
       {| validationMessage := validationMessage (page w);
          stepLabel :=
            "Step " +:+ NumberToString step +:+ "/" +:+ NumberToString TOTAL_STEPS;
          progressWidth :=
            NumberToString (mul (div step TOTAL_STEPS) (int 100)) +:+ "%";
          backDisabled := bool_decide (step = int 1);
          nextText :=
            if bool_decide (step = int 3) then "Start Over"
            else if bool_decide (step = int 2) then "View Results"
            else "Continue" |} |}.

(** [render] updates the progress elements, clears the validation message
    and then writes the content of the current step. *)
Definition render (w : Wizard) : Wizard :=
  clearValidation (updateProgress w).

(** The result of [validateStep] with the wizard it leaves. *)
Definition validateStep (Q : Questions) (w : Wizard) : bool * Wizard :=
  let st := state w in
  let missingContext :=
    List.filter (fun id => is_undefined (contextResponses st !! id))
                (contextQuestions Q) in
  let missingMaturity :=
    List.filter (fun q => is_undefined (responses st !! Scoring.q_id q))
                (maturityQuestions Q) in
  if bool_decide (currentStep st = int 1)
     && negb (Nat.eqb (length missingContext) 0)
  then
    (false,
     setValidation
       ("Please answer all context questions (" +:+
        NumberToString (of_nat (length missingContext)) +:+ " left).") w)
  else if bool_decide (currentStep st = int 2)
          && negb (Nat.eqb (length missingMaturity) 0)
  then
    (false,
     setValidation
       ("Please answer all structural maturity questions (" +:+
        NumberToString (of_nat (length missingMaturity)) +:+ " left).") w)
  else (true, clearValidation w).

(** The target of an event: an input with its [data-type], [data-id] and
    value, a button with its id, or another node. *)
Inductive EventTarget : Type :=
  | InputElement (data_type data_id : option string) (value : string)
  | ButtonElement (id : string)
  | OtherTarget.

(** A missing [data-id] is the key ["undefined"]. *)
Definition handleAnswerChange (target : EventTarget) (w : Wizard) : Wizard :=
  match target with
  | InputElement data_type data_id value =>
      let key := default "undefined" data_id in
      let st := state w in
      if bool_decide (data_type = Some "context") then
        clearValidation
          {| state :=
               {| currentStep := currentStep st;
                  contextResponses :=
                    <[key := VNum (Number (VStr value))]> (contextResponses st);
                  responses := responses st |};
             page := page w |}
      else if bool_decide (data_type = Some "maturity") then
        clearValidation
          {| state :=
               {| currentStep := currentStep st;
                  contextResponses := contextResponses st;
                  responses :=
                    <[key := VNum (Number (VStr value))]> (responses st) |};
             page := page w |}
      else w
  | _ => w
  end.

(** The click handler; [feedbackEmbedUrl] is the value of
    [getFeedbackEmbedUrl()].  Downloading, copying and the feedback dialog
    do not touch the wizard. *)
Definition handleWizardClick (feedbackEmbedUrl : string) (target : EventTarget)
    (w : Wizard) : Wizard :=
  match target with
  | ButtonElement id =>
      if bool_decide (id = "downloadReportBtn") then w
      else if bool_decide (id = "copySummaryBtn") then w
      else if bool_decide (id = "newResponseBtn") then
        render
          {| state :=
               {| currentStep := int 1; contextResponses := ∅;
                  responses := ∅ |};
             page := page w |}
      else if bool_decide (id = "openFeedbackBtn") then
        if bool_decide (feedbackEmbedUrl = "") then
          setValidation
            "Feedback form is not configured. Add your Google Form URL to data-feedback-form-url in index.html."
            w
        else clearValidation w
      else w
  | _ => w
  end.

Definition goBack (w : Wizard) : Wizard :=
  if le (currentStep (state w)) (int 1) then w
  else
    render
      {| state := with_step (state w) (sub (currentStep (state w)) (int 1));
         page := page w |}.

Definition goNext (Q : Questions) (w : Wizard) : Wizard :=
  if bool_decide (currentStep (state w) = int 3) then
    render {| state := with_step (state w) (int 1); page := page w |}
  else
    let '(valid, w) := validateStep Q w in
    if negb valid then w
    else
      render
        {| state := with_step (state w) (add (currentStep (state w)) (int 1));
           page := page w |}.

(** The events that [bindEvents] listens to: a change or a click inside the
    step content, a click on the Back or the Next button, and a key press,
    which only concerns the feedback dialog. *)
Inductive Event : Type :=
  | ContentChange (target : EventTarget)
  | ContentClick (target : EventTarget)
  | BackClick
  | NextClick
  | Keydown (key : string).

Definition bindEvents (Q : Questions) (feedbackEmbedUrl : string) (e : Event)
    (w : Wizard) : Wizard :=
  match e with
  | ContentChange target => handleAnswerChange target w
  | ContentClick target => handleWizardClick feedbackEmbedUrl target w
  | BackClick => goBack w
  | NextClick => goNext Q w
  | Keydown _ => w
  end.

(** The module ends with [restoreState(); bindEvents(); render();]. *)
Definition start (raw : option string) (page : Page) : Wizard :=
  render {| state := restoreState raw initial_state; page := page |}.

(** The schema that [getComputedReport] hands to the scoring engine. *)
Definition scoring_schema (Q : Questions) : option Scoring.Questionnaire :=
  Some {| Scoring.structuralMaturity :=
            Some {| Scoring.behavioralQuestions :=
                      Some (maturityQuestions Q) |} |}.

(** ** Saved reports *)

(** [raw] is the value of [readStorage(REPORTS_STORAGE_KEY)]. *)
Definition loadSavedReports (raw : option string) : list json :=
  match raw with
  | None => []
  | Some text =>
      if bool_decide (text = "") then []
      else
        match JSON_parse text with
        | Some (JArr items) => items
        | _ => []
        end
  end.

(** [existing && existing.fingerprint === fingerprint] *)
Definition same_fingerprint (existing : option json) (fingerprint : string)
    : bool :=
  match existing with
  | Some j =>
      json_truthy j
      && match json_get j "fingerprint" with
         | Some (JStr s) => bool_decide (s = fingerprint)
         | _ => false
         end
  | None => false
  end.

(** The list that [saveReportSnapshot] returns and, when it writes, the list
    that it serializes into the store.  [fingerprint] is the value of
    [getStateFingerprint()] and [now] that of [new Date().toISOString()]. *)
Definition saveReportSnapshot (raw : option string) (fingerprint now : string)
    (reportModel : Scoring.ReportModel) (summary : string)
    (guidance : list string) : list json * option (list json) :=
  let reports := loadSavedReports raw in
  let existing := head reports in
  if same_fingerprint existing fingerprint then (reports, None)
  else
    let record :=
      JObj
        [ ("timestamp", JStr now);
          ("fingerprint", JStr fingerprint);
          ("summary", JStr summary);
          ("SSI", JNum (or_num (Scoring.rm_SSI reportModel) (int 0)));
          ("OPI",
             JNum (or_num (Scoring.OPI (Scoring.rm_operationalPressure reportModel))
                          (int 0)));
          ("adequacyGap",
             JNum (or_num (Scoring.rm_adequacyGap reportModel) (int 0)));
          ("risks",
             JArr (List.map JStr (Scoring.flags (Scoring.rm_risks reportModel))));
          ("guidance", JArr (List.map JStr guidance)) ] in
    let next := slice0 MAX_SAVED_REPORTS (record :: reports) in
    (next, Some next).

(** ** The copied summary *)

Definition buildCopySummaryText (reportModel : Scoring.ReportModel)
    (summary : string) : string :=
  let lines :=
    [ summary;
      "";
      "SSI: " +:+ toFixed (or_num (Scoring.rm_SSI reportModel) (int 0)) 1;
      "OPI: " +:+
        toFixed (or_num (Scoring.OPI (Scoring.rm_operationalPressure reportModel))
                        (int 0)) 1;
      "Adequacy Gap: " +:+
        toFixed (or_num (Scoring.rm_adequacyGap reportModel) (int 0)) 1 ] in
  String.concat (String (ascii_of_nat 10) EmptyString) lines.

End Wizard.

End App.

(* ===================================================================== *)
(** * Specification-level definitions *)
(* ===================================================================== *)

Module Spec.
Import JS.

(** Clamping to [[lo, hi]]: a number below the range goes to [lo], one
    above it to [hi], and a number that is not finite to [lo]. *)
Definition clamp (lo hi : Qc) (n : number) : Qc :=
  match n with
  | Fin q =>
      if decide (q < lo)%Qc then lo
      else if decide (hi < q)%Qc then hi
      else q
  | _ => lo
  end.

(** [lo <= n <= hi] for a finite [n]. *)
Definition between (lo hi : Qc) (n : number) : Prop :=
  exists q, n = Fin q /\ (lo <= q)%Qc /\ (q <= hi)%Qc.

(** The sum of a list of numbers, from the left. *)
Definition sum_numbers (l : list number) : number := foldl add (int 0) l.

(** A gap that breaches the per-dimension threshold. *)
Definition breach (entry : string * number) : Prop :=
  lt entry.2 (int (-15)) = true.

#[global] Instance breach_dec entry : Decision (breach entry).
Proof. unfold breach. apply _. Defined.

(** The flags of §4.5: the breaches in enumeration order, then the entropy
    flag, then the drift flag. *)
Definition expected_flags (gaps : obj number) (entropy drift : bool)
    : list string :=
  map Scoring.dimension_flag (keys (filter breach gaps))
  ++ (if entropy then [Scoring.ENTROPY_FLAG] else [])
  ++ (if drift then [Scoring.DRIFT_FLAG] else []).

(** The entropy rule and the drift rule on the levels the classifier
    reads. *)
Definition entropy_rule (aiUsage governanceAvg : number) : bool :=
  ge aiUsage (int 3) && lt governanceAvg (int 2).

Definition drift_rule (teamSize distributionAvg : number) : bool :=
  ge teamSize (int 3) && lt distributionAvg (int 2).

(** The four bands of the adequacy gap. *)
Inductive band : Type := Above | SlightlyAbove | SlightlyBelow | NotableGap.

Definition in_band (AG : number) (b : band) : Prop :=
  match b with
  | Above => ge AG (int 10) = true
  | SlightlyAbove => ge AG (int 0) = true /\ lt AG (int 10) = true
  | SlightlyBelow => ge AG (int (-10)) = true /\ lt AG (int 0) = true
  | NotableGap => lt AG (int (-10)) = true
  end.


(** The known dimension names with their tips, in the order of §4.7. *)
Definition KNOWN_DIMENSION_TIPS : list (string * string) :=
  [ ("governance", Report.TIP_GOVERNANCE);
    ("distribution", Report.TIP_DISTRIBUTION);
    ("documentation", Report.TIP_DOCUMENTATION);
    ("components", Report.TIP_COMPONENTS);
    ("foundations", Report.TIP_FOUNDATIONS);
    ("adoption", Report.TIP_ADOPTION) ].

(** The tips of §4.7 for given risk flags and lower-cased weakness names. *)
Definition rule_tips (riskFlags weakestKeys : list string) : list string :=
  (if bool_decide (Scoring.ENTROPY_FLAG ∈ riskFlags)
   then [Report.TIP_ENTROPY_1; Report.TIP_ENTROPY_2] else [])
  ++ (if bool_decide (Scoring.DRIFT_FLAG ∈ riskFlags)
      then [Report.TIP_DRIFT_1; Report.TIP_DRIFT_2] else [])
  ++ flat_map (fun '(name, tip) =>
                 if bool_decide (name ∈ weakestKeys) then [tip] else [])
              KNOWN_DIMENSION_TIPS.

Definition expected_guidance (riskFlags weakestKeys : list string)
    : list string :=
  match rule_tips riskFlags weakestKeys with
  | [] => [Report.TIP_FALLBACK]
  | tips => tips
  end.

(** All the rule tips, in the order in which the rules push them. *)
Definition ALL_TIPS : list string :=
  [ Report.TIP_ENTROPY_1; Report.TIP_ENTROPY_2; Report.TIP_DRIFT_1;
    Report.TIP_DRIFT_2; Report.TIP_GOVERNANCE; Report.TIP_DISTRIBUTION;
    Report.TIP_DOCUMENTATION; Report.TIP_COMPONENTS; Report.TIP_FOUNDATIONS;
    Report.TIP_ADOPTION ].

(** The dimensions of a report with the scores the generators read, in
    enumeration order. *)
Definition ranked_entries (dimensionScores : obj Scoring.DimensionScore)
    : list Report.Ranked :=
  map (fun '(dimension, value) =>
         {| Report.dimension := dimension;
            Report.avg := or_num (Scoring.avg value) (int 0);
            Report.score100 := or_num (Scoring.score100 value) (int 0) |})
      dimensionScores.

(** The dimensions whose score equals [v]. *)
Definition scored (v : number) (d : Report.Ranked) : Prop :=
  compare (Report.score100 d) v = Some Eq.

#[global] Instance scored_dec v d : Decision (scored v d).
Proof. unfold scored. apply _. Defined.

Section Keyed.
Context {A : Type} (key : A -> number).

(** The comparator [(a, b) => key(b) - key(a)]: highest key first. *)
Definition desc (a b : A) : number := sub (key b) (key a).

Definition no_NaN (l : list A) : Prop := Forall (fun a => key a <> NaN) l.

Definition ge_key (a b : A) : Prop := ge (key a) (key b) = true.

End Keyed.

(** The statistics of a dimension before its first question, and the
    statistics accumulated over all the questions. *)
Definition fresh_stats : Scoring.Stats :=
  {| Scoring.acc_sum := int 0; Scoring.acc_count := int 0;
     Scoring.acc_total := int 0 |}.


(** Statistics that are all finite numbers. *)
Definition finite_stats (stats : Scoring.Stats) : Prop :=
  isFinite (Scoring.acc_sum stats) = true
  /\ isFinite (Scoring.acc_count stats) = true
  /\ isFinite (Scoring.acc_total stats) = true.

Definition accumulated `{Host} (responses : gmap string value)
    (QUESTIONNAIRE : option Scoring.Questionnaire) : obj Scoring.Stats :=
  foldl (Scoring.accumulate responses) [] (Scoring.questions_of QUESTIONNAIRE).

(** Sorted by score, highest first. *)
Definition descending (l : list Report.Ranked) : Prop :=
  forall i j a b, (i < j)%nat -> l !! i = Some a -> l !! j = Some b ->
    ge (Report.score100 a) (Report.score100 b) = true.

(** ** Dimension scores *)

(** The key under which [computeDimensionScores] files a question. *)
Definition dimension_of (q : Scoring.question) : string :=
  toLowerCase (Scoring.q_dimension q).

(** The questions of a dimension and the answers given to a list of
    questions, both in the order of the schema.  An answer is given when
    the map has the id of the question as a key. *)
Definition questions_in (d : string) (qs : list Scoring.question)
    : list Scoring.question :=
  filter (fun q => dimension_of q = d) qs.

Definition answers_to (responses : gmap string value)
    (qs : list Scoring.question) : list value :=
  omap (fun q => responses !! Scoring.q_id q) qs.

(** The mean of the given answers, each clamped to [[0, 3]]; 0 when no
    answer is given. *)
Definition mean_answer `{Host} (given : list value) : number :=
  match given with
  | [] => int 0
  | _ =>
      div (sum_numbers
             (map (fun v => Scoring.toClampedNumber v (int 0) (int 3)) given))
          (of_nat (length given))
  end.

(** The statistics that the loop of [computeDimensionScores] has gathered
    for a dimension once it has seen the questions [asked] of the
    dimension. *)
Definition stats_of `{Host} (responses : gmap string value)
    (asked : list Scoring.question) : Scoring.Stats :=
  let given := answers_to responses asked in
  {| Scoring.acc_sum :=
       sum_numbers
         (map (fun v => Scoring.toClampedNumber v (int 0) (int 3)) given);
     Scoring.acc_count := of_nat (length given);
     Scoring.acc_total := of_nat (length asked) |}.

(** ** Comparing two sets of answers *)

(** [responses'] answers the same questions as [responses], and no answer
    is lower once it is clamped to [[0, 3]]. *)
Definition answers_raised `{Host} (responses responses' : gmap string value)
    : Prop :=
  forall id,
    match responses !! id, responses' !! id with
    | Some v, Some v' =>
        le (Scoring.toClampedNumber v (int 0) (int 3))
           (Scoring.toClampedNumber v' (int 0) (int 3)) = true
    | None, None => True
    | _, _ => False
    end.

(** The level of a factor as it enters the pressure index: the resolved
    answer clamped to [[1, 4]]. *)
Definition pressure_level `{Host} (ctx : gmap string value) (factor : string)
    : number :=
  Scoring.toClampedNumber
    (VNum (Scoring.resolveContextValue ctx (Scoring.aliases_of factor)))
    (int 1) (int 4).

(** No factor has a lower level in [ctx'] than in [ctx]. *)
Definition pressure_raised `{Host} (ctx ctx' : gmap string value) : Prop :=
  forall factor weight, (factor, weight) ∈ Scoring.OPERATIONAL_WEIGHTS ->
    le (pressure_level ctx factor) (pressure_level ctx' factor) = true.

(** ** The wizard *)

(** The wizard is on one of its three steps. *)
Definition on_a_step (w : App.Wizard) : Prop :=
  App.currentStep (App.state w) = int 1
  \/ App.currentStep (App.state w) = int 2
  \/ App.currentStep (App.state w) = int 3.

(** A question counts as answered when the answer map holds a value other
    than [undefined] under its id. *)
Definition has_answer (answers : gmap string value) (id : string) : Prop :=
  App.is_undefined (answers !! id) = false.

(** The object that [persistState] serializes, read back by the parser,
    for a state whose answers are the numbers [c] and [r]:
    [{currentStep, contextResponses, responses}].  The state itself is
    [numeric_state]. *)
Definition persisted_document (step : number) (c r : gmap string number)
    : json :=
  JObj [ ("currentStep", JNum step);
         ("contextResponses", JObj (map_to_list (JNum <$> c)));
         ("responses", JObj (map_to_list (JNum <$> r))) ].

Definition numeric_state (step : number) (c r : gmap string number)
    : App.State :=
  {| App.currentStep := step;
     App.contextResponses := VNum <$> c;
     App.responses := VNum <$> r |}.

(** A session: the wizard after a sequence of events. *)
Definition run `{Host} (Q : App.Questions) (feedbackEmbedUrl : string)
    (events : list App.Event) (w : App.Wizard) : App.Wizard :=
  foldl (fun w e => App.bindEvents Q feedbackEmbedUrl e w) w events.

End Spec.

(* ===================================================================== *)
(** * Sample inputs *)
(* ===================================================================== *)

Module Examples.
Import JS.

(** A host for running the functions on the sample inputs below.  The
    samples hold numbers only and the sampled results are numbers, flags and
    names, so nothing that is stated about them depends on how this host
    reads or prints. *)
Definition sample_host : Host :=
  {| StringToNumber := fun _ => NaN;
     NumberToString := fun _ => "";
     toFixed := fun _ _ => "" |}.

(** An input of the risk classifier: one breach, the entropy rule fires. *)
Definition sample_risk_input : Scoring.RiskInput :=
  {| Scoring.in_dimensionGaps :=
       Some [("governance", int (-20)); ("documentation", int 5)];
     Scoring.in_context :=
       Some {| Scoring.ctx_aiUsage := Some (int 4);
               Scoring.ctx_teamSize := Some (int 1);
               Scoring.ctx_governanceAvg := Some (int 1);
               Scoring.ctx_distributionAvg := Some (int 3) |} |}.

(** A context map with a canonical and a legacy key. *)
Definition sample_context : gmap string value :=
  <["aiUsage" := VNum (int 4)]> (<["oc_team_size" := VNum (int 2)]> ∅).

(** The score record of a dimension with the given [score100]. *)
Definition scored_at (score100 : Z) : Scoring.DimensionScore :=
  {| Scoring.avg := int 0; Scoring.score100 := int score100;
     Scoring.answered := int 0; Scoring.total := int 0 |}.

Definition report_of (dimensionScores : obj Scoring.DimensionScore)
    : Report.ReportModel :=
  {| Report.context := None; Report.operationalPressure := None;
     Report.SSI := None; Report.adequacyGap := None;
     Report.dimensionScores := Some dimensionScores;
     Report.risks := None |}.

(** Three dimensions with the scores 90, 50 and 10. *)
Definition sample_three : Report.ReportModel :=
  report_of [("A", scored_at 90); ("B", scored_at 50); ("C", scored_at 10)].

(** Two dimensions with the same score, [X] inserted before [Y]. *)
Definition sample_tie : Report.ReportModel :=
  report_of [("X", scored_at 50); ("Y", scored_at 50)].

Definition ranked (dimension : string) (score100 : Z) : Report.Ranked :=
  {| Report.dimension := dimension; Report.avg := int 0;
     Report.score100 := int score100 |}.

(** A schema with two governance questions, both answered 0, and a context
    whose AI usage is 4; every other context answer is missing. *)
Definition governance_schema : option Scoring.Questionnaire :=
  Some {| Scoring.structuralMaturity :=
            Some {| Scoring.behavioralQuestions :=
                      Some [ {| Scoring.q_id := "gov_1";
                                Scoring.q_dimension := "Governance" |};
                             {| Scoring.q_id := "gov_2";
                                Scoring.q_dimension := "Governance" |} ] |} |}.

Definition sample_entropy_input : Scoring.ReportInput :=
  {| Scoring.responses :=
       <["gov_1" := VNum (int 0)]> (<["gov_2" := VNum (int 0)]> ∅);
     Scoring.contextResponses := <["oc_ai_usage" := VNum (int 4)]> ∅;
     Scoring.QUESTIONNAIRE := governance_schema |}.

(** The same context with both governance questions answered 1. *)
Definition sample_entropy_only_input : Scoring.ReportInput :=
  {| Scoring.responses :=
       <["gov_1" := VNum (int 1)]> (<["gov_2" := VNum (int 1)]> ∅);
     Scoring.contextResponses := <["oc_ai_usage" := VNum (int 4)]> ∅;
     Scoring.QUESTIONNAIRE := governance_schema |}.

(** A restored wizard state whose stored team size was the JSON number
    [1e999], which [JSON.parse] reads as [Infinity]. *)
Definition sample_overflow_state : App.State :=
  {| App.currentStep := int 3;
     App.contextResponses := <["oc_team_size" := VNum PInf]> ∅;
     App.responses := ∅ |}.

Definition sample_now : string := "2024-01-01T00:00:00.000Z".

(** A schema with one question in each of four dimensions, answered 3, 2,
    1 and 0. *)
Definition four_dimension_schema : option Scoring.Questionnaire :=
  Some {| Scoring.structuralMaturity :=
            Some {| Scoring.behavioralQuestions :=
                      Some [ {| Scoring.q_id := "gov_1";
                                Scoring.q_dimension := "Governance" |};
                             {| Scoring.q_id := "dist_1";
                                Scoring.q_dimension := "Distribution" |};
                             {| Scoring.q_id := "comp_1";
                                Scoring.q_dimension := "Components" |};
                             {| Scoring.q_id := "adopt_1";
                                Scoring.q_dimension := "Adoption" |} ] |} |}.

Definition sample_four_input : Scoring.ReportInput :=
  {| Scoring.responses :=
       <["gov_1" := VNum (int 3)]>
         (<["dist_1" := VNum (int 2)]>
            (<["comp_1" := VNum (int 1)]>
               (<["adopt_1" := VNum (int 0)]> ∅)));
     Scoring.contextResponses := ∅;
     Scoring.QUESTIONNAIRE := four_dimension_schema |}.

(** A browser whose parser rejects every text, an empty page and a
    questionnaire with two context questions and the four maturity questions
    above. *)
Definition sample_browser : Browser := {| JSON_parse := fun _ => None |}.

Definition sample_page : App.Page :=
  {| App.validationMessage := ""; App.stepLabel := "";
     App.progressWidth := ""; App.backDisabled := false;
     App.nextText := "" |}.

Definition sample_questions : App.Questions :=
  {| App.contextQuestions := ["oc_team_size"; "oc_ai_usage"];
     App.maturityQuestions :=
       [ {| Scoring.q_id := "gov_1"; Scoring.q_dimension := "Governance" |};
         {| Scoring.q_id := "dist_1"; Scoring.q_dimension := "Distribution" |} ] |}.

(** A browser whose store holds the state "step 2, team size 3". *)
Definition sample_restoring_browser : Browser :=
  {| JSON_parse := fun _ =>
       Some (Spec.persisted_document (int 2) {[ "oc_team_size" := int 3 ]} ∅) |}.

(** The wizard as it starts with an empty store. *)
Definition sample_wizard : App.Wizard :=
  @App.start sample_host sample_browser None sample_page.

(** The wizard on step 2 with both maturity questions answered. *)
Definition sample_wizard_answered : App.Wizard :=
  {| App.state :=
       {| App.currentStep := int 2;
          App.contextResponses := ∅;
          App.responses :=
            <["gov_1" := VNum (int 3)]> (<["dist_1" := VNum (int 1)]> ∅) |};
     App.page := sample_page |}.

End Examples.

(* ===================================================================== *)
(** * Facts about numbers, strings and objects *)
(* ===================================================================== *)

Module JSFacts.
Import JS.

Local Open Scope Qc_scope.

(** Goals over [Qc] go to [lra] over [Q]. *)
Ltac qc_unfold :=
  repeat (progress
    (unfold int, lit, ratio, Qcle, Qclt, Qcdiv, Qcmult, Qcplus, Qcminus,
       Qcopp, Qcinv in *;
     cbn [this Q2Qc] in *;
     rewrite ?Qred_correct in *));
  cbn [Qinv Qopp Qnum Qden] in *.

Ltac qc_lra := qc_unfold; lra.

(** Order goals over [Qc], negated comparisons included; an equation goes
    to [Q] first. *)
Ltac qc_order :=
  repeat match goal with
         | H : ~ (_ < _)%Qc |- _ => apply Qcnot_lt_le in H
         | H : ~ (_ <= _)%Qc |- _ => apply Qcnot_le_lt in H
         end;
  try match goal with
      | |- @eq Qc _ _ => apply Qc_is_canon
      end;
  try (exfalso; qc_lra); qc_lra.

(** Equality of two closed rationals, or of closed terms built from them. *)
Ltac qc_eq :=
  first [ apply Qc_is_canon; vm_compute; reflexivity | compute_done ].

Lemma Qc_eq_this (x y : Qc) : (this x == this y)%Q -> x = y.
Proof. apply Qc_is_canon. Qed.

Lemma compare_Fin x y : compare (Fin x) (Fin y) = Some (x ?= y).
Proof. reflexivity. Qed.

Lemma lt_Fin x y : lt (Fin x) (Fin y) = true <-> x < y.
Proof.
  unfold lt. rewrite compare_Fin, Qclt_alt.
  destruct (x ?= y); split; congruence.
Qed.

Lemma ge_Fin x y : ge (Fin x) (Fin y) = true <-> y <= x.
Proof.
  unfold ge. rewrite compare_Fin.
  change (y <= x) with (x >= y). rewrite Qcge_alt.
  destruct (x ?= y); split; congruence.
Qed.

Lemma le_Fin x y : le (Fin x) (Fin y) = true <-> x <= y.
Proof. unfold le. apply ge_Fin. Qed.

Lemma gt_Fin x y : gt (Fin x) (Fin y) = true <-> y < x.
Proof. unfold gt. apply lt_Fin. Qed.

Lemma lt_Fin_false x y : lt (Fin x) (Fin y) = false <-> y <= x.
Proof.
  rewrite <- not_true_iff_false, lt_Fin. split.
  - apply Qcnot_lt_le.
  - intros ? ?. by eapply Qcle_not_lt.
Qed.

Lemma ge_Fin_false x y : ge (Fin x) (Fin y) = false <-> x < y.
Proof.
  rewrite <- not_true_iff_false, ge_Fin. split.
  - apply Qcnot_le_lt.
  - intros ? ?. by eapply Qclt_not_le.
Qed.

(** On numbers that are not NaN, [>=] is the negation of [<]. *)
Lemma ge_negb_lt a b : a <> NaN -> b <> NaN -> ge a b = negb (lt a b).
Proof.
  intros Ha Hb. unfold ge, lt.
  destruct a, b; try congruence; cbn; try reflexivity.
  destruct (_ ?= _); reflexivity.
Qed.

Lemma lt_irrefl a : lt a a = false.
Proof.
  destruct a; try reflexivity.
  apply lt_Fin_false, Qcle_refl.
Qed.

Lemma ge_refl a : a <> NaN -> ge a a = true.
Proof. intros. rewrite ge_negb_lt, lt_irrefl; done. Qed.

Lemma ge_trans a b c : ge a b = true -> ge b c = true -> ge a c = true.
Proof.
  destruct a, b, c; try (cbn; congruence); try reflexivity.
  rewrite !ge_Fin. intros. by eapply Qcle_trans.
Qed.

(** The comparison of two numbers that are not NaN is total. *)
Lemma lt_false_ge a b : a <> NaN -> b <> NaN -> lt a b = false -> ge a b = true.
Proof. intros. rewrite ge_negb_lt by done. by destruct (lt a b). Qed.

Lemma lt_ge_flip a b : lt a b = true -> ge b a = true.
Proof.
  destruct a, b; try (cbn; congruence); try reflexivity.
  rewrite lt_Fin, ge_Fin. apply Qclt_le_weak.
Qed.

Lemma is_finite_Fin n : isFinite n = true <-> exists q, n = Fin q.
Proof. destruct n; cbn; split; try congruence; eauto; by intros [? ?]. Qed.

Lemma truthy_not_NaN a : truthy a = true -> a <> NaN.
Proof. by destruct a. Qed.

Lemma or_num_not_NaN a d : d <> NaN -> or_num a d <> NaN.
Proof.
  intros. unfold or_num. destruct (truthy a) eqn:E; [|done].
  by apply truthy_not_NaN.
Qed.

Lemma or_num_finite a d :
  isFinite a = true -> isFinite d = true -> isFinite (or_num a d) = true.
Proof. intros. unfold or_num. by destruct (truthy a). Qed.

Lemma or_field_not_NaN f d : d <> NaN -> or_field f d <> NaN.
Proof. destruct f; cbn; [apply or_num_not_NaN | done]. Qed.

(** Reading a level through [|| 0] does not change [>= 3], and changes
    [< 2] only for NaN. *)
Lemma or_num_ge_3 a : ge (or_num a (int 0)) (int 3) = ge a (int 3).
Proof.
  unfold or_num. destruct a as [| | |q]; try reflexivity.
  cbn. case_bool_decide; [subst|]; reflexivity.
Qed.

Lemma or_num_lt_2 a : a <> NaN -> lt (or_num a (int 0)) (int 2) = lt a (int 2).
Proof.
  unfold or_num. destruct a as [| | |q]; try reflexivity; [done|].
  intros _. cbn. case_bool_decide; [subst|]; reflexivity.
Qed.

End JSFacts.

(* ===================================================================== *)
(** * Normalization *)
(* ===================================================================== *)

Module NormalizationFacts.
Import JS Scoring Spec JSFacts.

Local Open Scope Qc_scope.

Lemma max_Fin a b : max (Fin a) (Fin b) = Fin (if decide (a < b) then b else a).
Proof.
  unfold max. rewrite compare_Fin.
  destruct (a ?= b) eqn:E; case_decide as L; try reflexivity.
  - apply (proj1 (Qclt_alt _ _)) in L. congruence.
  - apply (proj2 (Qclt_alt _ _)) in E. done.
  - apply (proj1 (Qclt_alt _ _)) in L. congruence.
Qed.

Lemma min_Fin a b : min (Fin a) (Fin b) = Fin (if decide (b < a) then b else a).
Proof.
  unfold min. rewrite compare_Fin.
  destruct (a ?= b) eqn:E; case_decide as L; try reflexivity.
  - apply (proj1 (Qcgt_alt _ _)) in L. congruence.
  - apply (proj1 (Qcgt_alt _ _)) in L. congruence.
  - apply (proj2 (Qcgt_alt _ _)) in E. done.
Qed.

Lemma clamp_bounds lo hi n : lo <= hi -> lo <= clamp lo hi n /\ clamp lo hi n <= hi.
Proof.
  intros Hle. unfold clamp. destruct n; try (split; [apply Qcle_refl | done]).
  repeat case_decide; qc_order.
Qed.

Lemma clamp_id lo hi q : lo <= q -> q <= hi -> clamp lo hi (Fin q) = q.
Proof. intros. unfold clamp. repeat case_decide; qc_order. Qed.


Section WithHost.
Context `{Host}.

Lemma toClampedNumber_clamp v lo hi :
  lo <= hi -> toClampedNumber v (Fin lo) (Fin hi) = Fin (clamp lo hi (Number v)).
Proof.
  intros Hle. unfold toClampedNumber, clamp.
  destruct (Number v) as [| | |q]; try reflexivity.
  cbn [isFinite negb]. rewrite max_Fin, min_Fin. f_equal.
  repeat case_decide; qc_order.
Qed.

Lemma normalize0to3To100_clamp v :
  normalize0to3To100 v
  = Fin (clamp (ratio 0 1) (ratio 3 1) (Number v) / ratio 3 1 * ratio 100 1).
Proof.
  unfold normalize0to3To100, int, lit.
  rewrite toClampedNumber_clamp by qc_order.
  reflexivity.
Qed.

Lemma normalize1to4To100_clamp v :
  normalize1to4To100 v
  = Fin ((clamp (ratio 1 1) (ratio 4 1) (Number v) - ratio 1 1)
         / ratio 3 1 * ratio 100 1).
Proof.
  unfold normalize1to4To100, int, lit.
  rewrite toClampedNumber_clamp by qc_order.
  reflexivity.
Qed.

End WithHost.

Section Claims.
Context `{Host}.

End Claims.


End NormalizationFacts.

(* ===================================================================== *)
(** * Enumerated objects *)
(* ===================================================================== *)

Module ObjFacts.
Import JS.

Section Obj.
Context {V : Type}.
Implicit Types (o : obj V) (k : string) (v : V).

Lemma obj_get_set_eq o k v : obj_get (obj_set o k v) k = Some v.
Proof.
  induction o as [|[k' v'] o IH]; cbn.
  - by rewrite decide_True.
  - case_decide; cbn.
    + by rewrite decide_True.
    + by rewrite decide_False.
Qed.

Lemma obj_get_set_ne o k k' v :
  k <> k' -> obj_get (obj_set o k v) k' = obj_get o k'.
Proof.
  intros Hne. induction o as [|[k0 v0] o IH]; cbn.
  - by rewrite decide_False.
  - case_decide; cbn.
    + subst. by rewrite !decide_False.
    + case_decide; done.
Qed.

Lemma obj_get_None o k : obj_get o k = None <-> k ∉ keys o.
Proof.
  unfold keys. induction o as [|[k' v'] o IH]; cbn.
  - split; [intros _; apply not_elem_of_nil | done].
  - rewrite not_elem_of_cons. case_decide; [subst|]; split; try done.
    + by intros [? _].
    + intros. split; [done | by apply IH].
    + intros [_ ?]. by apply IH.
Qed.

Lemma obj_get_Some_elem o k v : obj_get o k = Some v -> (k, v) ∈ o.
Proof.
  induction o as [|[k' v'] o IH]; cbn; [done|].
  case_decide; [subst|].
  - intros [= ->]. apply list_elem_of_here.
  - intros. apply list_elem_of_further. by apply IH.
Qed.

Lemma obj_get_elem o k v : wf_obj o -> (k, v) ∈ o -> obj_get o k = Some v.
Proof.
  unfold wf_obj, keys. induction o as [|[k' v'] o IH]; cbn.
  - by intros _ ?%elem_of_nil.
  - intros [Hk Hwf]%NoDup_cons [E|Hin]%elem_of_cons.
    + injection E as -> ->. by rewrite decide_True.
    + rewrite decide_False; [by apply IH|].
      intros ->. apply Hk. change k with ((k, v).1). by apply list_elem_of_fmap_2.
Qed.

(** Setting a property that the object does not have appends it. *)
Lemma obj_set_fresh o k v : k ∉ keys o -> obj_set o k v = o ++ [(k, v)].
Proof.
  unfold keys. induction o as [|[k' v'] o IH]; cbn; [done|].
  intros [? ?]%not_elem_of_cons. rewrite decide_False by done.
  by rewrite IH.
Qed.

Lemma keys_app o1 o2 : keys (o1 ++ o2) = keys o1 ++ keys o2.
Proof. unfold keys. apply fmap_app. Qed.

End Obj.

(** Filling an object from the entries of another, one property each. *)
Lemma foldl_obj_set {A V} (f : string -> A -> V) (l : obj A) (acc : obj V) :
  wf_obj l -> (forall k, k ∈ keys l -> k ∉ keys acc) ->
  foldl (fun out '(k, x) => obj_set out k (f k x)) acc l
  = acc ++ map (fun '(k, x) => (k, f k x)) l.
Proof.
  unfold wf_obj. revert acc. induction l as [|[k x] l IH]; intros acc Hwf Hfresh; cbn.
  - by rewrite app_nil_r.
  - change (keys ((k, x) :: l)) with (k :: keys l) in *.
    apply NoDup_cons in Hwf as [Hk Hwf].
    rewrite obj_set_fresh by (apply Hfresh; apply list_elem_of_here).
    rewrite IH, <- app_assoc; [done | done |].
    intros k' Hk'. rewrite keys_app. cbn. rewrite elem_of_app, list_elem_of_singleton.
    intros [?| ->]; [|done].
    by eapply Hfresh; [apply list_elem_of_further|].
Qed.

Lemma keys_map_entries {A V} (f : string -> A -> V) (l : obj A) :
  keys (map (fun '(k, x) => (k, f k x)) l) = keys l.
Proof. unfold keys. induction l as [|[k x] l IH]; cbn; [done | by f_equal]. Qed.

End ObjFacts.

(* ===================================================================== *)
(** * Strings *)
(* ===================================================================== *)

Module StringFacts.
Import JS.

Lemma list_ascii_of_string_app a b :
  list_ascii_of_string (a +:+ b)
  = list_ascii_of_string a ++ list_ascii_of_string b.
Proof.
  induction a as [|c a IH]; [done|].
  change (list_ascii_of_string (String c a +:+ b))
    with (c :: list_ascii_of_string (a +:+ b)).
  by rewrite IH.
Qed.

Lemma list_ascii_of_string_inj a b :
  list_ascii_of_string a = list_ascii_of_string b -> a = b.
Proof.
  intros E. rewrite <- (string_of_list_ascii_of_string a),
    <- (string_of_list_ascii_of_string b). by rewrite E.
Qed.

Lemma append_inv_tail a b s : a +:+ s = b +:+ s -> a = b.
Proof.
  intros E. apply list_ascii_of_string_inj.
  apply (app_inv_tail (list_ascii_of_string s)).
  by rewrite <- !list_ascii_of_string_app, E.
Qed.

End StringFacts.

(* ===================================================================== *)
(** * The risk classifier *)
(* ===================================================================== *)

Module RiskFacts.
Import JS Scoring Spec JSFacts ObjFacts StringFacts.

Lemma dimension_flag_inj d d' : dimension_flag d = dimension_flag d' -> d = d'.
Proof. apply append_inv_tail. Qed.

(** No dimension name turns the template into one of the two fixed flags. *)
Lemma dimension_flag_not_entropy d : dimension_flag d <> ENTROPY_FLAG.
Proof.
  unfold dimension_flag, ENTROPY_FLAG. intros E.
  repeat (destruct d as [|? d];
          [discriminate E | first [discriminate E | injection E as _ E]]).
Qed.

Lemma dimension_flag_not_drift d : dimension_flag d <> DRIFT_FLAG.
Proof.
  unfold dimension_flag, DRIFT_FLAG. intros E.
  repeat (destruct d as [|? d];
          [discriminate E | first [discriminate E | injection E as _ E]]).
Qed.

Lemma entropy_not_drift : ENTROPY_FLAG <> DRIFT_FLAG.
Proof. discriminate. Qed.

(** The loop over the gaps: the flags it pushes and the entries it writes. *)
Lemma classify_flags gaps byD fl :
  (foldl classify_dimension (byD, fl) gaps).2
  = fl ++ map dimension_flag (keys (filter breach gaps)).
Proof.
  revert byD fl. induction gaps as [|[d g] gaps IH]; intros byD fl.
  - cbn. by rewrite app_nil_r.
  - rewrite filter_cons.
    change (foldl classify_dimension (byD, fl) ((d, g) :: gaps))
      with (foldl classify_dimension
              (classify_dimension (byD, fl) (d, g)) gaps).
    unfold classify_dimension at 2.
    destruct (decide (breach (d, g))) as [Hb|Hb]; unfold breach in Hb; cbn in Hb.
    + rewrite Hb, IH. cbn. by rewrite <- app_assoc.
    + apply not_true_is_false in Hb. by rewrite Hb, IH.
Qed.

Lemma classify_entries gaps byD fl :
  (foldl classify_dimension (byD, fl) gaps).1
  = foldl (fun out '(d, g) =>
             obj_set out d {| gap := g; risk := lt g (int (-15)) |})
          byD gaps.
Proof.
  revert byD fl. induction gaps as [|[d g] gaps IH]; intros byD fl; cbn.
  - done.
  - destruct (lt g (int (-15))); by rewrite IH.
Qed.

Lemma classifyRisks_flags input :
  flags (classifyRisks input)
  = expected_flags (default [] (in_dimensionGaps input))
      (entropy_rule (or_field (in_context input ?> ctx_aiUsage) (int 0))
                    (or_field (in_context input ?> ctx_governanceAvg) (int 0)))
      (drift_rule (or_field (in_context input ?> ctx_teamSize) (int 0))
                  (or_field (in_context input ?> ctx_distributionAvg) (int 0))).
Proof.
  unfold classifyRisks, expected_flags, entropy_rule, drift_rule.
  pose proof (classify_flags (default [] (in_dimensionGaps input)) [] []) as Hf.
  destruct (foldl classify_dimension _ _) as [byD fl]. cbn in Hf. subst fl.
  cbn [flags].
  destruct (ge _ _ && lt _ _), (ge _ _ && lt _ _);
    rewrite <- ?app_assoc, ?app_nil_r; reflexivity.
Qed.

Lemma classifyRisks_byDimension input :
  wf_obj (default [] (in_dimensionGaps input)) ->
  byDimension (classifyRisks input)
  = map (fun '(d, g) => (d, {| gap := g; risk := lt g (int (-15)) |}))
        (default [] (in_dimensionGaps input)).
Proof.
  intros Hwf. unfold classifyRisks.
  pose proof (classify_entries (default [] (in_dimensionGaps input)) [] []) as He.
  destruct (foldl classify_dimension _ _) as [byD fl]. cbn in He. subst byD.
  cbn [byDimension].
  rewrite (foldl_obj_set (fun _ g => {| gap := g; risk := lt g (int (-15)) |}))
    by (done || intros; apply not_elem_of_nil).
  done.
Qed.

Lemma expected_flags_entropy gaps entropy drift :
  ENTROPY_FLAG ∈ expected_flags gaps entropy drift <-> entropy = true.
Proof.
  unfold expected_flags. rewrite !elem_of_app, list_elem_of_fmap. split.
  - intros [(d & E & _)|[Hin|Hin]].
    + by apply eq_sym, dimension_flag_not_entropy in E.
    + by destruct entropy; [|apply elem_of_nil in Hin].
    + destruct drift; [|by apply elem_of_nil in Hin].
      apply list_elem_of_singleton in Hin. by apply entropy_not_drift in Hin.
  - intros ->. right; left. apply list_elem_of_here.
Qed.

Lemma expected_flags_drift gaps entropy drift :
  DRIFT_FLAG ∈ expected_flags gaps entropy drift <-> drift = true.
Proof.
  unfold expected_flags. rewrite !elem_of_app, list_elem_of_fmap. split.
  - intros [(d & E & _)|[Hin|Hin]].
    + by apply eq_sym, dimension_flag_not_drift in E.
    + destruct entropy; [|by apply elem_of_nil in Hin].
      apply list_elem_of_singleton in Hin. by apply eq_sym, entropy_not_drift in Hin.
    + by destruct drift; [|apply elem_of_nil in Hin].
  - intros ->. right; right. apply list_elem_of_here.
Qed.

Lemma expected_flags_dimension gaps entropy drift d :
  dimension_flag d ∈ expected_flags gaps entropy drift
  <-> exists g, (d, g) ∈ gaps /\ lt g (int (-15)) = true.
Proof.
  unfold expected_flags. rewrite !elem_of_app, list_elem_of_fmap. split.
  - intros [(d' & E & Hin)|[Hin|Hin]].
    + apply dimension_flag_inj in E as <-.
      unfold keys in Hin. apply list_elem_of_fmap in Hin as ([d' g] & -> & Hin).
      apply list_elem_of_filter in Hin as [Hb Hin]. by exists g.
    + destruct entropy; [|by apply elem_of_nil in Hin].
      apply list_elem_of_singleton in Hin. by apply dimension_flag_not_entropy in Hin.
    + destruct drift; [|by apply elem_of_nil in Hin].
      apply list_elem_of_singleton in Hin. by apply dimension_flag_not_drift in Hin.
  - intros (g & Hin & Hlt). left. exists d. split; [done|].
    unfold keys. apply list_elem_of_fmap. exists (d, g). split; [done|].
    by apply list_elem_of_filter.
Qed.

Lemma ge_lt_false a b : ge a b = true -> lt a b = false.
Proof. unfold ge, lt. by destruct (compare a b) as [[]|]. Qed.

(** C1.  For every input of [classifyRisks] (gaps with distinct dimension
    names, any context): a dimension whose gap is below -15 gets the flag
    ["<dimension> risk (gap < -15)"] and the entry [{gap, risk: true}]; a
    dimension whose gap is at least -15 gets the entry [{gap, risk: false}]
    and no flag; the entropy flag is emitted exactly when [aiUsage >= 3] and
    [governanceAvg < 2], the drift flag exactly when [teamSize >= 3] and
    [distributionAvg < 2], where the four levels are the ones the function
    reads (a missing, zero or NaN field counts as 0; for fields that are
    present and not NaN these are the conditions on the fields themselves);
    no rule stops another: the flags are the breaches in enumeration order,
    then the entropy flag, then the drift flag; and [hasRisk] holds exactly
    when the list of flags is not empty. *)
Theorem classifyRisks_rules (input : RiskInput) :
  let gaps := default [] (in_dimensionGaps input) in
  let read := fun f => or_field (in_context input ?> f) (int 0) in
  let r := classifyRisks input in
  wf_obj gaps ->
  (forall d g, (d, g) ∈ gaps -> lt g (int (-15)) = true ->
     dimension_flag d ∈ flags r
     /\ obj_get (byDimension r) d = Some {| gap := g; risk := true |})
  /\ (forall d g, (d, g) ∈ gaps -> ge g (int (-15)) = true ->
        (dimension_flag d ∉ flags r)
        /\ obj_get (byDimension r) d = Some {| gap := g; risk := false |})
  /\ (ENTROPY_FLAG ∈ flags r <->
        ge (read ctx_aiUsage) (int 3) = true
        /\ lt (read ctx_governanceAvg) (int 2) = true)
  /\ (DRIFT_FLAG ∈ flags r <->
        ge (read ctx_teamSize) (int 3) = true
        /\ lt (read ctx_distributionAvg) (int 2) = true)
  /\ (forall c a g,
        in_context input = Some c -> ctx_aiUsage c = Some a ->
        ctx_governanceAvg c = Some g -> g <> NaN ->
        (ENTROPY_FLAG ∈ flags r <->
           ge a (int 3) = true /\ lt g (int 2) = true))
  /\ (forall c t g,
        in_context input = Some c -> ctx_teamSize c = Some t ->
        ctx_distributionAvg c = Some g -> g <> NaN ->
        (DRIFT_FLAG ∈ flags r <->
           ge t (int 3) = true /\ lt g (int 2) = true))
  /\ flags r
     = expected_flags gaps
         (entropy_rule (read ctx_aiUsage) (read ctx_governanceAvg))
         (drift_rule (read ctx_teamSize) (read ctx_distributionAvg))
  /\ keys (byDimension r) = keys gaps
  /\ (hasRisk r = true <-> flags r <> []).
Proof.
  intros gaps read r Hwf.
  assert (flags r
          = expected_flags gaps
              (entropy_rule (read ctx_aiUsage) (read ctx_governanceAvg))
              (drift_rule (read ctx_teamSize) (read ctx_distributionAvg)))
    as Hflags by apply classifyRisks_flags.
  assert (byDimension r
          = map (fun '(d, g) => (d, {| gap := g; risk := lt g (int (-15)) |}))
                gaps) as HbyD by (by apply classifyRisks_byDimension).
  assert (wf_obj (byDimension r)) as Hwf'.
  { unfold wf_obj. rewrite HbyD.
    by rewrite (keys_map_entries
                  (fun _ g => {| gap := g; risk := lt g (int (-15)) |})). }
  assert (forall d g, (d, g) ∈ gaps ->
            obj_get (byDimension r) d
            = Some {| gap := g; risk := lt g (int (-15)) |}) as Hentry.
  { intros d g Hin. apply obj_get_elem; [done|]. rewrite HbyD.
    apply list_elem_of_fmap. by exists (d, g). }
  assert (ENTROPY_FLAG ∈ flags r <->
            ge (read ctx_aiUsage) (int 3) = true
            /\ lt (read ctx_governanceAvg) (int 2) = true) as Hentropy.
  { rewrite Hflags, expected_flags_entropy. unfold entropy_rule.
    apply andb_true_iff. }
  assert (DRIFT_FLAG ∈ flags r <->
            ge (read ctx_teamSize) (int 3) = true
            /\ lt (read ctx_distributionAvg) (int 2) = true) as Hdrift.
  { rewrite Hflags, expected_flags_drift. unfold drift_rule.
    apply andb_true_iff. }
  assert (forall c f a, in_context input = Some c -> f c = Some a ->
            read f = or_num a (int 0)) as Hlevel.
  { intros c f a Hc Hf. unfold read. rewrite Hc. cbn [optchain].
    by rewrite Hf. }
  split.
  { intros d g Hin Hlt. split.
    - rewrite Hflags. apply expected_flags_dimension. eauto.
    - by rewrite (Hentry d g), Hlt. }
  split.
  { intros d g Hin Hge. apply ge_lt_false in Hge. split.
    - rewrite Hflags, expected_flags_dimension. intros (g' & Hin' & Hlt).
      assert (g' = g) as ->; [|congruence].
      apply (obj_get_elem _ _ _ Hwf) in Hin, Hin'. congruence.
    - by rewrite (Hentry d g), Hge. }
  split; [exact Hentropy|].
  split; [exact Hdrift|].
  split.
  { intros c a g Hc Ha Hg Hnan. rewrite Hentropy.
    rewrite (Hlevel c ctx_aiUsage a), (Hlevel c ctx_governanceAvg g) by done.
    by rewrite or_num_ge_3, or_num_lt_2. }
  split.
  { intros c t g Hc Ht Hg Hnan. rewrite Hdrift.
    rewrite (Hlevel c ctx_teamSize t), (Hlevel c ctx_distributionAvg g) by done.
    by rewrite or_num_ge_3, or_num_lt_2. }
  split; [exact Hflags|].
  split.
  { rewrite HbyD.
    by rewrite (keys_map_entries
                  (fun _ g => {| gap := g; risk := lt g (int (-15)) |})). }
  unfold r, classifyRisks. destruct (foldl classify_dimension _ _) as [byD fl].
  cbn [hasRisk flags]. rewrite bool_decide_eq_true.
  match goal with |- context [length ?l] => destruct l end;
    cbn; split; try done; lia.
Qed.

Lemma classifyRisks_rules_witness :
  wf_obj (default [] (in_dimensionGaps Examples.sample_risk_input))
  /\ dimension_flag "governance" ∈ flags (classifyRisks Examples.sample_risk_input)
  /\ obj_get (byDimension (classifyRisks Examples.sample_risk_input)) "governance"
     = Some {| gap := int (-20); risk := true |}.
Proof.
  assert (wf_obj (default [] (in_dimensionGaps Examples.sample_risk_input)))
    as Hwf by (unfold wf_obj; compute_done).
  split; [exact Hwf|].
  apply (proj1 (classifyRisks_rules Examples.sample_risk_input Hwf)
           "governance" (int (-20))).
  - vm_compute. apply list_elem_of_here.
  - vm_compute. reflexivity.
Defined.

End RiskFacts.

(* ===================================================================== *)
(** * Operational pressure *)
(* ===================================================================== *)

Module PressureFacts.
Import JS Scoring Spec JSFacts ObjFacts NormalizationFacts.

Local Open Scope Qc_scope.

(** Every factor with a weight has its list of aliases. *)
Lemma aliases_defined factor weight :
  (factor, weight) ∈ OPERATIONAL_WEIGHTS ->
  exists canonical legacy,
    obj_get CONTEXT_KEY_ALIASES factor = Some [canonical; legacy].
Proof.
  unfold OPERATIONAL_WEIGHTS. rewrite !elem_of_cons, elem_of_nil.
  intros [E|[E|[E|[E|[E|[]]]]]]; injection E as -> ->; eauto.
Qed.

Lemma weights_sum : sum_numbers (values OPERATIONAL_WEIGHTS) = int 1.
Proof. cbn. qc_eq. Qed.

Section WithHost.
Context `{Host}.

Lemma resolveContextValue_two ctx canonical legacy :
  resolveContextValue ctx [canonical; legacy]
  = match ctx !! canonical with
    | Some v => Number v
    | None =>
        match ctx !! legacy with
        | Some v => Number v
        | None => int 1
        end
    end.
Proof. reflexivity. Qed.

(** The loop over the five factors, written out. *)
Lemma computeOperationalPressure_unfold ctx :
  let e factor weight := pressure_entry ctx factor weight in
  let e1 := e "teamSize" (lit 25 100) in
  let e2 := e "productComplexity" (lit 25 100) in
  let e3 := e "aiUsage" (lit 2 10) in
  let e4 := e "releaseFrequency" (lit 15 100) in
  let e5 := e "toolingFragmentation" (lit 15 100) in
  computeOperationalPressure ctx
  = {| OPI :=
         add (add (add (add (add (int 0) (b_contribution e1))
                            (b_contribution e2))
                       (b_contribution e3))
                  (b_contribution e4))
             (b_contribution e5);
       breakdown :=
         [ ("teamSize", e1); ("productComplexity", e2); ("aiUsage", e3);
           ("releaseFrequency", e4); ("toolingFragmentation", e5) ] |}.
Proof. reflexivity. Qed.

Lemma pressure_entry_spec ctx factor w :
  let raw := resolveContextValue ctx (aliases_of factor) in
  let s := (clamp (ratio 1 1) (ratio 4 1) raw - ratio 1 1)
           / ratio 3 1 * ratio 100 1 in
  pressure_entry ctx factor (Fin w)
  = {| b_raw := raw; b_score100 := Fin s; b_weight := Fin w;
       b_contribution := Fin (s * w) |}.
Proof.
  cbn zeta. unfold pressure_entry. by rewrite normalize1to4To100_clamp.
Qed.


(** What a resolved raw value is: the numeric reading of a value of the map,
    or the default 1. *)
Lemma resolveContextValue_cases ctx aliases :
  resolveContextValue ctx aliases = int 1
  \/ exists k v, k ∈ aliases /\ ctx !! k = Some v
       /\ resolveContextValue ctx aliases = Number v.
Proof.
  induction aliases as [|k aliases IH]; cbn; [by left|].
  destruct (ctx !! k) as [v|] eqn:E.
  - right. exists k, v. split; [apply list_elem_of_here | done].
  - destruct IH as [IH|(k' & v & Hin & Hk & IH)]; [by left|].
    right. exists k', v. split; [by apply list_elem_of_further | done].
Qed.

Lemma factor_cases (P : string -> number -> Prop) :
  P "teamSize" (lit 25 100) -> P "productComplexity" (lit 25 100) ->
  P "aiUsage" (lit 2 10) -> P "releaseFrequency" (lit 15 100) ->
  P "toolingFragmentation" (lit 15 100) ->
  forall factor weight, (factor, weight) ∈ OPERATIONAL_WEIGHTS -> P factor weight.
Proof.
  intros ? ? ? ? ? factor weight. unfold OPERATIONAL_WEIGHTS.
  rewrite !elem_of_cons, elem_of_nil.
  intros [E|[E|[E|[E|[E|[]]]]]]; by injection E as -> ->.
Qed.

(** The score and the contribution of one factor, whatever the raw value. *)
Lemma pressure_entry_bounds ctx factor w :
  0 <= w ->
  let e := pressure_entry ctx factor (Fin w) in
  b_raw e = resolveContextValue ctx (aliases_of factor)
  /\ b_weight e = Fin w
  /\ b_contribution e = mul (b_score100 e) (Fin w)
  /\ between (ratio 0 1) (ratio 100 1) (b_score100 e)
  /\ between (ratio 0 1) (w * ratio 100 1) (b_contribution e)
  /\ (isFinite (b_raw e) = false -> b_score100 e = int 0).
Proof.
  intros Hw. cbn zeta. rewrite pressure_entry_spec. cbn zeta.
  cbn [b_raw b_weight b_contribution b_score100 mul].
  set (raw := resolveContextValue ctx (aliases_of factor)).
  pose proof (clamp_bounds (ratio 1 1) (ratio 4 1) raw) as [Hlo Hhi];
    [qc_order|].
  repeat split; try done.
  - eexists; split; [done|]. split; qc_order.
  - eexists; split; [done|].
    set (c := clamp _ _ _) in *. clearbody c.
    assert (0 <= (c - ratio 1 1) / ratio 3 1 * ratio 100 1) as Hs0 by qc_order.
    assert ((c - ratio 1 1) / ratio 3 1 * ratio 100 1 <= ratio 100 1) as Hs1
      by qc_order.
    set (s := (c - ratio 1 1) / ratio 3 1 * ratio 100 1) in *. clearbody s.
    split.
    + change (ratio 0 1) with 0. rewrite <- (Qcmult_0_l w).
      by apply Qcmult_le_compat_r.
    + rewrite (Qcmult_comm w). by apply Qcmult_le_compat_r.
  - intros Hnf. destruct raw; try discriminate; cbn [clamp]; qc_eq.
Qed.


Lemma weight_nonneg factor weight :
  (factor, weight) ∈ OPERATIONAL_WEIGHTS -> exists w, weight = Fin w /\ 0 <= w.
Proof.
  revert factor weight. apply factor_cases; eexists; (split; [done|]); qc_order.
Qed.

Lemma breakdown_lookup ctx factor weight :
  (factor, weight) ∈ OPERATIONAL_WEIGHTS ->
  obj_get (breakdown (computeOperationalPressure ctx)) factor
  = Some (pressure_entry ctx factor weight).
Proof. revert factor weight. apply factor_cases; reflexivity. Qed.

(** C10.  For every context map, whatever its values: each factor has a
    breakdown entry whose [raw] is the numeric reading of the value under
    the first alias that is present (the canonical key, else the legacy
    key), not clamped, and 1 only when both keys are absent; its [score100]
    lies in [[0, 100]] and its contribution in [[0, weight*100]]; a raw value
    that is not finite scores 0.  So [raw] itself can be NaN or lie outside
    [[1, 4]], as for the maps listed last. *)
Theorem pressure_scores_bounded_raw_unclamped (ctx : gmap string value) :
  let p := computeOperationalPressure ctx in
  (forall factor weight, (factor, weight) ∈ OPERATIONAL_WEIGHTS ->
     exists e w canonical legacy,
       obj_get (breakdown p) factor = Some e
       /\ weight = Fin w
       /\ obj_get CONTEXT_KEY_ALIASES factor = Some [canonical; legacy]
       /\ b_raw e
          = match ctx !! canonical with
            | Some v => Number v
            | None =>
                match ctx !! legacy with
                | Some v => Number v
                | None => int 1
                end
            end
       /\ b_weight e = weight
       /\ between (ratio 0 1) (ratio 100 1) (b_score100 e)
       /\ between (ratio 0 1) (w * ratio 100 1) (b_contribution e)
       /\ (isFinite (b_raw e) = false -> b_score100 e = int 0))
  /\ (let e := obj_get (breakdown (computeOperationalPressure
                                     {[ "teamSize" := VNum NaN ]})) "teamSize" in
      b_raw <$> e = Some NaN /\ b_score100 <$> e = Some (int 0))
  /\ (let e := obj_get (breakdown (computeOperationalPressure
                                     {[ "teamSize" := VUndefined ]})) "teamSize" in
      b_raw <$> e = Some NaN /\ b_score100 <$> e = Some (int 0))
  /\ (let e := obj_get (breakdown (computeOperationalPressure
                                     {[ "oc_team_size" := VNum (int 7) ]})) "teamSize" in
      b_raw <$> e = Some (int 7) /\ b_score100 <$> e = Some (int 100))
  /\ (let e := obj_get (breakdown (computeOperationalPressure
                                     {[ "teamSize" := VNum (int (-2)) ]})) "teamSize" in
      b_raw <$> e = Some (int (-2)) /\ b_score100 <$> e = Some (int 0))
  /\ (let e := obj_get (breakdown (computeOperationalPressure ∅)) "teamSize" in
      b_raw <$> e = Some (int 1) /\ b_score100 <$> e = Some (int 0)).
Proof.
  cbn zeta. split.
  { intros factor weight Hin.
    destruct (weight_nonneg _ _ Hin) as (w & -> & Hw).
    destruct (aliases_defined _ _ Hin) as (canonical & legacy & Hal).
    exists (pressure_entry ctx factor (Fin w)), w, canonical, legacy.
    rewrite (breakdown_lookup _ _ _ Hin).
    pose proof (pressure_entry_bounds ctx factor w Hw) as (Hraw & ? & ? & ? & ? & ?).
    repeat split; try done.
    rewrite Hraw. unfold aliases_of. rewrite Hal. reflexivity. }
  repeat split; compute_done.
Qed.


(** The index is the sum of the contributions, and lies in [[0, 100]]. *)
Lemma OPI_sum ctx :
  let p := computeOperationalPressure ctx in
  OPI p = sum_numbers (map b_contribution (values (breakdown p))).
Proof. reflexivity. Qed.

Lemma OPI_between ctx :
  between (ratio 0 1) (ratio 100 1) (OPI (computeOperationalPressure ctx)).
Proof.
  rewrite computeOperationalPressure_unfold. cbn zeta. cbn [OPI].
  unfold lit. rewrite !pressure_entry_spec. cbn zeta. cbn [b_contribution add].
  repeat match goal with
         | |- context [clamp ?lo ?hi ?n] =>
             let c := fresh "c" in
             let Hlo := fresh "Hlo" in
             let Hhi := fresh "Hhi" in
             pose proof (clamp_bounds lo hi n) as [Hlo Hhi]; [qc_order|];
             set (c := clamp lo hi n) in *; clearbody c
         end.
  eexists. split; [reflexivity|]. split; qc_order.
Qed.

(** A raw value of a map whose values all lie in [[1, 4]]. *)
Lemma resolveContextValue_valid ctx aliases :
  (forall k v, ctx !! k = Some v ->
     exists q, v = VNum (Fin q) /\ ratio 1 1 <= q /\ q <= ratio 4 1) ->
  between (ratio 1 1) (ratio 4 1) (resolveContextValue ctx aliases).
Proof.
  intros Hvalid.
  destruct (resolveContextValue_cases ctx aliases) as [->|(k & v & _ & Hk & ->)].
  - eexists. split; [reflexivity|]. split; qc_order.
  - destruct (Hvalid k v Hk) as (q & -> & ? & ?). by exists q.
Qed.

(** C2.  The five operational weights sum to exactly 1.  Consequently, for
    every context map whose values lie in [[1, 4]], the index returned by
    [computeOperationalPressure] lies in [[0, 100]]: it is the sum of the
    five contributions, each factor has an entry with its weight, a raw
    value in [[1, 4]], the score [(raw-1)/3*100] in [[0, 100]] and the
    contribution [score100 * weight]. *)
Theorem weights_sum_to_one_and_OPI_in_range (ctx : gmap string value) :
  (forall k v, ctx !! k = Some v ->
     exists q, v = VNum (Fin q) /\ ratio 1 1 <= q /\ q <= ratio 4 1) ->
  let p := computeOperationalPressure ctx in
  sum_numbers (values OPERATIONAL_WEIGHTS) = int 1
  /\ between (ratio 0 1) (ratio 100 1) (OPI p)
  /\ OPI p = sum_numbers (map b_contribution (values (breakdown p)))
  /\ keys (breakdown p) = keys OPERATIONAL_WEIGHTS
  /\ (forall factor weight, (factor, weight) ∈ OPERATIONAL_WEIGHTS ->
        exists e raw,
          obj_get (breakdown p) factor = Some e
          /\ b_raw e = Fin raw /\ ratio 1 1 <= raw /\ raw <= ratio 4 1
          /\ b_weight e = weight
          /\ b_score100 e = Fin ((raw - ratio 1 1) / ratio 3 1 * ratio 100 1)
          /\ between (ratio 0 1) (ratio 100 1) (b_score100 e)
          /\ b_contribution e = mul (b_score100 e) weight).
Proof.
  intros Hvalid p.
  split; [exact weights_sum|].
  split; [apply OPI_between|].
  split; [apply OPI_sum|].
  split; [reflexivity|].
  intros factor weight Hin.
  destruct (weight_nonneg _ _ Hin) as (w & -> & Hw).
  destruct (resolveContextValue_valid ctx (aliases_of factor) Hvalid)
    as (raw & Hraw & Hlo & Hhi).
  exists (pressure_entry ctx factor (Fin w)), raw.
  unfold p. rewrite (breakdown_lookup _ _ _ Hin).
  pose proof (pressure_entry_bounds ctx factor w Hw) as (Hr & ? & ? & ? & ? & ?).
  repeat split; try done.
  rewrite pressure_entry_spec. cbn zeta. cbn [b_score100].
  by rewrite Hraw, clamp_id.
Qed.

End WithHost.

Lemma pressure_scores_bounded_raw_unclamped_witness :
  ("aiUsage", lit 2 10) ∈ OPERATIONAL_WEIGHTS
  /\ exists e,
       obj_get (breakdown (@computeOperationalPressure Examples.sample_host
                             Examples.sample_context)) "aiUsage" = Some e
       /\ b_raw e = int 4
       /\ between (ratio 0 1) (ratio 100 1) (b_score100 e).
Proof.
  assert (("aiUsage", lit 2 10) ∈ OPERATIONAL_WEIGHTS) as Hin by compute_done.
  split; [exact Hin|].
  destruct (proj1 (@pressure_scores_bounded_raw_unclamped Examples.sample_host
                     Examples.sample_context) "aiUsage" (lit 2 10) Hin)
    as (e & w & canonical & legacy & He & _ & Hal & Hraw & _ & Hs & _).
  exists e. split; [exact He|]. split; [|exact Hs].
  injection Hal as <- <-. exact Hraw.
Defined.

Lemma weights_sum_to_one_and_OPI_in_range_witness :
  (forall k v, Examples.sample_context !! k = Some v ->
     exists q, v = VNum (Fin q) /\ ratio 1 1 <= q /\ q <= ratio 4 1)
  /\ between (ratio 0 1) (ratio 100 1)
       (OPI (@computeOperationalPressure Examples.sample_host
               Examples.sample_context)).
Proof.
  assert (forall k v, Examples.sample_context !! k = Some v ->
            exists q, v = VNum (Fin q) /\ ratio 1 1 <= q /\ q <= ratio 4 1)
    as Hvalid.
  { intros k v. unfold Examples.sample_context.
    rewrite !lookup_insert_Some, lookup_empty.
    intros [[_ <-]|[_ [[_ <-]|[_ [=]]]]];
      (eexists; split; [reflexivity|]; split; qc_order). }
  split; [exact Hvalid|].
  apply (@weights_sum_to_one_and_OPI_in_range Examples.sample_host
           Examples.sample_context Hvalid).
Defined.

End PressureFacts.

(* ===================================================================== *)
(** * Sorting by score *)
(* ===================================================================== *)

Module SortFacts.
Import JS Report Spec JSFacts.

Local Open Scope Qc_scope.

(** On scores that are not NaN, [b - a > 0] says [a < b]. *)
Lemma sub_pos_lt a b :
  a <> NaN -> b <> NaN -> gt (sub b a) (int 0) = lt a b.
Proof.
  intros Ha Hb. destruct a as [| | |x], b as [| | |y]; try done.
  apply eq_true_iff_eq. cbn [sub neg add]. unfold int, lit.
  rewrite gt_Fin, lt_Fin. split; intros; qc_order.
Qed.

Lemma compare_Eq_eq a b : compare a b = Some Eq -> a = b.
Proof.
  destruct a as [| | |x], b as [| | |y]; try done.
  rewrite compare_Fin. intros [= E]. f_equal. by apply Qceq_alt.
Qed.

Lemma sub_self_not_pos a : gt (sub a a) (int 0) = false.
Proof.
  destruct a as [| | |x]; try reflexivity.
  apply not_true_iff_false. cbn [sub neg add]. unfold int, lit.
  rewrite gt_Fin. intros ?. qc_order.
Qed.

Section Sorting.
Context {A : Type} (key : A -> number).

Local Abbreviation desc := (Spec.desc key).
Local Abbreviation no_NaN := (Spec.no_NaN key).
Local Abbreviation ge_key := (Spec.ge_key key).

Lemma sort_insert_Permutation x l : sort_insert desc x l ≡ₚ x :: l.
Proof.
  induction l as [|y l IH]; cbn; [done|].
  destruct (after desc x y); [|done].
  by rewrite IH, Permutation_swap.
Qed.

Lemma sort_Permutation l : sort desc l ≡ₚ l.
Proof.
  induction l as [|x l IH]; cbn; [done|].
  by rewrite sort_insert_Permutation, IH.
Qed.

Lemma no_NaN_sort l : no_NaN l -> no_NaN (sort desc l).
Proof. unfold no_NaN. by rewrite sort_Permutation. Qed.

Lemma sort_insert_sorted x l :
  key x <> NaN -> no_NaN l ->
  StronglySorted ge_key l -> StronglySorted ge_key (sort_insert desc x l).
Proof.
  intros Hx Hl Hs. induction Hs as [|y l Hs IH Hy]; cbn.
  - repeat constructor.
  - apply Forall_cons in Hl as [Hyn Hl].
    unfold after, desc. rewrite sub_pos_lt by done.
    destruct (lt (key x) (key y)) eqn:E.
    + constructor; [by apply IH|].
      rewrite sort_insert_Permutation. constructor; [|done].
      by apply lt_ge_flip.
    + assert (ge_key x y) as Hxy by (by apply lt_false_ge).
      constructor; [by constructor|].
      constructor; [done|].
      eapply Forall_impl; [exact Hy|]. intros z Hz. by eapply ge_trans.
Qed.

Lemma sort_sorted l : no_NaN l -> StronglySorted ge_key (sort desc l).
Proof.
  induction l as [|x l IH]; cbn; [constructor|].
  intros [Hx Hl]%Forall_cons.
  apply sort_insert_sorted; [done | by apply no_NaN_sort | by apply IH].
Qed.

Lemma sorted_lookup l i j a b :
  StronglySorted ge_key l -> (i < j)%nat ->
  l !! i = Some a -> l !! j = Some b -> ge_key a b.
Proof.
  intros Hs. revert i j. induction Hs as [|x l Hs IH Hx]; intros i j Hij Hi Hj.
  - done.
  - destruct j as [|j]; [lia|]. cbn in Hj.
    destruct i as [|i]; cbn in Hi.
    + injection Hi as ->. eapply Forall_forall; [exact Hx|].
      by eapply list_elem_of_lookup_2.
    + apply (IH i j); [lia | done | done].
Qed.

(** Stability: elements that the comparator does not separate keep their
    order. *)
Section Stable.
Context (P : A -> Prop) `{forall a, Decision (P a)}.
Hypothesis tie : forall x y, P x -> P y -> after desc x y = false.

Lemma sort_insert_stable x l :
  filter P (sort_insert desc x l) = filter P (x :: l).
Proof.
  induction l as [|y l IH]; cbn [sort_insert]; [done|].
  destruct (after desc x y) eqn:E; [|done].
  rewrite (filter_cons _ y), IH, !(filter_cons _ x), (filter_cons _ y).
  destruct (decide (P x)) as [Hx|Hx]; [|done].
  destruct (decide (P y)) as [Hy|Hy]; [|done].
  rewrite (tie x y) in E; done.
Qed.

Lemma sort_stable l : filter P (sort desc l) = filter P l.
Proof.
  induction l as [|x l IH]; cbn [sort]; [done|].
  by rewrite sort_insert_stable, !filter_cons, IH.
Qed.

End Stable.

End Sorting.

Lemma prefix_filter {A} (P : A -> Prop) `{forall x, Decision (P x)} (l1 l2 : list A) :
  l1 `prefix_of` l2 -> filter P l1 `prefix_of` filter P l2.
Proof. intros [k ->]. rewrite filter_app. by apply prefix_app_r. Qed.

Lemma prefix_map {A B} (f : A -> B) (l1 l2 : list A) :
  l1 `prefix_of` l2 -> map f l1 `prefix_of` map f l2.
Proof. intros [k ->]. rewrite map_app. by apply prefix_app_r. Qed.

End SortFacts.

(* ===================================================================== *)
(** * Strengths and weaknesses *)
(* ===================================================================== *)

Module RankingFacts.
Import JS Report Spec JSFacts SortFacts.

Lemma sortedDimensions_sort dimensionScores :
  sortedDimensions dimensionScores
  = sort (desc score100) (ranked_entries (default [] dimensionScores)).
Proof. reflexivity. Qed.

Lemma ranked_entries_no_NaN ds : no_NaN score100 (ranked_entries ds).
Proof.
  unfold no_NaN, ranked_entries. apply Forall_fmap, Forall_forall.
  intros [d value] _. cbn. by apply or_num_not_NaN.
Qed.

Lemma scored_tie v x y :
  scored v x -> scored v y -> after (desc score100) x y = false.
Proof.
  unfold scored. intros Hx%compare_Eq_eq Hy%compare_Eq_eq.
  unfold after, desc. rewrite Hx, Hy. apply sub_self_not_pos.
Qed.

Lemma filter_scored_titled v l :
  filter (scored v) (map titled l) = map titled (filter (scored v) l).
Proof.
  induction l as [|d l IH]; [done|].
  cbn [map]. rewrite !filter_cons.
  change (scored v (titled d)) with (scored v d).
  destruct (decide (scored v d)); cbn [map]; by rewrite IH.
Qed.

Lemma sortedDimensions_descending dimensionScores :
  descending (sortedDimensions dimensionScores).
Proof.
  intros i j a b Hij Hi Hj.
  eapply (sorted_lookup score100); [|exact Hij | exact Hi | exact Hj].
  apply sort_sorted, ranked_entries_no_NaN.
Qed.

Lemma sortedDimensions_stable v dimensionScores :
  filter (scored v) (sortedDimensions dimensionScores)
  = filter (scored v) (ranked_entries (default [] dimensionScores)).
Proof. rewrite sortedDimensions_sort. apply sort_stable, scored_tie. Qed.

(** C5, as the code has it.  [generateStrengths] returns the first two
    dimensions of the sequence sorted by [score100], highest first, and
    [generateWeaknesses] the first two of that same sequence reversed; with
    the scores A:90, B:50, C:10 this gives [[A, B]] and [[C, B]].  The sort
    keeps dimensions of equal score in enumeration order, so among the
    strengths equal scores appear in enumeration order, and among the
    weaknesses, which are read off the reversed sequence, in the reverse of
    the enumeration order. *)
Theorem strengths_top_two_weaknesses_reversed (reportModel : option ReportModel) :
  let entries := ranked_entries (default [] (reportModel ?> dimensionScores)) in
  let sorted := sortedDimensions (reportModel ?> dimensionScores) in
  sorted ≡ₚ entries
  /\ descending sorted
  /\ generateStrengths reportModel = map titled (take 2 sorted)
  /\ generateWeaknesses reportModel = map titled (take 2 (reverse sorted))
  /\ (forall v,
        filter (scored v) (generateStrengths reportModel)
        `prefix_of` map titled (filter (scored v) entries))
  /\ (forall v,
        filter (scored v) (generateWeaknesses reportModel)
        `prefix_of` map titled (reverse (filter (scored v) entries)))
  /\ generateStrengths (Some Examples.sample_three)
     = [Examples.ranked "A" 90; Examples.ranked "B" 50]
  /\ generateWeaknesses (Some Examples.sample_three)
     = [Examples.ranked "C" 10; Examples.ranked "B" 50].
Proof.
  intros entries sorted.
  split; [apply sort_Permutation|].
  split; [apply sortedDimensions_descending|].
  split; [reflexivity|].
  split; [reflexivity|].
  split.
  { intros v. unfold generateStrengths, slice0, entries.
    rewrite filter_scored_titled, <- (sortedDimensions_stable v).
    apply prefix_map, prefix_filter, prefix_take. }
  split.
  { intros v. unfold generateWeaknesses, slice0, entries.
    rewrite filter_scored_titled, <- (sortedDimensions_stable v),
      <- filter_reverse.
    apply prefix_map, prefix_filter, prefix_take. }
  split; compute_done.
Qed.

(** Two dimensions of equal score, [X] enumerated before [Y]: the strengths
    list them as [X, Y], the weaknesses as [Y, X]. *)
Lemma weaknesses_reverse_ties :
  keys (default [] (dimensionScores Examples.sample_tie)) = ["X"; "Y"]
  /\ map score100 (generateWeaknesses (Some Examples.sample_tie))
     = [int 50; int 50]
  /\ map dimension (generateStrengths (Some Examples.sample_tie)) = ["X"; "Y"]
  /\ map dimension (generateWeaknesses (Some Examples.sample_tie)) = ["Y"; "X"].
Proof. repeat split; compute_done. Qed.

End RankingFacts.

(* ===================================================================== *)
(** * Summary and guidance *)
(* ===================================================================== *)

Module NarrativeFacts.
Import JS Report Spec JSFacts.

Local Open Scope Qc_scope.

(** Comparisons of a number with literals, as facts over [Qc]. *)
Ltac band_cases AG :=
  destruct AG as [| | |q];
  [ try (cbn in *; done) .. | ];
  cbn [in_band] in *;
  unfold int, lit in *;
  rewrite ?ge_Fin, ?lt_Fin, ?ge_Fin_false, ?lt_Fin_false in *;
  try done.

Ltac band_solve AG := band_cases AG; try qc_order.






(** ** Guidance *)

Lemma includes_bool_decide arr x : includes arr x = bool_decide (x ∈ arr).
Proof. reflexivity. Qed.

(** A set built from elements that are already distinct keeps them all. *)
Lemma set_add_all_NoDup seen arr :
  NoDup (seen ++ arr) -> set_add_all seen arr = seen ++ arr.
Proof.
  revert seen. induction arr as [|x arr IH]; intros seen Hnd; cbn.
  - by rewrite app_nil_r.
  - rewrite includes_bool_decide, bool_decide_eq_false_2.
    + rewrite IH, <- app_assoc; [done|]. by rewrite <- app_assoc.
    + apply NoDup_app in Hnd as (_ & Hdisj & _).
      intros Hin. apply (Hdisj x Hin), list_elem_of_here.
Qed.

Lemma array_from_set_NoDup arr : NoDup arr -> array_from_set arr = arr.
Proof. intros. by apply (set_add_all_NoDup []). Qed.

Lemma ALL_TIPS_NoDup : NoDup (TIP_FALLBACK :: ALL_TIPS).
Proof. compute_done. Qed.

Lemma optional_sublist (c : bool) (l : list string) :
  (if c then l else []) `sublist_of` l.
Proof. destruct c; [done | apply sublist_nil_l]. Qed.

Lemma rule_tips_sublist riskFlags weakestKeys :
  rule_tips riskFlags weakestKeys `sublist_of` ALL_TIPS.
Proof.
  unfold rule_tips, KNOWN_DIMENSION_TIPS. cbn [flat_map].
  change ALL_TIPS
    with ([TIP_ENTROPY_1; TIP_ENTROPY_2] ++ [TIP_DRIFT_1; TIP_DRIFT_2]
          ++ [TIP_GOVERNANCE] ++ [TIP_DISTRIBUTION] ++ [TIP_DOCUMENTATION]
          ++ [TIP_COMPONENTS] ++ [TIP_FOUNDATIONS] ++ [TIP_ADOPTION] ++ []).
  repeat (apply sublist_app; [apply optional_sublist|]). done.
Qed.

Lemma push_if_app c new tips :
  push_if c new tips = tips ++ (if c then new else []).
Proof. destruct c; cbn; [done | by rewrite app_nil_r]. Qed.

(** The tips before the fallback rule and the set conversion. *)
Lemma pushed_tips riskFlags weakestKeys :
  push_if (includes weakestKeys "adoption") [TIP_ADOPTION]
    (push_if (includes weakestKeys "foundations") [TIP_FOUNDATIONS]
      (push_if (includes weakestKeys "components") [TIP_COMPONENTS]
        (push_if (includes weakestKeys "documentation") [TIP_DOCUMENTATION]
          (push_if (includes weakestKeys "distribution") [TIP_DISTRIBUTION]
            (push_if (includes weakestKeys "governance") [TIP_GOVERNANCE]
              (push_if (includes riskFlags "Drift risk (scale > release discipline)")
                 [TIP_DRIFT_1; TIP_DRIFT_2]
                 (push_if (includes riskFlags "Entropy risk (AI velocity > governance)")
                    [TIP_ENTROPY_1; TIP_ENTROPY_2] [])))))))
  = rule_tips riskFlags weakestKeys.
Proof.
  rewrite !push_if_app, !includes_bool_decide.
  unfold rule_tips, KNOWN_DIMENSION_TIPS. cbn [flat_map app].
  rewrite app_nil_r, <- !app_assoc. reflexivity.
Qed.

Lemma generateGuidance_expected reportModel :
  generateGuidance reportModel
  = expected_guidance (default [] (reportModel ?> risks ?> flags))
      (map (fun d => toLowerCase (dimension d)) (generateWeaknesses reportModel)).
Proof.
  unfold generateGuidance, expected_guidance. rewrite pushed_tips.
  set (tips := rule_tips _ _).
  assert (NoDup tips) as Hnd.
  { eapply sublist_NoDup; [|apply rule_tips_sublist].
    eapply NoDup_cons_1_2, ALL_TIPS_NoDup. }
  destruct tips as [|t tips]; [reflexivity|].
  cbn [length push_if bool_decide]. rewrite bool_decide_eq_false_2 by done.
  by apply array_from_set_NoDup.
Qed.





End NarrativeFacts.

(* ===================================================================== *)
(** * Dimension scores *)
(* ===================================================================== *)

Module DimensionFacts.
Import JS Scoring Spec JSFacts ObjFacts NormalizationFacts.

Local Open Scope Qc_scope.

Section Obj.
Context {V : Type}.
Implicit Types (o : obj V) (k : string) (v : V).

Lemma keys_obj_modify o k f : keys (obj_modify o k f) = keys o.
Proof.
  unfold keys. induction o as [|[k' v'] o IH]; cbn; [done|].
  case_decide; cbn; [done | by rewrite IH].
Qed.

Lemma obj_set_wf o k v : wf_obj o -> k ∉ keys o -> wf_obj (obj_set o k v).
Proof.
  unfold wf_obj. intros Hwf Hk. rewrite obj_set_fresh, keys_app by done.
  apply NoDup_app. split; [done|]. split; [|apply NoDup_singleton].
  intros k' Hk' ->%list_elem_of_singleton. done.
Qed.

Lemma keys_obj_set_fresh o k v : k ∉ keys o -> keys (obj_set o k v) = keys o ++ [k].
Proof. intros. by rewrite obj_set_fresh, keys_app. Qed.

Lemma Forall_obj_set (P : V -> Prop) o k v :
  Forall (fun e => P e.2) o -> P v -> Forall (fun e => P e.2) (obj_set o k v).
Proof.
  intros Ho Hv. induction Ho as [|[k' v'] o Hv' Ho IH]; cbn.
  - by repeat constructor.
  - case_decide; constructor; done.
Qed.

Lemma Forall_obj_modify (P : V -> Prop) o k f :
  (forall v, P v -> P (f v)) ->
  Forall (fun e => P e.2) o -> Forall (fun e => P e.2) (obj_modify o k f).
Proof.
  intros Hf Ho. induction Ho as [|[k' v'] o Hv' Ho IH]; cbn; [done|].
  case_decide; constructor; cbn; auto.
Qed.

End Obj.

Section WithHost.
Context `{Host}.

(** One turn of the loop keeps the keys distinct and adds the key of the
    question when it is new. *)
Lemma accumulate_keys responses accum q :
  keys (accumulate responses accum q)
  = if decide (toLowerCase (q_dimension q) ∈ keys accum) then keys accum
    else keys accum ++ [toLowerCase (q_dimension q)].
Proof.
  unfold accumulate.
  set (key := toLowerCase (q_dimension q)).
  assert (keys (match obj_get accum key with
                | Some _ => accum
                | None => obj_set accum key fresh_stats
                end)
          = if decide (key ∈ keys accum) then keys accum
            else keys accum ++ [key]) as Hk.
  { destruct (obj_get accum key) eqn:E.
    - rewrite decide_True; [done|].
      apply obj_get_Some_elem in E. change key with ((key, s).1).
      unfold keys. by apply list_elem_of_fmap_2.
    - apply obj_get_None in E. rewrite decide_False by done.
      by apply keys_obj_set_fresh. }
  destruct (responses !! q_id q); by rewrite !keys_obj_modify.
Qed.

Lemma accumulate_wf responses accum q :
  wf_obj accum -> wf_obj (accumulate responses accum q).
Proof.
  unfold wf_obj. rewrite accumulate_keys. case_decide; [done|].
  intros Hwf. apply NoDup_app. split; [done|]. split; [|apply NoDup_singleton].
  by intros k' Hk' ->%list_elem_of_singleton.
Qed.



(** A property of all the statistics that every update keeps. *)
Lemma accumulate_Forall (P : Stats -> Prop) responses accum q :
  P fresh_stats ->
  (forall s, P s ->
     P {| acc_sum := acc_sum s; acc_count := acc_count s;
          acc_total := add (acc_total s) (int 1) |}) ->
  (forall s r, responses !! q_id q = Some r -> P s ->
     P {| acc_sum := add (acc_sum s) (toClampedNumber r (int 0) (int 3));
          acc_count := acc_count s; acc_total := acc_total s |}) ->
  (forall s r, responses !! q_id q = Some r -> P s ->
     P {| acc_sum := acc_sum s; acc_count := add (acc_count s) (int 1);
          acc_total := acc_total s |}) ->
  Forall (fun e => P e.2) accum ->
  Forall (fun e => P e.2) (accumulate responses accum q).
Proof.
  intros Hinit Htotal Hsum Hcount Ha. unfold accumulate.
  set (key := toLowerCase (q_dimension q)).
  assert (Forall (fun e => P e.2)
            (match obj_get accum key with
             | Some _ => accum
             | None => obj_set accum key fresh_stats
             end)) as Ha'.
  { destruct (obj_get accum key); [done | by apply Forall_obj_set]. }
  destruct (responses !! q_id q) as [r|] eqn:E.
  - apply Forall_obj_modify; [by eauto|].
    apply Forall_obj_modify; [by eauto|].
    by apply Forall_obj_modify.
  - by apply Forall_obj_modify.
Qed.

Lemma foldl_accumulate_wf responses qs accum :
  wf_obj accum -> wf_obj (foldl (accumulate responses) accum qs).
Proof.
  revert accum. induction qs as [|q qs IH]; intros accum Hwf; cbn; [done|].
  by apply IH, accumulate_wf.
Qed.



Lemma accumulated_wf responses QUESTIONNAIRE :
  wf_obj (accumulated responses QUESTIONNAIRE).
Proof. apply foldl_accumulate_wf. apply NoDup_nil_2. Qed.

(** The result has one entry per accumulated dimension, in the same order. *)
Lemma computeDimensionScores_map responses QUESTIONNAIRE :
  computeDimensionScores responses QUESTIONNAIRE
  = map (fun '(dimension, stats) => (dimension, score_of_stats stats))
        (accumulated responses QUESTIONNAIRE).
Proof.
  unfold computeDimensionScores. fold (accumulated responses QUESTIONNAIRE).
  rewrite (foldl_obj_set (fun _ stats => score_of_stats stats));
    [done | apply accumulated_wf | intros; apply not_elem_of_nil].
Qed.

Lemma computeDimensionScores_keys responses QUESTIONNAIRE :
  keys (computeDimensionScores responses QUESTIONNAIRE)
  = keys (accumulated responses QUESTIONNAIRE).
Proof.
  rewrite computeDimensionScores_map.
  apply (keys_map_entries (fun _ stats => score_of_stats stats)).
Qed.

Lemma computeDimensionScores_wf responses QUESTIONNAIRE :
  wf_obj (computeDimensionScores responses QUESTIONNAIRE).
Proof.
  unfold wf_obj. rewrite computeDimensionScores_keys. apply accumulated_wf.
Qed.

(** ** Numbers of entries as divisors *)

Lemma of_nat_nonzero n : n <> 0%nat -> of_nat n <> int 0.
Proof.
  intros Hn [= E].
  assert (Z.of_nat n # 1 == 0)%Q as E'.
  { rewrite <- (Qred_correct (Z.of_nat n # 1)), E. apply Qred_correct. }
  unfold Qeq in E'. cbn in E'. lia.
Qed.

Lemma div_of_nat_finite t n :
  n <> 0%nat -> isFinite t = true -> isFinite (div t (of_nat n)) = true.
Proof.
  intros Hn Ht. destruct t as [| | |q]; try done.
  unfold of_nat, int, lit. cbn [div]. case_decide as E; [|done].
  exfalso. apply (of_nat_nonzero n Hn). unfold of_nat, int, lit. by rewrite E.
Qed.


(** ** Empty answers *)






(** The gaps are one per dimension, in the same order. *)
Lemma computeDimensionGaps_map ds opi :
  wf_obj ds ->
  computeDimensionGaps (Some ds) opi
  = map (fun '(d, s) => (d, sub (or_num (score100 s) (int 0)) (or_num opi (int 0))))
        ds.
Proof.
  intros Hwf. unfold computeDimensionGaps. cbn [default]. unfold id.
  rewrite (foldl_obj_set
             (fun _ s => sub (or_num (score100 s) (int 0)) (or_num opi (int 0))));
    [done | done | intros; apply not_elem_of_nil].
Qed.

End WithHost.
End DimensionFacts.

(* ===================================================================== *)
(** * The report model *)
(* ===================================================================== *)

Module ReportModelFacts.
Import JS Scoring Spec JSFacts ObjFacts NormalizationFacts RiskFacts
  PressureFacts DimensionFacts.

Local Open Scope Qc_scope.

Section WithHost.
Context `{Host}.

(** The levels that [computeReportModel] hands to the classifier, as the
    classifier reads them. *)
Lemma computeReportModel_flags input :
  let rm := computeReportModel input in
  let ctx := contextResponses input in
  let level aliases := or_num (resolveContextValue ctx aliases) (int 0) in
  let average name :=
    or_num (or_field (avg <$> obj_get (rm_dimensionScores rm) name) (int 0))
           (int 0) in
  flags (rm_risks rm)
  = expected_flags (rm_dimensionGaps rm)
      (entropy_rule (level (aliases_of "aiUsage")) (average "governance"))
      (drift_rule (level (aliases_of "teamSize")) (average "distribution")).
Proof.
  cbv zeta. unfold computeReportModel. cbn [rm_risks rm_dimensionGaps rm_dimensionScores].
  by rewrite classifyRisks_flags.
Qed.

Lemma computeReportModel_gaps input :
  let rm := computeReportModel input in
  rm_dimensionGaps rm
  = map (fun '(d, s) =>
           (d, sub (or_num (score100 s) (int 0))
                   (or_num (OPI (rm_operationalPressure rm)) (int 0))))
        (rm_dimensionScores rm).
Proof.
  cbv zeta. unfold computeReportModel.
  cbn [rm_dimensionGaps rm_dimensionScores rm_operationalPressure].
  apply computeDimensionGaps_map, computeDimensionScores_wf.
Qed.





End WithHost.


End ReportModelFacts.

(* ===================================================================== *)
(** * The entropy flag of a computed report *)
(* ===================================================================== *)

Module EntropyFacts.
Import JS Scoring Spec JSFacts ObjFacts RiskFacts ReportModelFacts.

Lemma or_num_idem a : or_num (or_num a (int 0)) (int 0) = or_num a (int 0).
Proof. unfold or_num. destruct (truthy a) eqn:E; [by rewrite E | done]. Qed.

Lemma drift_rule_or t d :
  d <> NaN ->
  drift_rule (or_num t (int 0)) (or_num d (int 0)) = drift_rule t d.
Proof. intros. unfold drift_rule. by rewrite or_num_ge_3, or_num_lt_2. Qed.

Lemma entropy_rule_or a g :
  g <> NaN ->
  entropy_rule (or_num a (int 0)) (or_num g (int 0)) = entropy_rule a g.
Proof. intros. unfold entropy_rule. by rewrite or_num_ge_3, or_num_lt_2. Qed.

Lemma filter_entropy_breaches (gaps : list (string * number)) :
  filter (fun f => f = ENTROPY_FLAG) (map dimension_flag (keys gaps)) = [].
Proof.
  induction gaps as [|[d g] gaps IH]; [done|].
  cbn [keys fmap list_fmap map fst]. rewrite filter_cons_False; [exact IH|].
  apply dimension_flag_not_entropy.
Qed.

Section WithHost.
Context `{Host}.

(** C6, as the code has it.  For every input whose AI usage resolves to 4
    and whose governance average is below 2, the flags of the computed
    report are the per-dimension breaches, then the entropy flag, then the
    drift flag if its rule fires: the entropy flag is present exactly once,
    and it is the only flag exactly when no dimension gap is below -15 and
    the drift rule does not fire. *)
Theorem entropy_flag_present_once (input : ReportInput) :
  let rm := computeReportModel input in
  let ctx := contextResponses input in
  let average name :=
    or_field (avg <$> obj_get (rm_dimensionScores rm) name) (int 0) in
  let drift :=
    drift_rule (resolveContextValue ctx (aliases_of "teamSize"))
               (average "distribution") in
  resolveContextValue ctx (aliases_of "aiUsage") = int 4 ->
  lt (average "governance") (int 2) = true ->
  flags (rm_risks rm)
  = map dimension_flag (keys (filter breach (rm_dimensionGaps rm)))
    ++ [ENTROPY_FLAG] ++ (if drift then [DRIFT_FLAG] else [])
  /\ ENTROPY_FLAG ∈ flags (rm_risks rm)
  /\ filter (fun f => f = ENTROPY_FLAG) (flags (rm_risks rm)) = [ENTROPY_FLAG]
  /\ (flags (rm_risks rm) = [ENTROPY_FLAG]
      <-> filter breach (rm_dimensionGaps rm) = [] /\ drift = false).
Proof.
  intros rm ctx average drift Hai Hgov.
  assert (flags (rm_risks rm)
          = map dimension_flag (keys (filter breach (rm_dimensionGaps rm)))
            ++ [ENTROPY_FLAG] ++ (if drift then [DRIFT_FLAG] else [])) as Hflags.
  { unfold rm. rewrite computeReportModel_flags. cbv zeta.
    fold rm ctx (average "governance") (average "distribution").
    rewrite entropy_rule_or, drift_rule_or
      by (by apply or_field_not_NaN).
    fold drift. unfold entropy_rule. rewrite Hai, Hgov. reflexivity. }
  split; [exact Hflags|].
  split.
  { rewrite Hflags, !elem_of_app. right; left. apply list_elem_of_here. }
  split.
  { rewrite Hflags, !filter_app, filter_entropy_breaches.
    rewrite filter_cons_True, filter_nil by done.
    destruct drift; [|done].
    rewrite filter_cons_False, filter_nil; [done|].
    intros E. by apply entropy_not_drift. }
  rewrite Hflags. split.
  - intros E.
    destruct (filter breach (rm_dimensionGaps rm)) as [|[d g] l].
    + by destruct drift.
    + exfalso. unfold keys in E. cbn [fmap list_fmap map app fst] in E.
      injection E as E _. by apply dimension_flag_not_entropy in E.
  - intros [-> ->]. reflexivity.
Qed.

End WithHost.

(** The input of the claim's own example: AI usage 4 and all governance
    answers 0.  The governance gap is -20, so the governance breach is
    flagged before the entropy flag. *)
Lemma entropy_flag_not_alone :
  let rm := @computeReportModel Examples.sample_host Examples.sample_entropy_input in
  @resolveContextValue Examples.sample_host
    (contextResponses Examples.sample_entropy_input) (aliases_of "aiUsage")
  = int 4
  /\ avg <$> obj_get (rm_dimensionScores rm) "governance" = Some (int 0)
  /\ obj_get (rm_dimensionGaps rm) "governance" = Some (int (-20))
  /\ flags (rm_risks rm) = ["governance risk (gap < -15)"; ENTROPY_FLAG].
Proof. repeat split; compute_done. Qed.

(** The flags of that input do not depend on the host. *)
Lemma entropy_flag_not_alone_any_host `{Host} :
  flags (rm_risks (computeReportModel Examples.sample_entropy_input))
  = ["governance risk (gap < -15)"; ENTROPY_FLAG].
Proof. compute_done. Qed.

(** With governance answers 1 the entropy flag is the only flag. *)
Lemma entropy_flag_alone_example `{Host} :
  flags (rm_risks (computeReportModel Examples.sample_entropy_only_input))
  = [ENTROPY_FLAG].
Proof. compute_done. Qed.

Lemma entropy_flag_present_once_witness :
  @resolveContextValue Examples.sample_host
    (contextResponses Examples.sample_entropy_input) (aliases_of "aiUsage")
  = int 4
  /\ ENTROPY_FLAG
     ∈ flags (rm_risks (@computeReportModel Examples.sample_host
                          Examples.sample_entropy_input)).
Proof.
  assert (@resolveContextValue Examples.sample_host
            (contextResponses Examples.sample_entropy_input)
            (aliases_of "aiUsage") = int 4) as Hai by compute_done.
  split; [exact Hai|].
  refine (proj1 (proj2 (@entropy_flag_present_once Examples.sample_host
                          Examples.sample_entropy_input Hai _))).
  compute_done.
Defined.

End EntropyFacts.

(* ===================================================================== *)
(** * The export payload *)
(* ===================================================================== *)

Module ExportFacts.
Import JS Scoring Spec JSFacts ObjFacts NormalizationFacts PressureFacts
  DimensionFacts.

Local Open Scope Qc_scope.

Lemma add_finite a b :
  isFinite a = true -> isFinite b = true -> isFinite (add a b) = true.
Proof. by destruct a, b. Qed.

Lemma sub_finite a b :
  isFinite a = true -> isFinite b = true -> isFinite (sub a b) = true.
Proof. by destruct a, b. Qed.

Lemma between_finite lo hi n : between lo hi n -> isFinite n = true.
Proof. by intros (q & -> & _). Qed.

Section WithHost.
Context `{Host}.

Lemma toClampedNumber_finite v lo hi :
  lo <= hi -> isFinite (toClampedNumber v (Fin lo) (Fin hi)) = true.
Proof. intros. by rewrite toClampedNumber_clamp. Qed.

Lemma normalize0to3To100_finite v : isFinite (normalize0to3To100 v) = true.
Proof. by rewrite normalize0to3To100_clamp. Qed.

Lemma accumulated_finite responses QUESTIONNAIRE :
  Forall (fun e => finite_stats e.2) (accumulated responses QUESTIONNAIRE).
Proof.
  unfold accumulated.
  assert (Forall (fun e : string * Stats => finite_stats e.2) []) as Hnil
    by constructor.
  revert Hnil. generalize (@nil (string * Stats)).
  induction (questions_of QUESTIONNAIRE) as [|q qs IH]; intros accum Ha; cbn.
  - done.
  - apply IH. apply accumulate_Forall; try done.
    + intros s (? & ? & ?). repeat split; try done. by apply add_finite.
    + intros s r _ (? & ? & ?). repeat split; try done.
      apply add_finite; [done|]. apply toClampedNumber_finite. qc_order.
    + intros s r _ (? & ? & ?). repeat split; try done. by apply add_finite.
Qed.

Lemma score_of_stats_finite stats :
  finite_stats stats ->
  isFinite (avg (score_of_stats stats)) = true
  /\ isFinite (score100 (score_of_stats stats)) = true.
Proof.
  intros (Hs & Hc & _). unfold score_of_stats. cbn [avg score100].
  split; [|apply normalize0to3To100_finite].
  destruct (gt (acc_count stats) (int 0)) eqn:E; [|done].
  destruct (acc_sum stats) as [| | |s], (acc_count stats) as [| | |c]; try done.
  cbn [div]. case_decide as Hz; [|done].
  subst c. by vm_compute in E.
Qed.

Lemma computeDimensionScores_finite responses QUESTIONNAIRE d s :
  (d, s) ∈ computeDimensionScores responses QUESTIONNAIRE ->
  isFinite (avg s) = true /\ isFinite (score100 s) = true.
Proof.
  rewrite computeDimensionScores_map.
  intros ([d' st] & E & Hin)%list_elem_of_fmap. injection E as -> ->.
  apply score_of_stats_finite.
  by eapply (proj1 (Forall_forall _ _)
               (accumulated_finite responses QUESTIONNAIRE) (d', st)).
Qed.

Lemma sum_scores_finite (l : list DimensionScore) acc :
  isFinite acc = true ->
  Forall (fun s => isFinite (score100 s) = true) l ->
  isFinite (foldl (fun sum d => add sum (or_num (score100 d) (int 0))) acc l)
  = true.
Proof.
  intros Hacc Hl. revert acc Hacc.
  induction Hl as [|s l Hs Hl IH]; intros acc Hacc; cbn [foldl]; [done|].
  apply IH, add_finite; [done|]. by apply or_num_finite.
Qed.

Lemma computeSSI_finite ds :
  (forall d s, (d, s) ∈ ds -> isFinite (score100 s) = true) ->
  isFinite (computeSSI (Some ds)) = true.
Proof.
  intros Hf. unfold computeSSI. cbn [default]. unfold id. cbv zeta.
  case_bool_decide as Hlen; [done|].
  apply div_of_nat_finite; [done|].
  apply sum_scores_finite; [done|].
  unfold values. apply Forall_fmap, Forall_forall. intros [d s] Hin.
  by eapply Hf.
Qed.

Lemma foldl_obj_set_Forall {A V} (P : V -> Prop) (f : string -> A -> V)
    (l : list (string * A)) (acc : obj V) :
  Forall (fun e => P e.2) acc ->
  Forall (fun e => P (f e.1 e.2)) l ->
  Forall (fun e => P e.2)
    (foldl (fun out '(k, x) => obj_set out k (f k x)) acc l).
Proof.
  intros Hacc Hl. revert acc Hacc.
  induction Hl as [|[k x] l Hx Hl IH]; intros acc Hacc; cbn [foldl]; [done|].
  apply IH. by apply Forall_obj_set.
Qed.

Lemma computeReportModel_adequacyGap_finite input :
  isFinite (rm_adequacyGap (computeReportModel input)) = true.
Proof.
  change (rm_adequacyGap (computeReportModel input))
    with (computeAdequacyGap
            (computeSSI (Some (computeDimensionScores (responses input)
                                 (QUESTIONNAIRE input))))
            (OPI (computeOperationalPressure (contextResponses input)))).
  unfold computeAdequacyGap. apply sub_finite; apply or_num_finite; try done.
  - apply computeSSI_finite. intros d s Hin.
    by eapply computeDimensionScores_finite.
  - eapply between_finite, OPI_between.
Qed.

(** C9, as the code has it.  For every wizard state, schema and guidance
    list, the numbers that the export payload derives from the computed
    report, that is SSI, OPI, the adequacy gap and each dimension's average
    and score, are finite.  The context answers are copied as they are. *)
Theorem export_derived_numbers_finite (state : App.State)
    (QUESTIONNAIRE : option Questionnaire) (now : string)
    (guidance : list string) :
  let rm := App.reportModel (App.getComputedReport state QUESTIONNAIRE) in
  let p := App.buildExportPayload state now rm guidance in
  isFinite (App.SSI p) = true
  /\ isFinite (App.OPI p) = true
  /\ isFinite (App.adequacyGap p) = true
  /\ (forall d s, (d, s) ∈ App.dimensionScores p ->
        isFinite (App.avg s) = true /\ isFinite (App.score100 s) = true)
  /\ App.p_contextResponses p = App.contextResponses state
  /\ App.p_contextResponses (App.exportedPayload state QUESTIONNAIRE now)
     = App.contextResponses state.
Proof.
  intros rm p.
  set (ds := computeDimensionScores (App.responses state) QUESTIONNAIRE).
  set (op := computeOperationalPressure (App.contextResponses state)).
  assert (forall d s, (d, s) ∈ ds ->
            isFinite (avg s) = true /\ isFinite (score100 s) = true) as Hds
    by apply computeDimensionScores_finite.
  assert (isFinite (computeSSI (Some ds)) = true) as Hssi.
  { apply computeSSI_finite. intros d s Hin. by apply (Hds d s). }
  assert (isFinite (OPI op) = true) as Hopi
    by (eapply between_finite, OPI_between).
  split.
  { change (App.SSI p) with (or_num (computeSSI (Some ds)) (int 0)).
    by apply or_num_finite. }
  split.
  { change (App.OPI p) with (or_num (OPI op) (int 0)). by apply or_num_finite. }
  split.
  { change (App.adequacyGap p)
      with (or_num (computeAdequacyGap (computeSSI (Some ds)) (OPI op)) (int 0)).
    apply or_num_finite; [|done]. unfold computeAdequacyGap.
    apply sub_finite; by apply or_num_finite. }
  split; [|done].
  intros d s Hin.
  assert (Forall (fun e : string * App.ExportScore =>
                    isFinite (App.avg e.2) = true
                    /\ isFinite (App.score100 e.2) = true)
            (App.dimensionScores p)) as Hall.
  { change (App.dimensionScores p)
      with (foldl (fun out '(dimension, score) =>
                     obj_set out dimension
                       {| App.avg := or_num (avg score) (int 0);
                          App.score100 := or_num (score100 score) (int 0) |})
                  [] ds).
    apply (foldl_obj_set_Forall
             (fun e => isFinite (App.avg e) = true
                       /\ isFinite (App.score100 e) = true)
             (fun _ score =>
                {| App.avg := or_num (avg score) (int 0);
                   App.score100 := or_num (score100 score) (int 0) |}));
      [constructor|].
    apply Forall_forall. intros [d' s'] Hin'. cbn.
    destruct (Hds d' s' Hin'). split; by apply or_num_finite. }
  by apply (proj1 (Forall_forall _ _) Hall (d, s)).
Qed.

End WithHost.

(** A context answer that is not finite reaches the payload unchanged. *)
Lemma export_copies_context_unchecked :
  let p :=
    @App.exportedPayload Examples.sample_host Examples.sample_overflow_state
      Examples.governance_schema Examples.sample_now in
  App.p_contextResponses p !! "oc_team_size" = Some (VNum PInf)
  /\ isFinite PInf = false
  /\ isFinite (App.OPI p) = true.
Proof. repeat split; compute_done. Qed.

(** Whatever the host, the stored infinity is in the payload. *)
Lemma export_copies_context_unchecked_any_host `{Host} :
  App.p_contextResponses
    (App.exportedPayload Examples.sample_overflow_state
       Examples.governance_schema Examples.sample_now) !! "oc_team_size"
  = Some (VNum PInf).
Proof. reflexivity. Qed.

Lemma export_derived_numbers_finite_witness :
  let p :=
    @App.exportedPayload Examples.sample_host Examples.sample_overflow_state
      Examples.governance_schema Examples.sample_now in
  let s := {| App.avg := int 0; App.score100 := int 0 |} in
  ("governance", s) ∈ App.dimensionScores p
  /\ isFinite (App.avg s) = true /\ isFinite (App.score100 s) = true.
Proof.
  intros p s.
  assert (("governance", s) ∈ App.dimensionScores p) as Hin by compute_done.
  split; [exact Hin|].
  apply (proj1 (proj2 (proj2 (proj2
           (@export_derived_numbers_finite Examples.sample_host
              Examples.sample_overflow_state Examples.governance_schema
              Examples.sample_now
              (App.guidance
                 (@App.getComputedReport Examples.sample_host
                    Examples.sample_overflow_state
                    Examples.governance_schema))))))
           "governance" s Hin).
Defined.

End ExportFacts.

(* ===================================================================== *)
(** * The summary *)
(* ===================================================================== *)

Module SummaryFacts.
Import JS Report Spec JSFacts NarrativeFacts ExportFacts.

Section WithHost.
Context `{Host}.


End WithHost.


End SummaryFacts.

(* ===================================================================== *)
(** * Dimension scores: keys, counters and ranges *)
(* ===================================================================== *)

Module DimensionScoreFacts.
Import JS Scoring Spec JSFacts NormalizationFacts ObjFacts DimensionFacts.
Local Open Scope Qc_scope.

Section Obj.
Context {V : Type}.
Implicit Types (o : obj V).

Lemma obj_get_modify o k k' f :
  obj_get (obj_modify o k f) k'
  = if decide (k = k') then f <$> obj_get o k else obj_get o k'.
Proof.
  induction o as [|[k0 v0] o IH]; cbn.
  - by case_decide.
  - destruct (decide (k0 = k)) as [->|Hne]; cbn.
    + repeat case_decide; simplify_eq; done.
    + rewrite IH. repeat case_decide; simplify_eq; done.
Qed.

Lemma obj_get_map_entries {W} (f : V -> W) o k :
  obj_get (map (fun '(k, x) => (k, f x)) o) k = f <$> obj_get o k.
Proof.
  induction o as [|[k0 v0] o IH]; cbn; [done|].
  case_decide; [done | apply IH].
Qed.

End Obj.

Lemma add_of_nat n m : add (of_nat n) (of_nat m) = of_nat (n + m).
Proof.
  unfold of_nat, int, lit. cbn [add]. f_equal.
  apply Qc_is_canon. unfold ratio. cbn.
  rewrite !Qred_correct. rewrite Nat2Z.inj_add.
  unfold Qeq, Qplus. cbn. lia.
Qed.

Lemma of_nat_S n : add (of_nat n) (int 1) = of_nat (S n).
Proof. change (int 1) with (of_nat 1). rewrite add_of_nat. f_equal. lia. Qed.

Section WithHost.
Context `{Host}.

(** What one turn of the loop does to the statistics of a dimension. *)
Lemma obj_get_accumulate responses accum q d :
  obj_get (accumulate responses accum q) d
  = if decide (dimension_of q = d) then
      let s := default fresh_stats (obj_get accum d) in
      Some
        match responses !! q_id q with
        | Some r =>
            {| acc_sum := add (acc_sum s) (toClampedNumber r (int 0) (int 3));
               acc_count := add (acc_count s) (int 1);
               acc_total := add (acc_total s) (int 1) |}
        | None =>
            {| acc_sum := acc_sum s; acc_count := acc_count s;
               acc_total := add (acc_total s) (int 1) |}
        end
    else obj_get accum d.
Proof.
  unfold accumulate, dimension_of.
  set (key := toLowerCase (q_dimension q)).
  set (accum' := match obj_get accum key with
                 | Some _ => accum
                 | None => obj_set accum key _
                 end).
  assert (obj_get accum' d
          = if decide (key = d) then Some (default fresh_stats (obj_get accum d))
            else obj_get accum d) as E.
  { unfold accum'. destruct (obj_get accum key) as [s|] eqn:Eg.
    - case_decide; [subst; by rewrite Eg | done].
    - case_decide.
      + subst. by rewrite obj_get_set_eq, Eg.
      + by rewrite obj_get_set_ne. }
  destruct (responses !! q_id q) as [r|]; rewrite !obj_get_modify;
    destruct (decide (key = d)) as [->|?]; try done;
    rewrite E, ?decide_True by done; reflexivity.
Qed.

Lemma stats_of_nil responses : stats_of responses [] = fresh_stats.
Proof. reflexivity. Qed.

Lemma sum_numbers_snoc l x : sum_numbers (l ++ [x]) = add (sum_numbers l) x.
Proof. unfold sum_numbers. by rewrite foldl_app. Qed.

Lemma stats_of_snoc responses asked q :
  stats_of responses (asked ++ [q])
  = let s := stats_of responses asked in
    match responses !! q_id q with
    | Some r =>
        {| acc_sum := add (acc_sum s) (toClampedNumber r (int 0) (int 3));
           acc_count := add (acc_count s) (int 1);
           acc_total := add (acc_total s) (int 1) |}
    | None =>
        {| acc_sum := acc_sum s; acc_count := acc_count s;
           acc_total := add (acc_total s) (int 1) |}
    end.
Proof.
  unfold stats_of, answers_to. cbn zeta. cbn [acc_sum acc_count acc_total].
  rewrite omap_app. cbn [omap list_omap].
  destruct (responses !! q_id q) as [r|].
  - rewrite map_app. cbn [map]. rewrite sum_numbers_snoc, !length_app.
    cbn [length]. by rewrite !Nat.add_1_r, <- !of_nat_S.
  - rewrite app_nil_r, length_app. cbn [length].
    by rewrite Nat.add_1_r, <- of_nat_S.
Qed.

(** The statistics of a dimension after the loop over the questions. *)
Lemma accumulated_lookup responses QUESTIONNAIRE d :
  obj_get (accumulated responses QUESTIONNAIRE) d
  = match questions_in d (questions_of QUESTIONNAIRE) with
    | [] => None
    | asked => Some (stats_of responses asked)
    end.
Proof.
  unfold accumulated.
  induction (questions_of QUESTIONNAIRE) as [|q qs IH] using rev_ind; [done|].
  rewrite foldl_app. cbn [foldl]. rewrite obj_get_accumulate, IH.
  unfold questions_in. rewrite filter_app, filter_cons, filter_nil.
  case_decide as Hd.
  - cbn zeta.
    assert (default fresh_stats
              (match filter (fun q0 => dimension_of q0 = d) qs with
               | [] => None
               | asked => Some (stats_of responses asked)
               end)
            = stats_of responses (filter (fun q0 => dimension_of q0 = d) qs)) as ->.
    { by destruct (filter _ qs). }
    rewrite <- stats_of_snoc.
    by destruct (filter _ qs).
  - by rewrite app_nil_r.
Qed.

End WithHost.

Lemma gt_of_nat_0 n : gt (of_nat n) (int 0) = negb (Nat.eqb n 0).
Proof.
  destruct n as [|n]; [reflexivity|].
  cbn [Nat.eqb negb]. apply gt_Fin. unfold of_nat, int, lit, ratio.
  unfold Qclt. cbn [this Q2Qc]. rewrite !Qred_correct.
  unfold Qlt. cbn [Qnum Qden]. lia.
Qed.

Section WithHost.
Context `{Host}.

Lemma score_of_stats_of responses asked :
  let given := answers_to responses asked in
  score_of_stats (stats_of responses asked)
  = {| avg := mean_answer given;
       score100 := normalize0to3To100 (VNum (mean_answer given));
       answered := of_nat (length given);
       total := of_nat (length asked) |}.
Proof.
  cbn zeta. unfold score_of_stats, stats_of. cbn [acc_sum acc_count acc_total].
  rewrite gt_of_nat_0. unfold mean_answer.
  by destruct (answers_to responses asked).
Qed.

Lemma computeDimensionScores_lookup_entry responses QUESTIONNAIRE d :
  obj_get (computeDimensionScores responses QUESTIONNAIRE) d
  = match questions_in d (questions_of QUESTIONNAIRE) with
    | [] => None
    | asked => Some (score_of_stats (stats_of responses asked))
    end.
Proof.
  rewrite computeDimensionScores_map.
  rewrite (obj_get_map_entries score_of_stats), accumulated_lookup.
  by destruct (questions_in _ _).
Qed.


End WithHost.

Lemma Qcdiv_le_upper q n b : 0 < n -> q <= b * n -> q / n <= b.
Proof.
  intros Hn Hq. apply (Qcmult_lt_0_le_reg_r _ _ n Hn).
  rewrite Qcmult_comm, Qcmult_div_r; [done|].
  intros ->. by apply Qclt_not_eq in Hn.
Qed.

Lemma Qcdiv_le_lower q n : 0 < n -> 0 <= q -> 0 <= q / n.
Proof.
  intros Hn Hq. apply (Qcmult_lt_0_le_reg_r _ _ n Hn).
  rewrite Qcmult_0_l, Qcmult_comm, Qcmult_div_r; [done|].
  intros ->. by apply Qclt_not_eq in Hn.
Qed.

Lemma of_nat_Fin n : exists q, of_nat n = Fin q /\ 0 <= q /\ (n <> 0%nat -> 0 < q).
Proof.
  eexists. split; [reflexivity|]. unfold ratio. split.
  - unfold Qcle. cbn [this Q2Qc]. rewrite !Qred_correct.
    unfold Qle. cbn [Qnum Qden]. lia.
  - intros Hn. unfold Qclt. cbn [this Q2Qc]. rewrite !Qred_correct.
    unfold Qlt. cbn [Qnum Qden]. lia.
Qed.

Section WithHost.
Context `{Host}.

(** The sum of [n] clamped answers lies between 0 and [3 n]. *)
Lemma sum_clamped_bounds (given : list value) :
  exists q n,
    sum_numbers (map (fun v => toClampedNumber v (int 0) (int 3)) given) = Fin q
    /\ of_nat (length given) = Fin n
    /\ 0 <= q /\ q <= ratio 3 1 * n.
Proof.
  induction given as [|v given IH] using rev_ind.
  - exists (ratio 0 1), (ratio 0 1). repeat split; qc_order.
  - destruct IH as (q & n & Hq & Hn & H0 & H3).
    rewrite map_app. cbn [map]. rewrite sum_numbers_snoc, length_app.
    cbn [length]. rewrite Nat.add_1_r, <- of_nat_S, Hq, Hn.
    rewrite (toClampedNumber_clamp v (ratio 0 1) (ratio 3 1)) by qc_order.
    pose proof (clamp_bounds (ratio 0 1) (ratio 3 1) (Number v)) as [Hlo Hhi];
      [qc_order|].
    exists (q + clamp (ratio 0 1) (ratio 3 1) (Number v)), (n + ratio 1 1).
    split; [reflexivity|]. split; [reflexivity|].
    set (c := clamp _ _ _) in *. clearbody c. split; qc_order.
Qed.

Lemma mean_answer_between given :
  between (ratio 0 1) (ratio 3 1) (mean_answer given).
Proof.
  unfold mean_answer. destruct given as [|v given].
  { exists (ratio 0 1). repeat split; qc_order. }
  destruct (sum_clamped_bounds (v :: given)) as (q & n & -> & Hn & H0 & H3).
  destruct (of_nat_Fin (length (v :: given))) as (n' & Hn' & _ & Hpos).
  rewrite Hn in Hn'. injection Hn' as <-.
  specialize (Hpos ltac:(done)). rewrite Hn. cbn [div].
  rewrite decide_False by (intros ->; by apply Qclt_not_eq in Hpos).
  eexists. split; [reflexivity|]. split.
  - apply (Qcle_trans _ 0); [qc_order|]. by apply Qcdiv_le_lower.
  - by apply Qcdiv_le_upper.
Qed.

End WithHost.

Lemma length_omap_le {A B} (f : A -> option B) (l : list A) :
  (length (omap f l) <= length l)%nat.
Proof.
  induction l as [|x l IH]; cbn; [done|]. destruct (f x); cbn; lia.
Qed.

Lemma or_num_zero a : a <> NaN -> or_num a (int 0) = a.
Proof.
  unfold or_num. destruct a as [| | |q]; try done. intros _. cbn.
  case_bool_decide as E; [|done]. subst. reflexivity.
Qed.



Section WithHost.
Context `{Host}.

Lemma foldl_accumulate_keys responses qs accum :
  keys (foldl (accumulate responses) accum qs)
  = set_add_all (keys accum) (map dimension_of qs).
Proof.
  revert accum. induction qs as [|q qs IH]; intros accum;
    cbn [foldl map set_add_all]; [done|].
  rewrite IH, accumulate_keys. unfold includes, dimension_of.
  case_decide; [by rewrite bool_decide_true | by rewrite bool_decide_false].
Qed.


Local Open Scope Qc_scope.

(** X3.  Every entry of the result of [computeDimensionScores] has an
    average in [[0, 3]] and a score in [[0, 100]] that is the average divided
    by 3 and multiplied by 100; its counters are natural numbers with
    [answered <= total] and [total >= 1]; with no answer the average and the
    score are 0.  This holds whatever the answers are: an answer outside
    [[0, 3]] or one that is not a number counts through its clamped value. *)
Theorem dimension_scores_in_range (responses : gmap string value)
    (QUESTIONNAIRE : option Questionnaire) (d : string) (s : DimensionScore) :
  (d, s) ∈ computeDimensionScores responses QUESTIONNAIRE ->
  between (ratio 0 1) (ratio 3 1) (avg s)
  /\ between (ratio 0 1) (ratio 100 1) (score100 s)
  /\ score100 s = mul (div (avg s) (int 3)) (int 100)
  /\ exists a t : nat,
       answered s = of_nat a /\ total s = of_nat t
       /\ (a <= t)%nat /\ (1 <= t)%nat
       /\ (a = 0%nat -> avg s = int 0 /\ score100 s = int 0).
Proof.
  intros Hin.
  apply obj_get_elem in Hin; [|apply computeDimensionScores_wf].
  rewrite computeDimensionScores_lookup_entry in Hin.
  destruct (questions_in d (questions_of QUESTIONNAIRE)) as [|q asked] eqn:Ea;
    [done|].
  injection Hin as <-. rewrite score_of_stats_of. cbn zeta.
  cbn [avg score100 answered total].
  set (given := answers_to responses (q :: asked)).
  destruct (mean_answer_between given) as (m & Hm & Hlo & Hhi).
  rewrite Hm.
  assert (normalize0to3To100 (VNum (Fin m))
          = Fin (m / ratio 3 1 * ratio 100 1)) as Hs.
  { rewrite normalize0to3To100_clamp. cbn [Number]. by rewrite clamp_id. }
  split; [by exists m|].
  split.
  { rewrite Hs. eexists. split; [reflexivity|]. split; qc_order. }
  split.
  { rewrite Hs. unfold int, lit. cbn [div].
    rewrite decide_False by (intros E; discriminate E). reflexivity. }
  exists (length given), (length (q :: asked)).
  split; [done|]. split; [done|].
  split; [apply length_omap_le|].
  split; [cbn; lia|].
  intros Hz. destruct given; [|done].
  cbn in Hm. injection Hm as <-. split; [done|].
  rewrite Hs. unfold int, lit. f_equal; qc_eq.
Qed.

End WithHost.

Lemma dimension_scores_in_range_witness :
  let s := {| avg := int 1; score100 := lit 100 3; answered := int 2;
              total := int 2 |} in
  ("governance", s)
    ∈ @computeDimensionScores Examples.sample_host
        (responses Examples.sample_entropy_only_input)
        Examples.governance_schema
  /\ between (ratio 0 1) (ratio 3 1) (avg s)
  /\ between (ratio 0 1) (ratio 100 1) (score100 s).
Proof.
  cbn zeta.
  assert (("governance",
           {| avg := int 1; score100 := lit 100 3; answered := int 2;
              total := int 2 |})
            ∈ @computeDimensionScores Examples.sample_host
                (responses Examples.sample_entropy_only_input)
                Examples.governance_schema) as Hin.
  { compute_done. }
  split; [exact Hin|].
  pose proof (@dimension_scores_in_range Examples.sample_host _ _ _ _ Hin)
    as (Ha & Hs & _).
  split; assumption.
Defined.

End DimensionScoreFacts.

(* ===================================================================== *)
(** * The report model: ranges and agreement of its parts *)
(* ===================================================================== *)

Module ReportInvariants.
Import JS Scoring Spec JSFacts NormalizationFacts ObjFacts RiskFacts
       PressureFacts DimensionFacts ReportModelFacts EntropyFacts
       DimensionScoreFacts.
Local Open Scope Qc_scope.

Lemma between_not_NaN lo hi n : between lo hi n -> n <> NaN.
Proof. by intros (q & -> & _). Qed.

Lemma sub_between lo hi a b :
  between lo hi a -> between lo hi b -> between (lo - hi) (hi - lo) (sub a b).
Proof.
  intros (x & -> & ? & ?) (y & -> & ? & ?). exists (x + - y).
  split; [reflexivity|]. split; qc_order.
Qed.

(** The sum of [n] scores in [[0, 100]] lies between 0 and [100 n]. *)
Lemma sum_scores_bounds (l : list DimensionScore) :
  Forall (fun s => between (ratio 0 1) (ratio 100 1) (score100 s)) l ->
  exists q n,
    foldl (fun sum d => add sum (or_num (score100 d) (int 0))) (int 0) l = Fin q
    /\ of_nat (length l) = Fin n
    /\ 0 <= q /\ q <= ratio 100 1 * n.
Proof.
  induction l as [|s l IH] using rev_ind; intros Hall.
  - exists (ratio 0 1), (ratio 0 1). repeat split; qc_order.
  - apply Forall_app in Hall as [Hl Hs]. apply Forall_inv in Hs.
    destruct (IH Hl) as (q & n & Hq & Hn & H0 & H100).
    destruct Hs as (x & Hx & ? & ?).
    rewrite foldl_app. cbn [foldl]. rewrite Hq, Hx.
    rewrite or_num_zero by done. rewrite length_app. cbn [length].
    rewrite Nat.add_1_r, <- of_nat_S, Hn.
    exists (q + x), (n + ratio 1 1).
    split; [reflexivity|]. split; [reflexivity|]. split; qc_order.
Qed.

Lemma computeSSI_between ds :
  (forall d s, (d, s) ∈ ds ->
     between (ratio 0 1) (ratio 100 1) (score100 s)) ->
  between (ratio 0 1) (ratio 100 1) (computeSSI (Some ds)).
Proof.
  intros Hds. unfold computeSSI. cbn [default]. unfold id. cbv zeta.
  case_bool_decide as Hlen.
  { exists (ratio 0 1). repeat split; qc_order. }
  assert (Forall (fun s => between (ratio 0 1) (ratio 100 1) (score100 s))
            (values ds)) as Hall.
  { unfold values. apply Forall_fmap, Forall_forall. intros [d s] Hin.
    by apply (Hds d s). }
  destruct (sum_scores_bounds _ Hall) as (q & n & -> & Hn & H0 & H100).
  destruct (of_nat_Fin (length (values ds))) as (n' & Hn' & _ & Hpos).
  rewrite Hn in Hn'. injection Hn' as <-.
  specialize (Hpos Hlen). rewrite Hn. cbn [div].
  rewrite decide_False by (intros ->; by apply Qclt_not_eq in Hpos).
  eexists. split; [reflexivity|]. split.
  - apply (Qcle_trans _ 0); [qc_order|]. by apply Qcdiv_le_lower.
  - by apply Qcdiv_le_upper.
Qed.

Section WithHost.
Context `{Host}.

Lemma computeDimensionScores_score_between responses QUESTIONNAIRE d s :
  (d, s) ∈ computeDimensionScores responses QUESTIONNAIRE ->
  between (ratio 0 1) (ratio 100 1) (score100 s).
Proof.
  intros Hin.
  apply obj_get_elem in Hin; [|apply computeDimensionScores_wf].
  rewrite computeDimensionScores_lookup_entry in Hin.
  destruct (questions_in d (questions_of QUESTIONNAIRE)) as [|q asked]; [done|].
  injection Hin as <-. rewrite score_of_stats_of. cbn zeta. cbn [score100].
  destruct (mean_answer_between (answers_to responses (q :: asked)))
    as (m & -> & Hlo & Hhi).
  rewrite normalize0to3To100_clamp. cbn [Number]. rewrite clamp_id by done.
  eexists. split; [reflexivity|]. split; qc_order.
Qed.

Lemma rm_SSI_between input :
  between (ratio 0 1) (ratio 100 1) (rm_SSI (computeReportModel input)).
Proof.
  apply computeSSI_between. intros d s.
  apply computeDimensionScores_score_between.
Qed.

Lemma rm_adequacyGap_sub input :
  let rm := computeReportModel input in
  rm_adequacyGap rm = sub (rm_SSI rm) (OPI (rm_operationalPressure rm)).
Proof.
  cbn zeta.
  change (rm_adequacyGap (computeReportModel input))
    with (computeAdequacyGap
            (rm_SSI (computeReportModel input))
            (OPI (rm_operationalPressure (computeReportModel input)))).
  unfold computeAdequacyGap.
  rewrite !or_num_zero; [done| |].
  - eapply between_not_NaN, OPI_between.
  - eapply between_not_NaN, rm_SSI_between.
Qed.

Lemma rm_dimensionGaps_sub input :
  let rm := computeReportModel input in
  rm_dimensionGaps rm
  = map (fun '(d, s) =>
           (d, sub (score100 s) (OPI (rm_operationalPressure rm))))
        (rm_dimensionScores rm).
Proof.
  cbn zeta. rewrite computeReportModel_gaps. cbn zeta.
  apply map_ext_in. intros [d s] Hin%list_elem_of_In. f_equal.
  rewrite !or_num_zero; [done| |].
  - eapply between_not_NaN, OPI_between.
  - eapply between_not_NaN, computeDimensionScores_score_between, Hin.
Qed.

Lemma rm_normalized100 input :
  normalized100 (rm_context (computeReportModel input))
  = map (fun '(factor, aliases) =>
           (factor,
            normalize1to4To100
              (VNum (resolveContextValue (contextResponses input) aliases))))
        CONTEXT_KEY_ALIASES.
Proof. reflexivity. Qed.

Lemma rm_raw input :
  raw (rm_context (computeReportModel input))
  = map (fun '(factor, aliases) =>
           (factor, resolveContextValue (contextResponses input) aliases))
        CONTEXT_KEY_ALIASES.
Proof. reflexivity. Qed.

(** X4.  Whatever the answers and the schema, the numbers of the report lie
    in their ranges: SSI and OPI in [[0, 100]], the adequacy gap and every
    dimension gap in [[-100, 100]], every normalized context level in
    [[0, 100]]. *)
Theorem report_numbers_in_range (input : ReportInput) :
  let rm := computeReportModel input in
  between (ratio 0 1) (ratio 100 1) (rm_SSI rm)
  /\ between (ratio 0 1) (ratio 100 1) (OPI (rm_operationalPressure rm))
  /\ between (ratio (-100) 1) (ratio 100 1) (rm_adequacyGap rm)
  /\ (forall d g, (d, g) ∈ rm_dimensionGaps rm ->
        between (ratio (-100) 1) (ratio 100 1) g)
  /\ (forall factor level, (factor, level) ∈ normalized100 (rm_context rm) ->
        between (ratio 0 1) (ratio 100 1) level).
Proof.
  intros rm.
  assert (between (ratio 0 1) (ratio 100 1) (rm_SSI rm)) as Hssi
    by apply rm_SSI_between.
  assert (between (ratio 0 1) (ratio 100 1) (OPI (rm_operationalPressure rm)))
    as Hopi by apply OPI_between.
  assert (forall a b,
            between (ratio 0 1) (ratio 100 1) a ->
            between (ratio 0 1) (ratio 100 1) b ->
            between (ratio (-100) 1) (ratio 100 1) (sub a b)) as Hsub.
  { intros a b Ha Hb.
    destruct (sub_between _ _ _ _ Ha Hb) as (x & -> & ? & ?).
    exists x. split; [done|]. split; qc_order. }
  split; [exact Hssi|]. split; [exact Hopi|].
  split.
  { unfold rm. rewrite rm_adequacyGap_sub. by apply Hsub. }
  split.
  { intros d g. unfold rm. rewrite rm_dimensionGaps_sub. cbn zeta.
    intros ([d' s] & [= -> ->] & Hin)%list_elem_of_fmap.
    apply Hsub; [|done].
    exact (computeDimensionScores_score_between _ _ _ _ Hin). }
  intros factor level Hin.
  assert (exists v, level = normalize1to4To100 v) as [v ->].
  { unfold rm in Hin. rewrite rm_normalized100 in Hin.
    apply list_elem_of_fmap in Hin as ([f aliases] & [= _ ->] & _).
    by eexists. }
  rewrite normalize1to4To100_clamp.
  pose proof (clamp_bounds (ratio 1 1) (ratio 4 1) (Number v)) as [? ?];
    [qc_order|].
  set (c := clamp _ _ _) in *. clearbody c.
  eexists. split; [reflexivity|]. split; qc_order.
Qed.

End WithHost.

Section WithHost.
Context `{Host}.

Lemma rm_dimensionGaps_wf input :
  wf_obj (rm_dimensionGaps (computeReportModel input)).
Proof.
  unfold wf_obj. rewrite rm_dimensionGaps_sub. cbn zeta.
  rewrite (keys_map_entries
             (fun _ s => sub (score100 s)
                           (OPI (rm_operationalPressure
                                   (computeReportModel input))))).
  apply computeDimensionScores_wf.
Qed.

Lemma rm_byDimension input :
  let rm := computeReportModel input in
  byDimension (rm_risks rm)
  = map (fun '(d, g) => (d, {| gap := g; risk := lt g (int (-15)) |}))
        (rm_dimensionGaps rm).
Proof.
  cbn zeta.
  pose proof (rm_dimensionGaps_wf input) as Hwf.
  unfold computeReportModel in *. cbn [rm_risks rm_dimensionGaps] in *.
  by rewrite classifyRisks_byDimension.
Qed.

(** X5.  In every computed report the adequacy gap is SSI minus OPI, and
    the gaps and the risk entries follow the dimension scores: they have the
    same dimensions in the same order; the gap of a dimension is its score
    minus OPI, its risk entry holds that gap and whether it is below -15,
    and the dimension has its risk flag exactly in that case. *)
Theorem gaps_and_risks_follow_scores (input : ReportInput) :
  let rm := computeReportModel input in
  let opi := OPI (rm_operationalPressure rm) in
  rm_adequacyGap rm = sub (rm_SSI rm) opi
  /\ keys (rm_dimensionGaps rm) = keys (rm_dimensionScores rm)
  /\ keys (byDimension (rm_risks rm)) = keys (rm_dimensionScores rm)
  /\ (forall d s, (d, s) ∈ rm_dimensionScores rm ->
        let g := sub (score100 s) opi in
        obj_get (rm_dimensionGaps rm) d = Some g
        /\ obj_get (byDimension (rm_risks rm)) d
           = Some {| gap := g; risk := lt g (int (-15)) |}
        /\ (dimension_flag d ∈ flags (rm_risks rm)
            <-> lt g (int (-15)) = true)).
Proof.
  intros rm opi.
  assert (keys (rm_dimensionGaps rm) = keys (rm_dimensionScores rm)) as Hk.
  { unfold rm. rewrite rm_dimensionGaps_sub. cbn zeta.
    apply (keys_map_entries (fun _ s => sub (score100 s) _)). }
  assert (keys (byDimension (rm_risks rm)) = keys (rm_dimensionGaps rm)) as Hk'.
  { unfold rm. rewrite rm_byDimension. cbn zeta.
    apply (keys_map_entries (fun _ g => {| gap := g; risk := _ |})). }
  split; [apply rm_adequacyGap_sub|].
  split; [exact Hk|].
  split; [by rewrite Hk'|].
  intros d s Hin g.
  assert (obj_get (rm_dimensionScores rm) d = Some s) as Hs
    by (apply obj_get_elem; [apply computeDimensionScores_wf | done]).
  assert (obj_get (rm_dimensionGaps rm) d = Some g) as Hg.
  { unfold rm. rewrite rm_dimensionGaps_sub. cbn zeta.
    rewrite (obj_get_map_entries (fun s => sub (score100 s) _)).
    fold rm. by rewrite Hs. }
  split; [exact Hg|].
  split.
  { unfold rm. rewrite rm_byDimension. cbn zeta.
    rewrite (obj_get_map_entries (fun g => {| gap := g; risk := _ |})).
    fold rm. by rewrite Hg. }
  unfold rm. rewrite computeReportModel_flags. cbv zeta.
  rewrite expected_flags_dimension. fold rm. split.
  - intros (g' & Hin' & Hlt).
    apply obj_get_elem in Hin'; [|apply rm_dimensionGaps_wf].
    fold rm in Hin'. by simplify_eq.
  - intros Hlt. exists g. split; [|done]. by apply obj_get_Some_elem.
Qed.

(** X6.  The context part of the report agrees with the pressure
    breakdown: both list the five factors in the order of the weight table,
    the raw level and the normalized level of a factor are the [raw] and the
    [score100] of its breakdown entry, and OPI is the sum over the factors of
    normalized level times weight. *)
Theorem context_agrees_with_breakdown (input : ReportInput) :
  let rm := computeReportModel input in
  let b := breakdown (rm_operationalPressure rm) in
  keys b = keys OPERATIONAL_WEIGHTS
  /\ raw (rm_context rm) = map (fun '(factor, e) => (factor, b_raw e)) b
  /\ normalized100 (rm_context rm)
     = map (fun '(factor, e) => (factor, b_score100 e)) b
  /\ OPI (rm_operationalPressure rm)
     = sum_numbers
         (map (fun '(factor, level) =>
                 mul level (default NaN (obj_get OPERATIONAL_WEIGHTS factor)))
              (normalized100 (rm_context rm))).
Proof. cbn zeta. repeat split; reflexivity. Qed.

Lemma or_field_avg_mean input name :
  or_field (avg <$> obj_get (rm_dimensionScores (computeReportModel input)) name)
           (int 0)
  = mean_answer
      (answers_to (responses input)
         (questions_in name (questions_of (QUESTIONNAIRE input)))).
Proof.
  change (rm_dimensionScores (computeReportModel input))
    with (computeDimensionScores (responses input) (QUESTIONNAIRE input)).
  rewrite computeDimensionScores_lookup_entry.
  destruct (questions_in name _) as [|q asked]; [reflexivity|].
  rewrite score_of_stats_of. cbn zeta. cbn [fmap option_fmap option_map avg or_field].
  apply or_num_zero. eapply between_not_NaN, mean_answer_between.
Qed.

(** X7.  The two context rules, read off the inputs of the report.  The
    entropy flag is raised exactly when the AI usage answer (under its
    canonical key, else its legacy key, else 1) is at least 3 and the mean
    of the clamped answers to the governance questions is below 2; the drift
    flag exactly when the team size answer is at least 3 and the mean for the
    distribution questions is below 2.  The mean is 0 when no such question
    is answered or the schema has none, so that in this case the answer to
    the context question alone decides. *)
Theorem context_rules_read_answers (input : ReportInput) :
  let rm := computeReportModel input in
  let level name :=
    resolveContextValue (contextResponses input) (aliases_of name) in
  let given name :=
    answers_to (responses input)
      (questions_in name (questions_of (QUESTIONNAIRE input))) in
  (ENTROPY_FLAG ∈ flags (rm_risks rm) <->
     ge (level "aiUsage") (int 3) = true
     /\ lt (mean_answer (given "governance")) (int 2) = true)
  /\ (DRIFT_FLAG ∈ flags (rm_risks rm) <->
        ge (level "teamSize") (int 3) = true
        /\ lt (mean_answer (given "distribution")) (int 2) = true)
  /\ (given "governance" = [] ->
        (ENTROPY_FLAG ∈ flags (rm_risks rm) <->
           ge (level "aiUsage") (int 3) = true))
  /\ (given "distribution" = [] ->
        (DRIFT_FLAG ∈ flags (rm_risks rm) <->
           ge (level "teamSize") (int 3) = true)).
Proof.
  intros rm level given.
  assert (ENTROPY_FLAG ∈ flags (rm_risks rm) <->
            ge (level "aiUsage") (int 3) = true
            /\ lt (mean_answer (given "governance")) (int 2) = true) as He.
  { unfold rm. rewrite computeReportModel_flags. cbv zeta.
    rewrite expected_flags_entropy, entropy_rule_or
      by (by apply or_field_not_NaN).
    rewrite or_field_avg_mean. unfold entropy_rule.
    by rewrite andb_true_iff. }
  assert (DRIFT_FLAG ∈ flags (rm_risks rm) <->
            ge (level "teamSize") (int 3) = true
            /\ lt (mean_answer (given "distribution")) (int 2) = true) as Hd.
  { unfold rm. rewrite computeReportModel_flags. cbv zeta.
    rewrite expected_flags_drift, drift_rule_or
      by (by apply or_field_not_NaN).
    rewrite or_field_avg_mean. unfold drift_rule.
    by rewrite andb_true_iff. }
  split; [exact He|]. split; [exact Hd|].
  split.
  - intros E. rewrite He, E. cbn [mean_answer]. split; [tauto|].
    intros ?. split; [done|]. reflexivity.
  - intros E. rewrite Hd, E. cbn [mean_answer]. split; [tauto|].
    intros ?. split; [done|]. reflexivity.
Qed.

End WithHost.

#[local] Instance dimension_flag_Inj : Inj (=) (=) dimension_flag.
Proof. intros d d'. apply dimension_flag_inj. Qed.

Lemma expected_flags_NoDup gaps entropy drift :
  wf_obj gaps -> NoDup (expected_flags gaps entropy drift).
Proof.
  intros Hwf. unfold expected_flags.
  apply NoDup_app. split; [|split].
  - apply (NoDup_fmap_2 dimension_flag).
    assert (keys (filter breach gaps) `sublist_of` keys gaps) as Hsub
      by (unfold keys; apply fmap_sublist, sublist_filter).
    by eapply sublist_NoDup.
  - intros f (d & -> & _)%list_elem_of_fmap [Hin|Hin]%elem_of_app.
    + destruct entropy; [|by apply elem_of_nil in Hin].
      apply list_elem_of_singleton in Hin.
      by apply dimension_flag_not_entropy in Hin.
    + destruct drift; [|by apply elem_of_nil in Hin].
      apply list_elem_of_singleton in Hin.
      by apply dimension_flag_not_drift in Hin.
  - destruct entropy, drift; cbn; try apply NoDup_nil_2;
      try apply NoDup_singleton.
    apply NoDup_cons. split; [|apply NoDup_singleton].
    intros Hin%list_elem_of_singleton. by apply entropy_not_drift in Hin.
Qed.

Lemma expected_flags_length gaps entropy drift :
  (length (expected_flags gaps entropy drift) <= length gaps + 2)%nat.
Proof.
  unfold expected_flags, keys. rewrite !length_app, length_map, length_fmap.
  apply Nat.add_le_mono; [apply length_filter|].
  destruct entropy, drift; cbn [length]; lia.
Qed.

Section WithHost.
Context `{Host}.

(** X8.  The risk flags of a computed report are pairwise distinct, and
    there are at most two more of them than there are dimensions: each is
    the flag of a dimension of the report, the entropy flag or the drift
    flag. *)
Theorem risk_flags_distinct (input : ReportInput) :
  let rm := computeReportModel input in
  NoDup (flags (rm_risks rm))
  /\ (length (flags (rm_risks rm)) <= length (rm_dimensionScores rm) + 2)%nat
  /\ (forall f, f ∈ flags (rm_risks rm) ->
        f = ENTROPY_FLAG \/ f = DRIFT_FLAG
        \/ exists d, d ∈ keys (rm_dimensionScores rm) /\ f = dimension_flag d).
Proof.
  intros rm.
  assert (length (rm_dimensionGaps rm) = length (rm_dimensionScores rm)) as Hlen.
  { unfold rm. rewrite rm_dimensionGaps_sub. cbn zeta. apply length_map. }
  assert (keys (rm_dimensionGaps rm) = keys (rm_dimensionScores rm)) as Hk.
  { unfold rm. rewrite rm_dimensionGaps_sub. cbn zeta.
    apply (keys_map_entries (fun _ s => sub (score100 s) _)). }
  unfold rm at 1 2 4. rewrite computeReportModel_flags. cbv zeta. fold rm.
  split; [apply expected_flags_NoDup, rm_dimensionGaps_wf|].
  split; [rewrite <- Hlen; apply expected_flags_length|].
  intros f. unfold expected_flags. rewrite !elem_of_app.
  intros [(d & -> & Hin)%list_elem_of_fmap|[Hin|Hin]].
  - right; right. exists d. split; [|done]. rewrite <- Hk.
    unfold keys in *. apply list_elem_of_fmap in Hin as (e & -> & Hin).
    apply list_elem_of_filter in Hin as [_ Hin].
    by apply list_elem_of_fmap_2.
  - left. destruct (entropy_rule _ _); [|by apply elem_of_nil in Hin].
    by apply list_elem_of_singleton in Hin.
  - right; left. destruct (drift_rule _ _); [|by apply elem_of_nil in Hin].
    by apply list_elem_of_singleton in Hin.
Qed.

End WithHost.
End ReportInvariants.

(* ===================================================================== *)
(** * Titles, strengths, weaknesses and guidance: further properties *)
(* ===================================================================== *)

Module NarrativeInvariants.
Import JS Report Spec JSFacts ObjFacts SortFacts RankingFacts NarrativeFacts
       DimensionFacts DimensionScoreFacts.





Lemma length_sortedDimensions ds :
  length (sortedDimensions ds) = length (default [] ds).
Proof.
  rewrite sortedDimensions_sort.
  rewrite (Permutation_length (sort_Permutation score100 _)).
  unfold ranked_entries. apply length_map.
Qed.

Lemma sortedDimensions_no_NaN ds : no_NaN score100 (sortedDimensions ds).
Proof.
  rewrite sortedDimensions_sort. apply no_NaN_sort, ranked_entries_no_NaN.
Qed.

(** X10.  Strengths and weaknesses have two entries each, or as many as the
    report has dimensions when these are fewer; a report that is missing or
    has no dimension scores yields none.  With at most two dimensions the
    weaknesses are the strengths in reverse order, so every dimension is
    listed as both; with exactly three, the dimension in the middle is the
    second strength and the second weakness. *)
Theorem strengths_and_weaknesses_overlap (reportModel : option ReportModel) :
  let n := length (default [] (reportModel ?> dimensionScores)) in
  length (generateStrengths reportModel) = Nat.min 2 n
  /\ length (generateWeaknesses reportModel) = Nat.min 2 n
  /\ generateStrengths None = [] /\ generateWeaknesses None = []
  /\ (n <= 2 ->
        generateWeaknesses reportModel = reverse (generateStrengths reportModel))
  /\ (n = 3 ->
        generateStrengths reportModel !! 1 = generateWeaknesses reportModel !! 1).
Proof.
  intros n. unfold generateStrengths, generateWeaknesses, slice0.
  set (sorted := sortedDimensions (reportModel ?> dimensionScores)).
  assert (length sorted = n) as Hlen by apply length_sortedDimensions.
  split; [by rewrite length_map, length_take, Hlen|].
  split; [by rewrite length_map, length_take, length_reverse, Hlen|].
  split; [reflexivity|]. split; [reflexivity|].
  split.
  - intros Hn. rewrite !take_ge by (rewrite ?length_reverse; lia).
    apply (fmap_reverse titled).
  - intros Hn.
    change (map titled ?l) with (titled <$> l).
    rewrite !list_lookup_fmap. f_equal.
    rewrite !lookup_take_lt by lia.
    rewrite reverse_lookup by lia. rewrite Hlen, Hn. reflexivity.
Qed.

(** X11.  In a report with at least three dimensions every strength scores
    at least as high as every weakness. *)
Theorem strengths_score_above_weaknesses (reportModel : option ReportModel)
    (s w : Ranked) :
  3 <= length (default [] (reportModel ?> dimensionScores)) ->
  s ∈ generateStrengths reportModel ->
  w ∈ generateWeaknesses reportModel ->
  ge (score100 s) (score100 w) = true.
Proof.
  unfold generateStrengths, generateWeaknesses, slice0.
  set (sorted := sortedDimensions (reportModel ?> dimensionScores)).
  intros Hn (a & -> & Ha)%list_elem_of_fmap (b & -> & Hb)%list_elem_of_fmap.
  rewrite <- (length_sortedDimensions (reportModel ?> dimensionScores)) in Hn.
  fold sorted in Hn. cbn [titled score100].
  apply list_elem_of_lookup in Ha as [i Hi].
  apply list_elem_of_lookup in Hb as [j Hj].
  apply lookup_take_Some in Hi as [Hi Hi2].
  apply lookup_take_Some in Hj as [Hj Hj2].
  apply reverse_lookup_Some in Hj as [Hj Hj3].
  destruct (decide (i = length sorted - S j)) as [E|Hne].
  - rewrite <- E in Hj. simplify_eq. apply ge_refl.
    pose proof (sortedDimensions_no_NaN (reportModel ?> dimensionScores)) as Hnn.
    unfold no_NaN in Hnn. rewrite Forall_forall in Hnn.
    apply Hnn. by eapply list_elem_of_lookup_2.
  - eapply (sortedDimensions_descending (reportModel ?> dimensionScores));
      [|exact Hi|exact Hj]. lia.
Qed.

Lemma strengths_score_above_weaknesses_witness :
  3 <= length (default [] (Some Examples.sample_three ?> dimensionScores))
  /\ Examples.ranked "A" 90 ∈ generateStrengths (Some Examples.sample_three)
  /\ Examples.ranked "C" 10 ∈ generateWeaknesses (Some Examples.sample_three)
  /\ ge (score100 (Examples.ranked "A" 90)) (score100 (Examples.ranked "C" 10))
     = true.
Proof.
  assert (3 <= length (default [] (Some Examples.sample_three ?> dimensionScores)))
    as H1 by (cbn; lia).
  assert (Examples.ranked "A" 90 ∈ generateStrengths (Some Examples.sample_three))
    as H2 by compute_done.
  assert (Examples.ranked "C" 10 ∈ generateWeaknesses (Some Examples.sample_three))
    as H3 by compute_done.
  split; [exact H1|]. split; [exact H2|]. split; [exact H3|].
  exact (strengths_score_above_weaknesses _ _ _ H1 H2 H3).
Defined.




Section WithHost.
Context `{Host}.


End WithHost.


Lemma length_known_tips (l : list (string * string)) (weakestKeys : list string) :
  NoDup l.*1 ->
  length (flat_map (fun '(name, tip) =>
                      if bool_decide (name ∈ weakestKeys) then [tip] else [])
                   l)
  <= length weakestKeys.
Proof.
  intros Hnd.
  assert (length (flat_map (fun '(name, tip) =>
                              if bool_decide (name ∈ weakestKeys) then [tip]
                              else []) l)
          = length (filter (fun name => name ∈ weakestKeys) l.*1)) as ->.
  { clear Hnd. induction l as [|[name tip] l IH]; [done|].
    cbn [flat_map fmap list_fmap fst]. rewrite filter_cons, length_app.
    case_bool_decide; [rewrite decide_True by done
                      | rewrite decide_False by done]; cbn [length]; lia. }
  apply submseteq_length, NoDup_submseteq.
  - by apply NoDup_filter.
  - by intros x [? _]%list_elem_of_filter.
Qed.

(** X13.  The guidance has at least one tip and at most six: at most the
    two entropy tips, the two drift tips and one tip for each of the two
    weakest dimensions. *)
Theorem guidance_has_one_to_six_tips (reportModel : option ReportModel) :
  1 <= length (generateGuidance reportModel) <= 6.
Proof.
  rewrite generateGuidance_expected.
  set (riskFlags := default [] _).
  set (weakestKeys := map _ _).
  assert (length weakestKeys <= 2) as Hw.
  { unfold weakestKeys, generateWeaknesses, slice0.
    rewrite !length_map, length_take. lia. }
  unfold expected_guidance.
  assert (length (rule_tips riskFlags weakestKeys) <= 6) as Hlen.
  { unfold rule_tips. rewrite !length_app.
    pose proof (length_known_tips KNOWN_DIMENSION_TIPS weakestKeys) as Hk.
    specialize (Hk ltac:(compute_done)).
    assert (forall (c : bool) (a b : string),
              length (if c then [a; b] else []) <= 2) as Hpair
      by (intros []; cbn; lia).
    pose proof (Hpair (bool_decide (Scoring.ENTROPY_FLAG ∈ riskFlags))
                  TIP_ENTROPY_1 TIP_ENTROPY_2).
    pose proof (Hpair (bool_decide (Scoring.DRIFT_FLAG ∈ riskFlags))
                  TIP_DRIFT_1 TIP_DRIFT_2).
    lia. }
  destruct (rule_tips riskFlags weakestKeys); cbn [length] in *; lia.
Qed.

End NarrativeInvariants.

(* ===================================================================== *)
(** * app.js: the status chip *)
(* ===================================================================== *)

Module StatusFacts.
Import JS Report App Spec JSFacts NarrativeFacts.
Local Open Scope Qc_scope.

Lemma lt_minus_ten gap :
  lt gap (int (-10)) = true ->
  ge gap (int 10) = false /\ ge gap (int 0) = false
  /\ ge gap (int (-10)) = false.
Proof. intros Hlt. repeat split; band_solve gap. Qed.

Lemma gt_ten gap : gt gap (int 10) = true -> ge gap (int 10) = true.
Proof. unfold gt. apply lt_ge_flip. Qed.

Lemma not_ge_minus_ten gap :
  gap <> NaN -> ge gap (int (-10)) = false -> lt gap (int (-10)) = true.
Proof. intros Hn Hge. band_solve gap. Qed.

Lemma ge_ten gap :
  ge gap (int 10) = true -> gt gap (int 10) = true \/ gap = int 10.
Proof.
  intros Hge. destruct gap as [| | |q]; try done; [by left|].
  unfold int, lit in *. apply ge_Fin in Hge.
  destruct (decide (q = ratio 10 1)) as [->|Hne]; [by right|].
  left. apply gt_Fin. apply Qclt_alt.
  destruct (ratio 10 1 ?= q) eqn:E; [|done|].
  - apply Qceq_alt in E. congruence.
  - apply Qcgt_alt in E. exfalso. qc_order.
Qed.

(** X14.  The status of the results page and the sentence of the summary
    read the same gap with different thresholds.  The status is Underbuilt
    below -10, Overbuilt above 10 and Balanced otherwise, and its class name
    is the label in lower case.  An Underbuilt gap is always called a
    notable gap and an Overbuilt gap always one that sits above the pressure;
    conversely a notable gap is Underbuilt unless the gap is NaN, which is
    Balanced, and a gap that sits above the pressure is Overbuilt unless it
    is exactly 10, which is Balanced. *)
Theorem status_and_summary_agree (gap : number) :
  let status := getAdequacyStatus gap in
  (label status = "Underbuilt" \/ label status = "Overbuilt"
   \/ label status = "Balanced")
  /\ className status = toLowerCase (label status)
  /\ (label status = "Underbuilt" <-> lt gap (int (-10)) = true)
  /\ (label status = "Overbuilt" <-> gt gap (int 10) = true)
  /\ (label status = "Underbuilt" -> relationship_of gap = NOTABLE_GAP)
  /\ (label status = "Overbuilt" -> relationship_of gap = ABOVE)
  /\ (gap <> NaN -> relationship_of gap = NOTABLE_GAP ->
        label status = "Underbuilt")
  /\ (relationship_of gap = ABOVE ->
        label status = "Overbuilt" \/ gap = int 10)
  /\ (label (getAdequacyStatus NaN) = "Balanced"
      /\ relationship_of NaN = NOTABLE_GAP)
  /\ (label (getAdequacyStatus (int 10)) = "Balanced"
      /\ relationship_of (int 10) = ABOVE).
Proof.
  intros status.
  assert (label status = "Underbuilt" <-> lt gap (int (-10)) = true) as Hu.
  { unfold status, getAdequacyStatus.
    destruct (lt gap (int (-10))); [done|].
    destruct (gt gap (int 10)); cbn; split; discriminate. }
  assert (label status = "Overbuilt" <-> gt gap (int 10) = true) as Ho.
  { unfold status, getAdequacyStatus.
    destruct (lt gap (int (-10))) eqn:E.
    - cbn. split; [discriminate|]. intros Hgt.
      apply gt_ten in Hgt. apply lt_minus_ten in E as (E & _). congruence.
    - destruct (gt gap (int 10)); cbn; split; done. }
  split.
  { unfold status, getAdequacyStatus.
    destruct (lt gap (int (-10))); [by left|].
    destruct (gt gap (int 10)); [right; by left | right; by right]. }
  split.
  { unfold status, getAdequacyStatus.
    destruct (lt gap (int (-10))); [done|]. by destruct (gt gap (int 10)). }
  split; [exact Hu|]. split; [exact Ho|].
  split.
  { intros (E10 & E0 & Em)%Hu%lt_minus_ten.
    unfold relationship_of. by rewrite E10, E0, Em. }
  split.
  { intros E%Ho%gt_ten. unfold relationship_of. by rewrite E. }
  split.
  { intros Hn Hr. apply Hu, not_ge_minus_ten; [done|].
    unfold relationship_of in Hr.
    destruct (ge gap (int 10)); [discriminate|].
    destruct (ge gap (int 0)); [discriminate|].
    destruct (ge gap (int (-10))); [discriminate|done]. }
  split.
  { intros Hr.
    assert (ge gap (int 10) = true) as Hge.
    { unfold relationship_of in Hr.
      destruct (ge gap (int 10)); [done|].
      destruct (ge gap (int 0)); [discriminate|].
      destruct (ge gap (int (-10))); discriminate. }
    apply ge_ten in Hge as [Hgt| ->]; [left; by apply Ho | by right]. }
  split; split; reflexivity.
Qed.

End StatusFacts.

(* ===================================================================== *)
(** * app.js: the wizard *)
(* ===================================================================== *)

Module WizardFacts.
Import JS App Spec JSFacts ObjFacts DimensionFacts DimensionScoreFacts.

Lemma filter_nil_Forall {A} (f : A -> bool) (l : list A) :
  List.filter f l = [] <-> Forall (fun x => f x = false) l.
Proof.
  induction l as [|x l IH]; cbn; [by split; constructor|].
  destruct (f x) eqn:E; split.
  - discriminate.
  - intros [? _]%Forall_cons. congruence.
  - intros ?%IH. by constructor.
  - intros [_ ?]%Forall_cons. by apply IH.
Qed.

Lemma length_filter_zero {A} (f : A -> bool) (l : list A) :
  Nat.eqb (length (List.filter f l)) 0 = true
  <-> Forall (fun x => f x = false) l.
Proof.
  rewrite <- filter_nil_Forall, Nat.eqb_eq. by destruct (List.filter f l).
Qed.

Lemma with_step_same st : with_step st (currentStep st) = st.
Proof. by destruct st. Qed.

Section WithHost.
Context `{Host}.

Lemma state_render w : state (render w) = state w.
Proof. reflexivity. Qed.

Lemma message_render w : validationMessage (page (render w)) = "".
Proof. reflexivity. Qed.

Lemma state_validateStep Q w : state (validateStep Q w).2 = state w.
Proof. unfold validateStep. by repeat case_match. Qed.

(** [validateStep] on the first two steps. *)
Lemma validateStep_context Q w :
  currentStep (state w) = int 1 ->
  let missing :=
    List.filter (fun id => is_undefined (contextResponses (state w) !! id))
                (contextQuestions Q) in
  validateStep Q w
  = if Nat.eqb (length missing) 0 then (true, clearValidation w)
    else (false,
          setValidation
            ("Please answer all context questions (" +:+
             NumberToString (of_nat (length missing)) +:+ " left).") w).
Proof.
  intros E. cbn zeta. unfold validateStep. rewrite E.
  rewrite (bool_decide_eq_true_2 (int 1 = int 1)) by done.
  rewrite (bool_decide_eq_false_2 (int 1 = int 2)) by discriminate.
  cbn [andb].
  match goal with |- context [negb ?b] => destruct b end; reflexivity.
Qed.

Lemma validateStep_maturity Q w :
  currentStep (state w) = int 2 ->
  let missing :=
    List.filter (fun q => is_undefined (responses (state w) !! Scoring.q_id q))
                (maturityQuestions Q) in
  validateStep Q w
  = if Nat.eqb (length missing) 0 then (true, clearValidation w)
    else (false,
          setValidation
            ("Please answer all structural maturity questions (" +:+
             NumberToString (of_nat (length missing)) +:+ " left).") w).
Proof.
  intros E. cbn zeta. unfold validateStep. rewrite E.
  rewrite (bool_decide_eq_false_2 (int 2 = int 1)) by discriminate.
  rewrite (bool_decide_eq_true_2 (int 2 = int 2)) by done.
  cbn [andb].
  match goal with |- context [negb ?b] => destruct b end; reflexivity.
Qed.

(** X15.  The Next button checks the answers of the current step.  On
    step 1 it leads to step 2 when every context question has an answer, and
    on step 2 to step 3 when every maturity question has one; otherwise the
    state stays as it is and the validation message tells how many
    questions are left.  An answer is any stored value other than
    [undefined].  On step 3 the button leads back to step 1 and keeps all
    answers.  The message is empty after every move. *)
Theorem goNext_checks_answers (Q : Questions) (w : Wizard) :
  let st := state w in
  let next := goNext Q w in
  let missingContext :=
    List.filter (fun id => is_undefined (contextResponses st !! id))
                (contextQuestions Q) in
  let missingMaturity :=
    List.filter (fun q => is_undefined (responses st !! Scoring.q_id q))
                (maturityQuestions Q) in
  (currentStep st = int 1 ->
     (Forall (has_answer (contextResponses st)) (contextQuestions Q) ->
        state next = with_step st (int 2)
        /\ validationMessage (page next) = "")
     /\ (~ Forall (has_answer (contextResponses st)) (contextQuestions Q) ->
           state next = st
           /\ 1 <= length missingContext
           /\ validationMessage (page next)
              = "Please answer all context questions (" +:+
                NumberToString (of_nat (length missingContext)) +:+ " left)."))
  /\ (currentStep st = int 2 ->
        (Forall (fun q => has_answer (responses st) (Scoring.q_id q))
                (maturityQuestions Q) ->
           state next = with_step st (int 3)
           /\ validationMessage (page next) = "")
        /\ (~ Forall (fun q => has_answer (responses st) (Scoring.q_id q))
                     (maturityQuestions Q) ->
              state next = st
              /\ 1 <= length missingMaturity
              /\ validationMessage (page next)
                 = "Please answer all structural maturity questions (" +:+
                   NumberToString (of_nat (length missingMaturity)) +:+
                   " left)."))
  /\ (currentStep st = int 3 ->
        state next = with_step st (int 1)
        /\ validationMessage (page next) = "").
Proof.
  intros st next missingContext missingMaturity.
  split; [|split].
  - intros E.
    assert (bool_decide (currentStep (state w) = int 3) = false) as E3
      by (apply bool_decide_eq_false_2; fold st; rewrite E; discriminate).
    unfold next, goNext. rewrite E3, (validateStep_context Q w E). cbn zeta.
    fold st missingContext. split.
    + intros Hall.
      assert (Nat.eqb (length missingContext) 0 = true) as ->
        by (by apply length_filter_zero).
      cbn [negb]. rewrite state_render, message_render.
      cbn [state clearValidation]. fold st. rewrite E.
      split; [|done]. f_equal; compute_done.
    + intros Hnot.
      destruct (Nat.eqb (length missingContext) 0) eqn:Ez.
      { exfalso. by apply Hnot, length_filter_zero. }
      cbn [negb]. split; [done|]. split; [|done].
      apply Nat.eqb_neq in Ez. lia.
  - intros E.
    assert (bool_decide (currentStep (state w) = int 3) = false) as E3
      by (apply bool_decide_eq_false_2; fold st; rewrite E; discriminate).
    unfold next, goNext. rewrite E3, (validateStep_maturity Q w E). cbn zeta.
    fold st missingMaturity. split.
    + intros Hall.
      assert (Nat.eqb (length missingMaturity) 0 = true) as ->
        by (by apply length_filter_zero).
      cbn [negb]. rewrite state_render, message_render.
      cbn [state clearValidation]. fold st. rewrite E.
      split; [|done]. f_equal; compute_done.
    + intros Hnot.
      destruct (Nat.eqb (length missingMaturity) 0) eqn:Ez.
      { exfalso. by apply Hnot, length_filter_zero. }
      cbn [negb]. split; [done|]. split; [|done].
      apply Nat.eqb_neq in Ez. lia.
  - intros E. unfold next, goNext. fold st. rewrite E.
    rewrite (bool_decide_eq_true_2 (int 3 = int 3)) by done.
    by rewrite state_render, message_render.
Qed.

End WithHost.

Section WithHost.
Context `{Host}.

Lemma goBack_steps w :
  (currentStep (state w) = int 1 -> goBack w = w)
  /\ (currentStep (state w) = int 2 ->
        state (goBack w) = with_step (state w) (int 1))
  /\ (currentStep (state w) = int 3 ->
        state (goBack w) = with_step (state w) (int 2)).
Proof.
  unfold goBack. repeat split; intros E; rewrite E.
  - reflexivity.
  - change (le (int 2) (int 1)) with false. cbn iota.
    rewrite state_render. cbn [state]. f_equal; compute_done.
  - change (le (int 3) (int 1)) with false. cbn iota.
    rewrite state_render. cbn [state]. f_equal; compute_done.
Qed.

Lemma goNext_steps Q w :
  on_a_step w ->
  state (goNext Q w) = state w
  \/ (currentStep (state w) = int 1
      /\ state (goNext Q w) = with_step (state w) (int 2))
  \/ (currentStep (state w) = int 2
      /\ state (goNext Q w) = with_step (state w) (int 3))
  \/ (currentStep (state w) = int 3
      /\ state (goNext Q w) = with_step (state w) (int 1)).
Proof.
  intros [E|[E|E]].
  - assert (bool_decide (currentStep (state w) = int 3) = false) as E3
      by (apply bool_decide_eq_false_2; rewrite E; discriminate).
    unfold goNext. rewrite E3, (validateStep_context Q w E). cbn zeta.
    destruct (Nat.eqb _ 0); cbn [negb]; [|by left].
    right; left. split; [done|]. rewrite state_render.
    cbn [state clearValidation]. rewrite E. f_equal; compute_done.
  - assert (bool_decide (currentStep (state w) = int 3) = false) as E3
      by (apply bool_decide_eq_false_2; rewrite E; discriminate).
    unfold goNext. rewrite E3, (validateStep_maturity Q w E). cbn zeta.
    destruct (Nat.eqb _ 0); cbn [negb]; [|by left].
    right; right; left. split; [done|]. rewrite state_render.
    cbn [state clearValidation]. rewrite E. f_equal; compute_done.
  - right; right; right. split; [done|]. unfold goNext. rewrite E.
    by rewrite (bool_decide_eq_true_2 (int 3 = int 3)).
Qed.

Lemma handleAnswerChange_step target w :
  currentStep (state (handleAnswerChange target w)) = currentStep (state w).
Proof.
  unfold handleAnswerChange. destruct target; try done.
  by repeat case_bool_decide.
Qed.

Lemma handleWizardClick_step url target w :
  currentStep (state (handleWizardClick url target w)) = currentStep (state w)
  \/ state (handleWizardClick url target w) = initial_state.
Proof.
  unfold handleWizardClick. destruct target; try (by left).
  repeat case_bool_decide; try (by left). by right.
Qed.

Lemma bindEvents_on_a_step Q url e w :
  on_a_step w -> on_a_step (bindEvents Q url e w).
Proof.
  intros Hw. destruct e as [target|target| | |key]; cbn [bindEvents].
  - unfold on_a_step. by rewrite handleAnswerChange_step.
  - unfold on_a_step.
    destruct (handleWizardClick_step url target w) as [-> | ->]; [done|].
    by left.
  - destruct (goBack_steps w) as (H1 & H2 & H3).
    destruct Hw as [E|[E|E]]; unfold on_a_step.
    + rewrite (H1 E). by left.
    + rewrite (H2 E). by left.
    + rewrite (H3 E). right; by left.
  - unfold on_a_step.
    destruct (goNext_steps Q w Hw) as [-> |[[_ ->]|[[_ ->]|[_ ->]]]]; cbn; auto.
  - done.
Qed.

(** X16.  A wizard that is on step 1, 2 or 3 stays on one of these steps
    through every sequence of events: answers, clicks on the buttons of the
    results page, Back and Next. *)
Theorem wizard_stays_on_its_steps (Q : Questions) (feedbackEmbedUrl : string)
    (events : list Event) (w : Wizard) :
  on_a_step w -> on_a_step (run Q feedbackEmbedUrl events w).
Proof.
  unfold run. revert w. induction events as [|e events IH]; intros w Hw; [done|].
  cbn [foldl]. by apply IH, bindEvents_on_a_step.
Qed.

(** X17.  Back and Next move between the steps and leave the answers
    alone.  Back does nothing on step 1 (or below) and otherwise goes one
    step down; when Next has moved the wizard up from step 1 or 2, Back
    returns it to the state it had. *)
Theorem navigation_keeps_answers (Q : Questions) (w : Wizard) :
  (contextResponses (state (goBack w)) = contextResponses (state w)
   /\ responses (state (goBack w)) = responses (state w))
  /\ (contextResponses (state (goNext Q w)) = contextResponses (state w)
      /\ responses (state (goNext Q w)) = responses (state w))
  /\ (le (currentStep (state w)) (int 1) = true -> goBack w = w)
  /\ (currentStep (state w) = int 2 ->
        currentStep (state (goBack w)) = int 1)
  /\ (currentStep (state w) = int 3 ->
        currentStep (state (goBack w)) = int 2)
  /\ (currentStep (state w) = int 1 \/ currentStep (state w) = int 2 ->
        state (goNext Q w) <> state w ->
        state (goBack (goNext Q w)) = state w).
Proof.
  destruct (goBack_steps w) as (H1 & H2 & H3).
  split.
  { unfold goBack. destruct (le _ _); [done|]. by rewrite state_render. }
  split.
  { unfold goNext. case_bool_decide; [by rewrite state_render|].
    pose proof (state_validateStep Q w) as Hv.
    destruct (validateStep Q w) as [valid w']. cbn [snd] in Hv.
    destruct valid; cbn [negb]; [|by rewrite Hv].
    rewrite state_render. cbn [state with_step contextResponses responses].
    by rewrite Hv. }
  split; [intros E; unfold goBack; by rewrite E|].
  split; [by intros ->%H2|].
  split; [by intros ->%H3|].
  intros Hstep Hmoved.
  assert (on_a_step w) as Hw by (destruct Hstep; [by left | right; by left]).
  destruct (goBack_steps (goNext Q w)) as (_ & G2 & G3).
  destruct (goNext_steps Q w Hw) as [E|[[E E']|[[E E']|[E E']]]]; [done| | |].
  - rewrite G2 by (by rewrite E'). rewrite E'. cbn [with_step].
    rewrite <- E. by destruct (state w).
  - rewrite G3 by (by rewrite E'). rewrite E'. cbn [with_step].
    rewrite <- E. by destruct (state w).
  - destruct Hstep as [E1|E2]; rewrite E in *; discriminate.
Qed.


End WithHost.

Lemma wizard_stays_on_its_steps_witness :
  on_a_step Examples.sample_wizard
  /\ on_a_step
       (@run Examples.sample_host Examples.sample_questions ""
          [ NextClick;
            ContentChange (InputElement (Some "context") (Some "oc_team_size") "3");
            BackClick ]
          Examples.sample_wizard).
Proof.
  assert (on_a_step Examples.sample_wizard) as Hw by (left; reflexivity).
  split; [exact Hw|].
  exact (@wizard_stays_on_its_steps Examples.sample_host _ _ _ _ Hw).
Defined.

Section WithHost.
Context `{Host}.


Lemma goNext_maturity_ok Q w :
  currentStep (state w) = int 2 ->
  Forall (fun q => has_answer (responses (state w)) (Scoring.q_id q))
         (maturityQuestions Q) ->
  state (goNext Q w) = with_step (state w) (int 3).
Proof.
  intros E Hall.
  assert (bool_decide (currentStep (state w) = int 3) = false) as E3
    by (apply bool_decide_eq_false_2; rewrite E; discriminate).
  unfold goNext. rewrite E3, (validateStep_maturity Q w E). cbn zeta.
  rewrite (proj2 (length_filter_zero _ _)) by done.
  cbn [negb]. rewrite state_render. cbn [state clearValidation].
  rewrite E. f_equal; compute_done.
Qed.





(** X20.  What the progress elements show after [render] fits what the
    buttons do.  On step 1, 2 or 3 the label reads "Step n/3"; the Back
    button is disabled exactly on step 1, which is where Back leaves the
    state as it is; the Next button reads Continue on step 1, View Results
    on step 2 and Start Over on step 3, and it is on step 3 that Next leads
    back to step 1. *)
Theorem progress_matches_navigation (Q : Questions) (w : Wizard) :
  on_a_step w ->
  let p := page (render w) in
  stepLabel p
  = "Step " +:+ NumberToString (currentStep (state w)) +:+ "/"
    +:+ NumberToString (int 3)
  /\ validationMessage p = ""
  /\ (backDisabled p = true <-> currentStep (state w) = int 1)
  /\ (backDisabled p = true <-> state (goBack w) = state w)
  /\ (nextText p = "Continue" <-> currentStep (state w) = int 1)
  /\ (nextText p = "View Results" <-> currentStep (state w) = int 2)
  /\ (nextText p = "Start Over" <-> currentStep (state w) = int 3)
  /\ (nextText p = "Start Over" ->
        state (goNext Q w) = with_step (state w) (int 1)).
Proof.
  intros Hw p.
  assert (nextText p = "Start Over" <-> currentStep (state w) = int 3) as H3.
  { unfold p. cbn. destruct Hw as [E|[E|E]]; rewrite E; by cbn. }
  split; [reflexivity|]. split; [reflexivity|].
  split; [unfold p; cbn; apply bool_decide_eq_true|].
  split.
  { unfold p. cbn [page render clearValidation updateProgress backDisabled].
    rewrite bool_decide_eq_true.
    destruct (goBack_steps w) as (G1 & G2 & G3).
    destruct Hw as [E|[E|E]].
    - split; [intros _; by rewrite G1 | done].
    - split; [intros E'; rewrite E in E'; discriminate|].
      rewrite (G2 E). intros E'. apply (f_equal currentStep) in E'.
      by cbn in E'.
    - split; [intros E'; rewrite E in E'; discriminate|].
      rewrite (G3 E). intros E'. apply (f_equal currentStep) in E'.
      cbn in E'. rewrite E in E'. discriminate. }
  split; [unfold p; cbn; destruct Hw as [E|[E|E]]; rewrite E; by cbn|].
  split; [unfold p; cbn; destruct Hw as [E|[E|E]]; rewrite E; by cbn|].
  split; [exact H3|].
  intros E%H3. unfold goNext. rewrite E.
  by rewrite (bool_decide_eq_true_2 (int 3 = int 3)).
Qed.

End WithHost.

Lemma progress_matches_navigation_witness :
  on_a_step Examples.sample_wizard
  /\ backDisabled
       (page (@render Examples.sample_host Examples.sample_wizard)) = true
  /\ nextText (page (@render Examples.sample_host Examples.sample_wizard))
     = "Continue".
Proof.
  assert (on_a_step Examples.sample_wizard) as Hw by (left; reflexivity).
  split; [exact Hw|].
  pose proof (@progress_matches_navigation Examples.sample_host
                Examples.sample_questions _ Hw)
    as (_ & _ & Hb & _ & Hc & _).
  split; [by apply Hb | by apply Hc].
Defined.

Section WithHost.
Context `{Host}.

Lemma length_answers_to (responses : gmap string value) qs :
  Forall (fun q => has_answer responses (Scoring.q_id q)) qs ->
  length (answers_to responses qs) = length qs.
Proof.
  unfold answers_to, has_answer. induction 1 as [|q qs Hq _ IH]; [done|].
  cbn [omap list_omap]. destruct (responses !! Scoring.q_id q); [|done].
  cbn [length]. by f_equal.
Qed.

(** X21.  When Next leads from step 2 to the results, the report that is
    then computed from the answers has no partly answered dimension: in
    every entry of its dimension scores [answered] equals [total]. *)
Theorem results_follow_complete_answers (Q : Questions) (w : Wizard)
    (d : string) (s : Scoring.DimensionScore) :
  currentStep (state w) = int 2 ->
  currentStep (state (goNext Q w)) = int 3 ->
  (d, s) ∈ Scoring.computeDimensionScores (responses (state (goNext Q w)))
             (scoring_schema Q) ->
  Scoring.answered s = Scoring.total s.
Proof.
  intros E Hmoved Hin.
  assert (Forall (fun q => has_answer (responses (state w)) (Scoring.q_id q))
                 (maturityQuestions Q)) as Hall.
  { assert (bool_decide (currentStep (state w) = int 3) = false) as E3
      by (apply bool_decide_eq_false_2; rewrite E; discriminate).
    unfold goNext in Hmoved.
    rewrite E3, (validateStep_maturity Q w E) in Hmoved. cbn zeta in Hmoved.
    destruct (Nat.eqb _ 0) eqn:Ez; [by apply length_filter_zero in Ez|].
    cbn in Hmoved. rewrite E in Hmoved. discriminate. }
  rewrite (goNext_maturity_ok Q w E Hall) in Hin. cbn [with_step responses] in Hin.
  apply obj_get_elem in Hin; [|apply computeDimensionScores_wf].
  rewrite computeDimensionScores_lookup_entry in Hin.
  change (Scoring.questions_of (scoring_schema Q)) with (maturityQuestions Q)
    in Hin.
  destruct (questions_in d (maturityQuestions Q)) as [|q asked] eqn:Ea; [done|].
  injection Hin as <-. rewrite score_of_stats_of. cbn zeta.
  cbn [Scoring.answered Scoring.total]. f_equal.
  apply length_answers_to. rewrite <- Ea. unfold questions_in.
  rewrite Forall_forall in Hall. apply Forall_forall.
  intros q' [_ Hq']%list_elem_of_filter. by apply Hall.
Qed.

End WithHost.

Lemma results_follow_complete_answers_witness :
  let w := Examples.sample_wizard_answered in
  let s :=
    {| Scoring.avg := int 3; Scoring.score100 := int 100;
       Scoring.answered := int 1; Scoring.total := int 1 |} in
  currentStep (state w) = int 2
  /\ currentStep (state (@goNext Examples.sample_host Examples.sample_questions w))
     = int 3
  /\ ("governance", s)
       ∈ @Scoring.computeDimensionScores Examples.sample_host
           (responses
              (state (@goNext Examples.sample_host Examples.sample_questions w)))
           (scoring_schema Examples.sample_questions)
  /\ Scoring.answered s = Scoring.total s.
Proof.
  cbn zeta.
  assert (currentStep (state Examples.sample_wizard_answered) = int 2) as H1
    by reflexivity.
  assert (currentStep
            (state (@goNext Examples.sample_host Examples.sample_questions
                      Examples.sample_wizard_answered)) = int 3) as H2
    by compute_done.
  assert (("governance",
           {| Scoring.avg := int 3; Scoring.score100 := int 100;
              Scoring.answered := int 1; Scoring.total := int 1 |})
            ∈ @Scoring.computeDimensionScores Examples.sample_host
                (responses
                   (state (@goNext Examples.sample_host
                             Examples.sample_questions
                             Examples.sample_wizard_answered)))
                (scoring_schema Examples.sample_questions)) as H3
    by compute_done.
  split; [exact H1|]. split; [exact H2|]. split; [exact H3|].
  exact (@results_follow_complete_answers Examples.sample_host _ _ _ _ H1 H2 H3).
Defined.

End WizardFacts.

(* ===================================================================== *)
(** * app.js: what is read from the store *)
(* ===================================================================== *)

Module StorageFacts.
Import JS App Spec JSFacts.

Lemma step_in_range_or n :
  let step := or_num n (int 1) in
  let step := if lt step (int 1) || gt step TOTAL_STEPS then int 1 else step in
  ge step (int 1) = true /\ le step (int 3) = true.
Proof.
  cbn zeta.
  assert (or_num n (int 1) <> NaN) as Hn by (by apply or_num_not_NaN).
  destruct (lt (or_num n (int 1)) (int 1)) eqn:E1; [done|].
  destruct (gt (or_num n (int 1)) TOTAL_STEPS) eqn:E3; [done|].
  cbn [orb]. split.
  - by apply lt_false_ge.
  - unfold le. by apply lt_false_ge.
Qed.

Section WithHost.
Context `{Host} `{Browser}.

Lemma restoreState_object text fields st :
  text <> "" -> JSON_parse text = Some (JObj fields) ->
  restoreState (Some text) st
  = let step := or_num (Number (json_field (JObj fields) "currentStep")) (int 1) in
    {| currentStep :=
         if lt step (int 1) || gt step TOTAL_STEPS then int 1 else step;
       contextResponses :=
         own_properties (json_or (obj_get fields "contextResponses") (JObj []));
       responses :=
         own_properties (json_or (obj_get fields "responses") (JObj [])) |}.
Proof.
  intros Ht Hp. unfold restoreState.
  rewrite bool_decide_eq_false_2 by done. by rewrite Hp.
Qed.

(** X22.  [restoreState] copes with whatever the store holds.  The step it
    leaves is a number between 1 and 3 (given that the step was before, as
    it is when the module starts).  Nothing stored, the empty text and a
    document that is not an object leave the state as it is; a text that
    does not parse, an array and an object without the three fields give
    step 1 and no answers; a stored step that is not a number or lies
    outside [[1, 3]] gives step 1, while the answers are still read. *)
Theorem restoreState_is_robust (raw : option string) (page : Page) (st : State) :
  let in_range s :=
    ge (currentStep s) (int 1) = true /\ le (currentStep s) (int 3) = true in
  in_range (state (start raw page))
  /\ (in_range st -> in_range (restoreState raw st))
  /\ restoreState None st = st
  /\ restoreState (Some "") st = st
  /\ (forall text, text <> "" -> JSON_parse text = None ->
        restoreState (Some text) st = initial_state)
  /\ (forall text doc, JSON_parse text = Some doc ->
        json_truthy doc = false \/ typeof_object doc = false ->
        restoreState (Some text) st = st)
  /\ (forall text items, text <> "" -> JSON_parse text = Some (JArr items) ->
        restoreState (Some text) st = initial_state)
  /\ (forall text fields, text <> "" -> JSON_parse text = Some (JObj fields) ->
        obj_get fields "currentStep" = None ->
        obj_get fields "contextResponses" = None ->
        obj_get fields "responses" = None ->
        restoreState (Some text) st = initial_state)
  /\ (forall text fields n, text <> "" ->
        JSON_parse text = Some (JObj fields) ->
        obj_get fields "currentStep" = Some (JNum n) ->
        n = NaN \/ lt n (int 1) = true \/ gt n (int 3) = true ->
        restoreState (Some text) st
        = with_step (restoreState (Some text) st) (int 1)).
Proof.
  intros in_range.
  assert (forall s, in_range s -> in_range (restoreState raw s)) as Hr.
  { intros s Hst. unfold restoreState.
    destruct raw as [text|]; [|done].
    case_bool_decide; [done|].
    destruct (JSON_parse text) as [parsed|]; [|done].
    destruct (negb (json_truthy parsed) || negb (typeof_object parsed)); [done|].
    apply step_in_range_or. }
  split; [by apply (Hr initial_state)|]. split; [apply Hr|].
  split; [reflexivity|]. split; [reflexivity|].
  split.
  { intros text Ht Hp. unfold restoreState.
    rewrite bool_decide_eq_false_2 by done. by rewrite Hp. }
  split.
  { intros text doc Hp Hd. unfold restoreState.
    case_bool_decide; [done|]. rewrite Hp.
    by destruct Hd as [-> | ->]; rewrite ?orb_true_r. }
  split.
  { intros text items Ht Hp. unfold restoreState.
    rewrite bool_decide_eq_false_2 by done. by rewrite Hp. }
  split.
  { intros text fields Ht Hp E1 E2 E3.
    rewrite (restoreState_object _ _ _ Ht Hp). cbn zeta.
    unfold json_field, json_get. rewrite E1, E2, E3. reflexivity. }
  intros text fields n Ht Hp E Hn.
  rewrite (restoreState_object _ _ _ Ht Hp). cbn zeta.
  unfold json_field, json_get. rewrite E. cbn [to_value Number with_step
    currentStep contextResponses responses]. f_equal.
  destruct Hn as [-> |[Hn|Hn]]; [reflexivity| |].
  - destruct n as [| | |q]; try done.
    unfold or_num. destruct (truthy (Fin q)); [by rewrite Hn|reflexivity].
  - destruct n as [| | |q]; try done.
    unfold or_num. destruct (truthy (Fin q)); [|reflexivity].
    change TOTAL_STEPS with (int 3). by rewrite Hn, orb_true_r.
Qed.

Lemma own_properties_numbers (m : gmap string number) :
  own_properties (JObj (map_to_list (JNum <$> m))) = VNum <$> m.
Proof.
  cbn [own_properties].
  assert (List.map (fun '(k, f) => (k, to_value f)) (map_to_list (JNum <$> m))
          = prod_map id to_value <$> map_to_list (JNum <$> m)) as ->.
  { apply map_ext. by intros []. }
  rewrite list_to_map_fmap, list_to_map_to_list, <- map_fmap_compose.
  reflexivity.
Qed.

End WithHost.

Section WithHost.
Context `{Host} `{Browser}.

(** X23.  What [persistState] stores is what [restoreState] reads.  When
    the stored text parses to an object with the three fields that
    [persistState] writes, a step between 1 and 3 and answers that are
    numbers, the restored state has exactly that step and those answers,
    whatever the state was before. *)
Theorem restoreState_reads_back (text : string) (step : number)
    (c r : gmap string number) (st : State) :
  text <> "" ->
  JSON_parse text = Some (persisted_document step c r) ->
  ge step (int 1) = true -> le step (int 3) = true ->
  restoreState (Some text) st = numeric_state step c r.
Proof.
  intros Ht Hp H1 H3. unfold persisted_document in Hp.
  rewrite (restoreState_object _ _ _ Ht Hp). cbn zeta.
  unfold json_field, json_get. cbn [obj_get].
  rewrite !decide_True by done.
  rewrite !(decide_False (P := "currentStep" = _)) by discriminate.
  rewrite !decide_True by done.
  rewrite !(decide_False (P := "contextResponses" = _)) by discriminate.
  rewrite !decide_True by done.
  cbn [to_value Number json_or json_truthy].
  rewrite !own_properties_numbers.
  assert (or_num step (int 1) = step) as ->.
  { unfold or_num. destruct step as [| | |q]; try done. cbn.
    case_bool_decide as E; [|done]. subst. by vm_compute in H1. }
  assert (lt step (int 1) = false) as ->
    by (unfold ge, lt in *; by destruct (compare step (int 1)) as [[]|]).
  assert (gt step TOTAL_STEPS = false) as ->.
  { unfold le, ge, gt, lt, TOTAL_STEPS in *.
    by destruct (compare (int 3) step) as [[]|]. }
  reflexivity.
Qed.

End WithHost.

Lemma restoreState_reads_back_witness :
  "{}" <> ""
  /\ @JSON_parse Examples.sample_restoring_browser "{}"
     = Some (persisted_document (int 2) {[ "oc_team_size" := int 3 ]} ∅)
  /\ ge (int 2) (int 1) = true /\ le (int 2) (int 3) = true
  /\ @restoreState Examples.sample_host Examples.sample_restoring_browser
       (Some "{}") initial_state
     = numeric_state (int 2) {[ "oc_team_size" := int 3 ]} ∅.
Proof.
  assert ("{}" <> "") as H1 by discriminate.
  assert (@JSON_parse Examples.sample_restoring_browser "{}"
          = Some (persisted_document (int 2) {[ "oc_team_size" := int 3 ]} ∅))
    as H2 by reflexivity.
  assert (ge (int 2) (int 1) = true) as H3 by reflexivity.
  assert (le (int 2) (int 3) = true) as H4 by reflexivity.
  split; [exact H1|]. split; [exact H2|]. split; [exact H3|]. split; [exact H4|].
  exact (@restoreState_reads_back Examples.sample_host
           Examples.sample_restoring_browser _ _ _ _ initial_state H1 H2 H3 H4).
Defined.

Section WithHost.
Context `{Host} `{Browser}.

Lemma loadSavedReports_array text items :
  text <> "" -> JSON_parse text = Some (JArr items) ->
  loadSavedReports (Some text) = items.
Proof.
  intros Ht Hp. unfold loadSavedReports.
  rewrite bool_decide_eq_false_2 by done. by rewrite Hp.
Qed.

(** X24.  [saveReportSnapshot] keeps a history of distinct consecutive
    answers.  The list it returns is never empty and its first entry
    carries the fingerprint of the current answers.  When the first stored
    entry has that fingerprint already, the stored list is returned as it is
    and nothing is written; otherwise a new entry is put in front of the
    stored ones, the list is cut to 25 entries and written.  So a store that
    holds at most 25 entries keeps holding at most 25, and saving a second
    time with the same answers adds nothing.  Nothing stored, the empty
    text, a text that does not parse and a document that is not an array
    count as an empty history. *)
Theorem saveReportSnapshot_keeps_history (raw : option string)
    (fingerprint now : string) (reportModel : Scoring.ReportModel)
    (summary : string) (guidance : list string) :
  let reports := loadSavedReports raw in
  let saved := saveReportSnapshot raw fingerprint now reportModel summary guidance in
  let next := saved.1 in
  next <> []
  /\ same_fingerprint (head next) fingerprint = true
  /\ (same_fingerprint (head reports) fingerprint = true ->
        next = reports /\ saved.2 = None)
  /\ (same_fingerprint (head reports) fingerprint = false ->
        saved.2 = Some next
        /\ length next = Nat.min 25 (S (length reports))
        /\ tail next = take 24 reports
        /\ json_get (default JNull (head next)) "timestamp" = Some (JStr now)
        /\ json_get (default JNull (head next)) "summary" = Some (JStr summary))
  /\ (length reports <= 25 -> length next <= 25)
  /\ (forall text now' reportModel' summary' guidance',
        text <> "" -> JSON_parse text = Some (JArr next) ->
        saveReportSnapshot (Some text) fingerprint now' reportModel' summary'
          guidance'
        = (next, None))
  /\ (loadSavedReports None = [] /\ loadSavedReports (Some "") = []
      /\ (forall text, JSON_parse text = None -> loadSavedReports (Some text) = [])
      /\ (forall text fields, JSON_parse text = Some (JObj fields) ->
            loadSavedReports (Some text) = [])).
Proof.
  intros reports saved next.
  assert (same_fingerprint (head next) fingerprint = true) as Hhead.
  { unfold next, saved, saveReportSnapshot. fold reports.
    destruct (same_fingerprint (head reports) fingerprint) eqn:E; [done|].
    cbn [fst slice0 MAX_SAVED_REPORTS take head same_fingerprint json_truthy
         json_get obj_get andb].
    rewrite decide_False by discriminate. rewrite decide_True by done.
    by apply bool_decide_eq_true_2. }
  split.
  { intros E. rewrite E in Hhead. discriminate. }
  split; [exact Hhead|].
  split.
  { intros E. unfold next, saved, saveReportSnapshot. fold reports.
    by rewrite E. }
  split.
  { intros E. unfold next, saved, saveReportSnapshot. fold reports.
    rewrite E. cbn [fst snd slice0 MAX_SAVED_REPORTS].
    split; [done|]. split; [by rewrite length_take|].
    split; [reflexivity|]. split; reflexivity. }
  split.
  { intros Hlen. unfold next, saved, saveReportSnapshot. fold reports.
    destruct (same_fingerprint (head reports) fingerprint); [done|].
    cbn [fst slice0]. rewrite length_take. unfold MAX_SAVED_REPORTS. lia. }
  split.
  { intros text now' rm' summary' guidance' Ht Hp.
    unfold saveReportSnapshot. rewrite (loadSavedReports_array _ _ Ht Hp).
    by rewrite Hhead. }
  split; [reflexivity|]. split; [reflexivity|].
  split.
  - intros text Hp. unfold loadSavedReports. case_bool_decide; [done|].
    by rewrite Hp.
  - intros text fields Hp. unfold loadSavedReports. case_bool_decide; [done|].
    by rewrite Hp.
Qed.

End WithHost.
End StorageFacts.

(* ===================================================================== *)
(** * app.js: export, copied summary, chart fill and file name *)
(* ===================================================================== *)

Module ReportActionFacts.
Import JS Scoring Spec JSFacts NormalizationFacts ObjFacts PressureFacts
       DimensionFacts ExportFacts DimensionScoreFacts ReportInvariants.
Local Open Scope Qc_scope.

Lemma finite_not_NaN n : isFinite n = true -> n <> NaN.
Proof. by destruct n. Qed.

Section WithHost.
Context `{Host}.

(** X25.  The export payload reproduces the computed report: SSI, OPI and
    the adequacy gap are the numbers of the report, so that the exported gap
    is the exported SSI minus the exported OPI; the dimension scores list
    the dimensions of the report in the same order with the same averages
    and scores; the risk flags and the tips are those shown on the results
    page; and the time stamp is the time of the export. *)
Theorem export_reproduces_report (state : App.State)
    (QUESTIONNAIRE : option Questionnaire) (now : string) :
  let r := App.getComputedReport state QUESTIONNAIRE in
  let rm := App.reportModel r in
  let p := App.exportedPayload state QUESTIONNAIRE now in
  App.SSI p = rm_SSI rm
  /\ App.OPI p = OPI (rm_operationalPressure rm)
  /\ App.adequacyGap p = rm_adequacyGap rm
  /\ App.adequacyGap p = sub (App.SSI p) (App.OPI p)
  /\ App.dimensionScores p
     = map (fun '(d, s) =>
              (d, {| App.avg := avg s; App.score100 := score100 s |}))
           (rm_dimensionScores rm)
  /\ App.riskFlags p = App.risks r
  /\ App.guidanceTips p = App.guidance r
  /\ App.timestamp p = now.
Proof.
  intros r rm p.
  assert (rm = computeReportModel
                 {| responses := App.responses state;
                    contextResponses := App.contextResponses state;
                    QUESTIONNAIRE := QUESTIONNAIRE |}) as Hrm by reflexivity.
  assert (App.SSI p = rm_SSI rm) as Hssi.
  { change (App.SSI p) with (or_num (rm_SSI rm) (int 0)).
    apply or_num_zero. rewrite Hrm. eapply between_not_NaN, rm_SSI_between. }
  assert (App.OPI p = OPI (rm_operationalPressure rm)) as Hopi.
  { change (App.OPI p) with (or_num (OPI (rm_operationalPressure rm)) (int 0)).
    apply or_num_zero. eapply between_not_NaN, OPI_between. }
  assert (App.adequacyGap p = rm_adequacyGap rm) as Hag.
  { change (App.adequacyGap p) with (or_num (rm_adequacyGap rm) (int 0)).
    apply or_num_zero, finite_not_NaN. rewrite Hrm.
    apply computeReportModel_adequacyGap_finite. }
  split; [exact Hssi|]. split; [exact Hopi|]. split; [exact Hag|].
  split.
  { rewrite Hag, Hssi, Hopi, Hrm. apply rm_adequacyGap_sub. }
  split.
  { change (App.dimensionScores p)
      with (foldl (fun out '(d, s) =>
                     obj_set out d
                       {| App.avg := or_num (avg s) (int 0);
                          App.score100 := or_num (score100 s) (int 0) |})
                  [] (rm_dimensionScores rm)).
    rewrite (foldl_obj_set
               (fun _ s => {| App.avg := or_num (avg s) (int 0);
                              App.score100 := or_num (score100 s) (int 0) |}));
      [|apply computeDimensionScores_wf|intros; apply not_elem_of_nil].
    cbn [app]. apply map_ext_in. intros [d s] Hin%list_elem_of_In.
    destruct (computeDimensionScores_finite _ _ _ _ Hin) as [Ha Hs].
    by rewrite !or_num_zero by (by apply finite_not_NaN). }
  repeat split; reflexivity.
Qed.

(** X26.  The text that the Copy button puts on the clipboard is the
    summary, an empty line and three lines with SSI, OPI and the adequacy
    gap; for a computed report the three figures are printed exactly as in
    the sentence of the summary. *)
Theorem copied_text_repeats_summary (state : App.State)
    (QUESTIONNAIRE : option Questionnaire) :
  let r := App.getComputedReport state QUESTIONNAIRE in
  let rm := App.reportModel r in
  let newline := String (ascii_of_nat 10) EmptyString in
  let ssi := toFixed (rm_SSI rm) 1 in
  let opi := toFixed (OPI (rm_operationalPressure rm)) 1 in
  let gap := toFixed (rm_adequacyGap rm) 1 in
  (exists relationship team ai,
     App.summary r
     = Report.summary_template ssi relationship opi gap team ai)
  /\ App.buildCopySummaryText rm (App.summary r)
     = App.summary r +:+ newline +:+ newline
       +:+ "SSI: " +:+ ssi +:+ newline
       +:+ "OPI: " +:+ opi +:+ newline
       +:+ "Adequacy Gap: " +:+ gap.
Proof.
  intros r rm newline ssi opi gap.
  assert (or_num (rm_SSI rm) (int 0) = rm_SSI rm) as Hssi
    by (apply or_num_zero; eapply between_not_NaN, rm_SSI_between).
  assert (or_num (OPI (rm_operationalPressure rm)) (int 0)
          = OPI (rm_operationalPressure rm)) as Hopi
    by (apply or_num_zero; eapply between_not_NaN, OPI_between).
  assert (or_num (rm_adequacyGap rm) (int 0) = rm_adequacyGap rm) as Hag
    by (apply or_num_zero, finite_not_NaN,
          computeReportModel_adequacyGap_finite).
  split.
  - eexists _, _, _.
    change (App.summary r)
      with (Report.generateSummary (Some (Report.of_scoring rm))).
    unfold Report.generateSummary.
    cbn [optchain Report.SSI Report.of_scoring Report.operationalPressure
         Report.OPI Report.adequacyGap or_field].
    rewrite Hssi, Hopi. reflexivity.
  - unfold App.buildCopySummaryText. rewrite Hssi, Hopi, Hag.
    cbn [String.concat]. fold newline.
    reflexivity.
Qed.

End WithHost.

Lemma of_nat_le i j : (i <= j)%nat -> ratio (Z.of_nat i) 1 <= ratio (Z.of_nat j) 1.
Proof.
  intros Hij. unfold ratio, Qcle. cbn [this Q2Qc]. rewrite !Qred_correct.
  unfold Qle. cbn [Qnum Qden]. lia.
Qed.

Lemma of_nat_minus_one n :
  (1 <= n)%nat -> sub (of_nat n) (int 1) = of_nat (n - 1).
Proof.
  intros Hn. replace n with (S (n - 1)) at 1 by lia.
  rewrite <- of_nat_S. unfold of_nat, int, lit. cbn [sub add neg]. f_equal.
  qc_order.
Qed.

Lemma gt_of_nat_1 n : gt (of_nat n) (int 1) = negb (Nat.leb n 1).
Proof.
  destruct n as [|[|n]]; [reflexivity..|].
  cbn [Nat.leb negb]. apply gt_Fin. unfold of_nat, int, lit, ratio.
  unfold Qclt. cbn [this Q2Qc]. rewrite !Qred_correct.
  unfold Qlt. cbn [Qnum Qden]. lia.
Qed.

Lemma gradient_step_Fin colors : exists q, App.gradient_step colors = Fin q.
Proof.
  unfold App.gradient_step. rewrite gt_of_nat_1.
  destruct (Nat.leb (length colors) 1) eqn:E; cbn [negb]; [by eexists|].
  apply Nat.leb_gt in E. rewrite of_nat_minus_one by lia.
  destruct (of_nat_Fin (length colors - 1)) as (m & -> & _ & Hpos).
  specialize (Hpos ltac:(lia)). unfold int, lit. cbn [div].
  rewrite decide_False by (intros ->; by apply Qclt_not_eq in Hpos).
  by eexists.
Qed.

(** The offset of the stop with index [i] among [n] colors. *)
Lemma gradient_offset_between (colors : list string) (i : nat) :
  (i < length colors)%nat ->
  between (ratio 0 1) (ratio 1 1)
          (mul (App.gradient_step colors) (of_nat i)).
Proof.
  intros Hi. unfold App.gradient_step.
  destruct (decide (length colors = 1%nat)) as [E|Hne].
  - rewrite E. assert (i = 0%nat) as -> by lia.
    exists (ratio 0 1). split; [reflexivity|]. split; qc_order.
  - rewrite gt_of_nat_1.
    rewrite (proj2 (Nat.leb_gt (length colors) 1)) by lia. cbn [negb].
    rewrite of_nat_minus_one by lia.
    destruct (of_nat_Fin (length colors - 1)) as (m & Hm & _ & Hpos).
    specialize (Hpos ltac:(lia)).
    pose proof (of_nat_le i (length colors - 1) ltac:(lia)) as Hle.
    pose proof (of_nat_le 0 i ltac:(lia)) as H0.
    assert (m = ratio (Z.of_nat (length colors - 1)) 1) as Em
      by (by injection Hm).
    rewrite Hm. unfold int, lit, of_nat. cbn [div].
    rewrite decide_False by (intros ->; by apply Qclt_not_eq in Hpos).
    cbn [mul]. eexists. split; [reflexivity|].
    rewrite <- Em in Hle. set (x := ratio (Z.of_nat i) 1) in *. clearbody x.
    rewrite (Qcmult_comm (ratio 1 1 / m) x).
    change (ratio 1 1) with 1. unfold Qcdiv. rewrite Qcmult_1_l.
    change (x * / m) with (x / m). split.
    + apply (Qcle_trans _ 0); [qc_order|]. apply Qcdiv_le_lower; [done|].
      apply (Qcle_trans _ (ratio 0 1)); [qc_order | exact H0].
    + apply Qcdiv_le_upper; [done|]. by rewrite Qcmult_1_l.
Qed.

(** X27.  The fill of the maturity chart.  While the chart has no area the
    fill is the first color.  Afterwards it is a gradient with one stop for
    each color, in the order of the colors; the first stop is at 0, every
    stop lies in [[0, 1]], which is the range that a gradient accepts, and
    for two colors, as the chart passes them, the stops are at 0 and 1. *)
Theorem gradient_stops_in_unit_interval (colors : list string) :
  let stops := App.gradient_stops colors in
  App.createGradientFill colors false = App.FillColor (head colors)
  /\ App.createGradientFill colors true = App.FillGradient stops
  /\ map snd stops = colors
  /\ (forall offset color, (offset, color) ∈ stops ->
        between (ratio 0 1) (ratio 1 1) offset)
  /\ (forall color rest, colors = color :: rest ->
        head stops = Some (int 0, color))
  /\ (forall first last, colors = [first; last] ->
        stops = [(int 0, first); (int 1, last)]).
Proof.
  intros stops.
  split; [reflexivity|]. split; [reflexivity|].
  split.
  { unfold stops, App.gradient_stops. generalize (App.gradient_step colors).
    intros step. change (map snd ?l) with (snd <$> l).
    apply list_eq. intros i. rewrite list_lookup_fmap, list_lookup_imap.
    by destruct (colors !! i). }
  split.
  { intros offset color Hin. unfold stops, App.gradient_stops in Hin.
    apply elem_of_lookup_imap in Hin as (i & c & [= -> ->] & Hi).
    apply gradient_offset_between. by eapply lookup_lt_Some. }
  split.
  { intros color rest ->. unfold stops, App.gradient_stops.
    cbn [imap head]. f_equal. f_equal.
    destruct (gradient_step_Fin (color :: rest)) as [q ->].
    unfold of_nat, int, lit. cbn [mul]. f_equal.
    change (ratio (Z.of_nat 0) 1) with 0. change (ratio 0 1) with 0.
    apply Qcmult_0_r. }
  intros first last ->. unfold stops, App.gradient_stops.
  cbn [imap compose].
  apply (f_equal2 cons); [apply (f_equal2 pair); [compute_done|done]|].
  apply (f_equal2 cons); [apply (f_equal2 pair); [compute_done|done]|done].
Qed.

Lemma replace_colon_dot_chars now c :
  c ∈ list_ascii_of_string (App.replace_colon_dot now) ->
  c <> ":"%char /\ c <> "."%char.
Proof.
  induction now as [|a now IH]; cbn; [by intros ?%elem_of_nil|].
  intros [->|Hin]%elem_of_cons; [|by apply IH].
  repeat case_bool_decide; cbn; split; congruence.
Qed.

(** X28.  The name under which the report is downloaded is
    ["ds-maturity-report-"], the time stamp and [".json"], where the stamp is
    the time of the download with every colon and every dot replaced by a
    hyphen and every other character kept in its place.  So the stamp holds
    neither a colon nor a dot, and the name holds no colon at all. *)
Theorem download_name_has_no_colon (now : string) :
  let stamp := App.replace_colon_dot now in
  App.download_name now = "ds-maturity-report-" +:+ stamp +:+ ".json"
  /\ String.length stamp = String.length now
  /\ (forall c, c ∈ list_ascii_of_string stamp ->
        c <> ":"%char /\ c <> "."%char)
  /\ (forall i c, String.get i now = Some c ->
        String.get i stamp
        = Some (if bool_decide (c = ":"%char) || bool_decide (c = "."%char)
                then "-"%char else c))
  /\ (":"%char ∉ list_ascii_of_string (App.download_name now))
  /\ App.download_name "2024-01-01T00:00:00.000Z"
     = "ds-maturity-report-2024-01-01T00-00-00-000Z.json".
Proof.
  intros stamp.
  split; [reflexivity|].
  split.
  { unfold stamp. induction now as [|a now IH]; cbn; [done | by f_equal]. }
  split; [apply replace_colon_dot_chars|].
  split.
  { unfold stamp. induction now as [|a now IH]; intros i c; cbn; [done|].
    destruct i as [|i]; [by intros [= ->] | apply IH]. }
  split; [|reflexivity].
  assert (":"%char ∉ list_ascii_of_string "ds-maturity-report-") as Hprefix
    by compute_done.
  assert (":"%char ∉ list_ascii_of_string ".json") as Hsuffix by compute_done.
  unfold App.download_name. fold stamp.
  rewrite !StringFacts.list_ascii_of_string_app.
  rewrite !elem_of_app. intros [Hin|[Hin|Hin]]; [done| |done].
  by apply replace_colon_dot_chars in Hin as [? _].
Qed.

End ReportActionFacts.

(* ===================================================================== *)
(** * Monotonicity of the report *)
(* ===================================================================== *)

Module MonotonicityFacts.
Import JS Scoring Spec JSFacts NormalizationFacts ObjFacts RiskFacts
       PressureFacts DimensionFacts ReportModelFacts EntropyFacts
       ExportFacts DimensionScoreFacts ReportInvariants.
Local Open Scope Qc_scope.

Lemma Qcdiv_le_mono q q' n : 0 < n -> q <= q' -> q / n <= q' / n.
Proof.
  intros Hn Hq. apply Qcdiv_le_upper; [done|].
  rewrite Qcmult_comm, Qcmult_div_r; [done|].
  intros ->. by apply Qclt_not_eq in Hn.
Qed.

Lemma sub_le_mono_l a a' b :
  isFinite a = true -> isFinite a' = true -> isFinite b = true ->
  le a a' = true -> le (sub a b) (sub a' b) = true.
Proof.
  destruct a as [| | |x], a' as [| | |x'], b as [| | |y]; try done.
  intros _ _ _ Hle%le_Fin. apply le_Fin. qc_order.
Qed.

Lemma sub_le_mono_r a b b' :
  isFinite a = true -> isFinite b = true -> isFinite b' = true ->
  le b b' = true -> le (sub a b') (sub a b) = true.
Proof.
  destruct a as [| | |x], b as [| | |y], b' as [| | |y']; try done.
  intros _ _ _ Hle%le_Fin. apply le_Fin. qc_order.
Qed.

Lemma le_lt_trans a b c : le a b = true -> lt b c = true -> lt a c = true.
Proof.
  destruct a as [| | |x], b as [| | |y], c as [| | |z]; try done.
  rewrite le_Fin, !lt_Fin. apply Qcle_lt_trans.
Qed.

(** Two objects with the same keys whose entries are related key by key. *)
Lemma Forall2_values {V} (R : V -> V -> Prop) (o o' : obj V) :
  wf_obj o -> keys o = keys o' ->
  (forall d s s', obj_get o d = Some s -> obj_get o' d = Some s' -> R s s') ->
  Forall2 R (values o) (values o').
Proof.
  revert o'. induction o as [|[k v] o IH]; intros [|[k' v'] o'] Hwf Hk HR;
    try done.
  injection Hk as <- Hk. apply NoDup_cons in Hwf as [Hfresh Hwf].
  constructor.
  - apply (HR k); cbn; by rewrite decide_True.
  - apply IH; [done|done|]. intros d s s' Hs Hs'.
    assert (k <> d) as Hne.
    { intros <-. apply Hfresh. apply obj_get_Some_elem in Hs.
      apply (list_elem_of_fmap_2 fst) in Hs. exact Hs. }
    apply (HR d); cbn; by rewrite decide_False.
Qed.

Lemma sum_scores_mono (l l' : list DimensionScore) a a' :
  a <= a' ->
  Forall2 (fun s s' => exists x x', score100 s = Fin x /\ score100 s' = Fin x'
                                    /\ x <= x') l l' ->
  exists q q',
    foldl (fun sum d => add sum (or_num (score100 d) (int 0))) (Fin a) l = Fin q
    /\ foldl (fun sum d => add sum (or_num (score100 d) (int 0))) (Fin a') l'
       = Fin q'
    /\ q <= q'.
Proof.
  intros Ha Hall. revert a a' Ha.
  induction Hall as [|s s' l l' (x & x' & Hx & Hx' & Hle) _ IH]; intros a a' Ha.
  - by exists a, a'.
  - cbn [foldl]. rewrite Hx, Hx', !or_num_zero by done. cbn [add].
    apply IH. qc_order.
Qed.

Section WithHost.
Context `{Host}.

Lemma answers_to_raised responses responses' qs :
  answers_raised responses responses' ->
  Forall2 (fun v v' => le (toClampedNumber v (int 0) (int 3))
                          (toClampedNumber v' (int 0) (int 3)) = true)
          (answers_to responses qs) (answers_to responses' qs).
Proof.
  intros Hr. unfold answers_to. induction qs as [|q qs IH]; [constructor|].
  cbn [omap list_omap]. specialize (Hr (q_id q)).
  destruct (responses !! q_id q), (responses' !! q_id q); try done.
  by constructor.
Qed.

Lemma sum_clamped_mono (given given' : list value) a a' :
  a <= a' ->
  Forall2 (fun v v' => le (toClampedNumber v (int 0) (int 3))
                          (toClampedNumber v' (int 0) (int 3)) = true)
          given given' ->
  exists q q',
    foldl add (Fin a) (map (fun v => toClampedNumber v (int 0) (int 3)) given)
    = Fin q
    /\ foldl add (Fin a')
             (map (fun v => toClampedNumber v (int 0) (int 3)) given')
       = Fin q'
    /\ q <= q'.
Proof.
  intros Ha Hall. revert a a' Ha.
  induction Hall as [|v v' l l' Hle _ IH]; intros a a' Ha.
  - by exists a, a'.
  - cbn [map foldl].
    rewrite !(toClampedNumber_clamp _ (ratio 0 1) (ratio 3 1)) in * by qc_order.
    apply le_Fin in Hle. cbn [add]. apply IH. qc_order.
Qed.

Lemma mean_answer_mono given given' :
  Forall2 (fun v v' => le (toClampedNumber v (int 0) (int 3))
                          (toClampedNumber v' (int 0) (int 3)) = true)
          given given' ->
  exists m m', mean_answer given = Fin m /\ mean_answer given' = Fin m'
               /\ m <= m'.
Proof.
  intros Hall. pose proof (Forall2_length _ _ _ Hall) as Hlen.
  unfold mean_answer.
  destruct given as [|v given], given' as [|v' given']; try done.
  { exists (ratio 0 1), (ratio 0 1). repeat split. apply Qcle_refl. }
  destruct (sum_clamped_mono _ _ (ratio 0 1) (ratio 0 1) (Qcle_refl _) Hall)
    as (q & q' & Hq & Hq' & Hle).
  unfold sum_numbers. change (Fin (ratio 0 1)) with (int 0) in Hq, Hq'.
  rewrite Hq, Hq', <- Hlen.
  destruct (of_nat_Fin (length (v :: given))) as (n & -> & _ & Hpos).
  specialize (Hpos ltac:(done)). cbn [div].
  rewrite !decide_False by (intros ->; by apply Qclt_not_eq in Hpos).
  eexists _, _. split; [reflexivity|]. split; [reflexivity|].
  by apply Qcdiv_le_mono.
Qed.

(** The entries of a dimension under the two sets of answers. *)
Lemma dimension_entry_mono responses responses' QUESTIONNAIRE d s s' :
  answers_raised responses responses' ->
  obj_get (computeDimensionScores responses QUESTIONNAIRE) d = Some s ->
  obj_get (computeDimensionScores responses' QUESTIONNAIRE) d = Some s' ->
  exists m m' x x',
    avg s = Fin m /\ avg s' = Fin m' /\ m <= m'
    /\ score100 s = Fin x /\ score100 s' = Fin x' /\ x <= x'.
Proof.
  intros Hr. rewrite !computeDimensionScores_lookup_entry.
  destruct (questions_in d (questions_of QUESTIONNAIRE)) as [|q asked]; [done|].
  intros [= <-] [= <-]. rewrite !score_of_stats_of. cbn zeta.
  cbn [avg score100].
  destruct (mean_answer_mono _ _ (answers_to_raised _ _ (q :: asked) Hr))
    as (m & m' & Hm & Hm' & Hle).
  destruct (mean_answer_between (answers_to responses (q :: asked)))
    as (m0 & Hm0 & ? & ?).
  destruct (mean_answer_between (answers_to responses' (q :: asked)))
    as (m0' & Hm0' & ? & ?).
  rewrite Hm in Hm0. rewrite Hm' in Hm0'. simplify_eq.
  rewrite Hm, Hm'. rewrite !normalize0to3To100_clamp. cbn [Number].
  rewrite !clamp_id by done.
  eexists m0, m0', _, _. repeat split; try done. qc_order.
Qed.

Lemma keys_computeDimensionScores responses responses' QUESTIONNAIRE :
  keys (computeDimensionScores responses' QUESTIONNAIRE)
  = keys (computeDimensionScores responses QUESTIONNAIRE).
Proof.
  rewrite !computeDimensionScores_keys. unfold accumulated.
  by rewrite !foldl_accumulate_keys.
Qed.

Lemma computeSSI_mono responses responses' QUESTIONNAIRE :
  answers_raised responses responses' ->
  le (computeSSI (Some (computeDimensionScores responses QUESTIONNAIRE)))
     (computeSSI (Some (computeDimensionScores responses' QUESTIONNAIRE)))
  = true.
Proof.
  intros Hr.
  set (ds := computeDimensionScores responses QUESTIONNAIRE).
  set (ds' := computeDimensionScores responses' QUESTIONNAIRE).
  assert (Forall2 (fun s s' => exists x x', score100 s = Fin x
                                /\ score100 s' = Fin x' /\ x <= x')
                  (values ds) (values ds')) as Hall.
  { apply Forall2_values;
      [apply computeDimensionScores_wf
      |symmetry; apply keys_computeDimensionScores|].
    intros d s s' Hs Hs'.
    destruct (dimension_entry_mono _ _ _ _ _ _ Hr Hs Hs')
      as (_ & _ & x & x' & _ & _ & _ & ? & ? & ?).
    by exists x, x'. }
  pose proof (Forall2_length _ _ _ Hall) as Hlen.
  unfold computeSSI. cbn [default]. unfold id. cbv zeta. rewrite <- Hlen.
  case_bool_decide as Hz; [reflexivity|].
  destruct (sum_scores_mono _ _ (ratio 0 1) (ratio 0 1) (Qcle_refl _) Hall)
    as (q & q' & Hq & Hq' & Hle).
  change (Fin (ratio 0 1)) with (int 0) in Hq, Hq'. rewrite Hq, Hq'.
  destruct (of_nat_Fin (length (values ds))) as (n & -> & _ & Hpos).
  specialize (Hpos Hz). cbn [div].
  rewrite !decide_False by (intros ->; by apply Qclt_not_eq in Hpos).
  apply le_Fin. by apply Qcdiv_le_mono.
Qed.

Lemma context_rule_mono lvl m m' :
  le m m' = true ->
  (entropy_rule lvl m' = true -> entropy_rule lvl m = true)
  /\ (drift_rule lvl m' = true -> drift_rule lvl m = true).
Proof.
  intros Hle. unfold entropy_rule, drift_rule.
  split; intros [Hge Hlt]%andb_true_iff; apply andb_true_iff;
    (split; [done|]); by apply (le_lt_trans _ m').
Qed.

Lemma elem_of_expected_flags f gaps entropy drift :
  f ∈ expected_flags gaps entropy drift
  <-> (exists d g, f = dimension_flag d /\ (d, g) ∈ gaps
                   /\ lt g (int (-15)) = true)
      \/ (f = ENTROPY_FLAG /\ entropy = true)
      \/ (f = DRIFT_FLAG /\ drift = true).
Proof.
  unfold expected_flags. rewrite !elem_of_app, list_elem_of_fmap. split.
  - intros [(d & -> & Hin)|[Hin|Hin]].
    + left. unfold keys in Hin.
      apply list_elem_of_fmap in Hin as ([d' g] & -> & Hin).
      apply list_elem_of_filter in Hin as [Hb Hin]. by exists d', g.
    + right; left. destruct entropy; [|by apply elem_of_nil in Hin].
      by apply list_elem_of_singleton in Hin.
    + right; right. destruct drift; [|by apply elem_of_nil in Hin].
      by apply list_elem_of_singleton in Hin.
  - intros [(d & g & -> & Hin & Hlt)|[[-> ->]|[-> ->]]].
    + left. exists d. split; [done|].
      unfold keys. apply list_elem_of_fmap. exists (d, g). split; [done|].
      by apply list_elem_of_filter.
    + right; left. apply list_elem_of_here.
    + right; right. apply list_elem_of_here.
Qed.

(** The flags of a report, by membership. *)
Lemma elem_of_rm_flags input f :
  let rm := computeReportModel input in
  let ctx := contextResponses input in
  let mean name :=
    mean_answer
      (answers_to (responses input)
         (questions_in name (questions_of (QUESTIONNAIRE input)))) in
  f ∈ flags (rm_risks rm)
  <-> (exists d s, f = dimension_flag d
         /\ obj_get (rm_dimensionScores rm) d = Some s
         /\ lt (sub (score100 s) (OPI (rm_operationalPressure rm)))
               (int (-15)) = true)
      \/ (f = ENTROPY_FLAG
          /\ entropy_rule (resolveContextValue ctx (aliases_of "aiUsage"))
                          (mean "governance") = true)
      \/ (f = DRIFT_FLAG
          /\ drift_rule (resolveContextValue ctx (aliases_of "teamSize"))
                        (mean "distribution") = true).
Proof.
  cbn zeta. rewrite computeReportModel_flags. cbv zeta.
  rewrite !or_field_avg_mean.
  rewrite entropy_rule_or, drift_rule_or
    by (eapply between_not_NaN, mean_answer_between).
  rewrite elem_of_expected_flags, rm_dimensionGaps_sub. cbn zeta.
  apply or_iff_compat_r. split.
  - intros (d & g & -> & Hin & Hlt).
    apply list_elem_of_fmap in Hin as ([d' s] & [= -> ->] & Hin).
    exists d', s. split; [done|]. split; [|done].
    apply obj_get_elem; [apply computeDimensionScores_wf|done].
  - intros (d & s & -> & Hs & Hlt). eexists d, _. split; [done|].
    split; [|exact Hlt].
    apply list_elem_of_fmap. exists (d, s). split; [done|].
    by apply obj_get_Some_elem.
Qed.

Lemma obj_get_same_keys {V} (o o' : obj V) d s' :
  keys o = keys o' -> obj_get o' d = Some s' -> exists s, obj_get o d = Some s.
Proof.
  intros Hk Hs'. destruct (obj_get o d) as [s|] eqn:E; [by exists s|].
  apply obj_get_None in E. rewrite Hk in E.
  apply obj_get_None in E. congruence.
Qed.

Lemma pressure_level_clamp ctx factor :
  pressure_level ctx factor
  = Fin (clamp (ratio 1 1) (ratio 4 1)
           (resolveContextValue ctx (aliases_of factor))).
Proof.
  unfold pressure_level, int, lit. by rewrite toClampedNumber_clamp by qc_order.
Qed.

Lemma OPI_mono ctx ctx' :
  pressure_raised ctx ctx' ->
  exists o o', OPI (computeOperationalPressure ctx) = Fin o
               /\ OPI (computeOperationalPressure ctx') = Fin o' /\ o <= o'.
Proof.
  intros Hr.
  assert (forall factor weight, (factor, weight) ∈ OPERATIONAL_WEIGHTS ->
            clamp (ratio 1 1) (ratio 4 1)
              (resolveContextValue ctx (aliases_of factor))
            <= clamp (ratio 1 1) (ratio 4 1)
                 (resolveContextValue ctx' (aliases_of factor))) as Hc.
  { intros factor weight Hin. specialize (Hr factor weight Hin).
    rewrite !pressure_level_clamp in Hr. by apply le_Fin. }
  pose proof (Hc "teamSize" (lit 25 100) ltac:(compute_done)) as H1.
  pose proof (Hc "productComplexity" (lit 25 100) ltac:(compute_done)) as H2.
  pose proof (Hc "aiUsage" (lit 2 10) ltac:(compute_done)) as H3.
  pose proof (Hc "releaseFrequency" (lit 15 100) ltac:(compute_done)) as H4.
  pose proof (Hc "toolingFragmentation" (lit 15 100) ltac:(compute_done)) as H5.
  clear Hc Hr.
  rewrite !computeOperationalPressure_unfold. cbn zeta. cbn [OPI].
  unfold lit. rewrite !pressure_entry_spec. cbn zeta. cbn [b_contribution add].
  repeat match goal with
         | |- context [clamp ?lo ?hi ?n] =>
             let c := fresh "c" in
             set (c := clamp lo hi n) in *; clearbody c
         end.
  eexists _, _. split; [reflexivity|]. split; [reflexivity|]. qc_order.
Qed.

(** X29.  Better answers never give a worse report.  Take two sets of
    answers to the same questions in which no answer, clamped to [[0, 3]],
    is lower in the second set, and compute both reports with the same
    schema and the same context answers.  Then the two reports list the same
    dimensions in the same order; for every dimension the mean and the score
    of the second report are at least those of the first, with the same
    numbers of answered and asked questions; SSI and the adequacy gap of the
    second report are at least those of the first; and every risk flag of
    the second report is a flag of the first. *)
Theorem higher_answers_never_lower_scores
    (responses responses' ctx : gmap string value)
    (Q : option Questionnaire) :
  answers_raised responses responses' ->
  let rm := computeReportModel
              {| Scoring.responses := responses; contextResponses := ctx;
                 QUESTIONNAIRE := Q |} in
  let rm' := computeReportModel
               {| Scoring.responses := responses'; contextResponses := ctx;
                  QUESTIONNAIRE := Q |} in
  keys (rm_dimensionScores rm') = keys (rm_dimensionScores rm)
  /\ (forall d s s',
        obj_get (rm_dimensionScores rm) d = Some s ->
        obj_get (rm_dimensionScores rm') d = Some s' ->
        le (avg s) (avg s') = true /\ le (score100 s) (score100 s') = true
        /\ answered s' = answered s /\ total s' = total s)
  /\ le (rm_SSI rm) (rm_SSI rm') = true
  /\ le (rm_adequacyGap rm) (rm_adequacyGap rm') = true
  /\ (forall f, f ∈ flags (rm_risks rm') -> f ∈ flags (rm_risks rm)).
Proof.
  intros Hr rm rm'.
  assert (keys (rm_dimensionScores rm') = keys (rm_dimensionScores rm)) as Hk.
  { apply keys_computeDimensionScores. }
  assert (forall name,
            le (mean_answer (answers_to responses
                               (questions_in name (questions_of Q))))
               (mean_answer (answers_to responses'
                               (questions_in name (questions_of Q))))
            = true) as Hmean.
  { intros name.
    destruct (mean_answer_mono _ _
                (answers_to_raised _ _ (questions_in name (questions_of Q)) Hr))
      as (m & m' & -> & -> & Hle).
    by apply le_Fin. }
  split; [exact Hk|]. split; [|split; [|split]].
  - intros d s s' Hs Hs'.
    destruct (dimension_entry_mono _ _ _ _ _ _ Hr Hs Hs')
      as (m & m' & x & x' & -> & -> & Hm & -> & -> & Hx).
    split; [by apply le_Fin|]. split; [by apply le_Fin|].
    subst rm rm'.
    change (rm_dimensionScores (computeReportModel ?i))
      with (computeDimensionScores (Scoring.responses i) (QUESTIONNAIRE i))
      in Hs, Hs'.
    cbn [Scoring.responses QUESTIONNAIRE] in Hs, Hs'.
    rewrite computeDimensionScores_lookup_entry in Hs, Hs'.
    destruct (questions_in d (questions_of Q)) as [|q asked]; [done|].
    injection Hs as <-. injection Hs' as <-.
    rewrite !score_of_stats_of. cbn zeta. cbn [answered total].
    split; [|done]. f_equal. symmetry.
    eapply Forall2_length, answers_to_raised, Hr.
  - by apply computeSSI_mono.
  - subst rm rm'. rewrite !rm_adequacyGap_sub. cbn zeta.
    apply sub_le_mono_l.
    + eapply between_finite, rm_SSI_between.
    + eapply between_finite, rm_SSI_between.
    + eapply between_finite, OPI_between.
    + by apply computeSSI_mono.
  - intros f. subst rm rm'. rewrite !elem_of_rm_flags. cbn zeta.
    cbn [Scoring.responses contextResponses QUESTIONNAIRE].
    intros [(d & s' & -> & Hs' & Hlt)|[[-> Hrule]|[-> Hrule]]].
    + left. destruct (obj_get_same_keys _ _ d s' (eq_sym Hk) Hs') as (s & Hs).
      exists d, s. split; [done|]. split; [done|].
      destruct (dimension_entry_mono _ _ _ _ _ _ Hr Hs Hs')
        as (_ & _ & x & x' & _ & _ & _ & Hx & Hx' & Hle).
      rewrite Hx. rewrite Hx' in Hlt.
      eapply le_lt_trans; [|exact Hlt].
      apply sub_le_mono_l; try done; [eapply between_finite, OPI_between|].
      by apply le_Fin.
    + right; left. split; [done|].
      by eapply context_rule_mono; [apply (Hmean "governance")|].
    + right; right. split; [done|].
      by eapply context_rule_mono; [apply (Hmean "distribution")|].
Qed.

(** X30.  More operational pressure never gives a better gap.  Take two
    sets of context answers in which no factor, resolved and clamped to
    [[1, 4]], is lower in the second set, and compute both reports with the
    same answers and schema.  Then the dimension scores and SSI are the
    same; OPI of the second report is at least that of the first; the
    adequacy gap and the gap of every dimension are at most those of the
    first; and every dimension flagged in the first report is flagged in the
    second. *)
Theorem higher_pressure_never_raises_gaps
    (responses ctx ctx' : gmap string value) (Q : option Questionnaire) :
  pressure_raised ctx ctx' ->
  let rm := computeReportModel
              {| Scoring.responses := responses; contextResponses := ctx;
                 QUESTIONNAIRE := Q |} in
  let rm' := computeReportModel
               {| Scoring.responses := responses; contextResponses := ctx';
                  QUESTIONNAIRE := Q |} in
  rm_dimensionScores rm' = rm_dimensionScores rm
  /\ rm_SSI rm' = rm_SSI rm
  /\ le (OPI (rm_operationalPressure rm)) (OPI (rm_operationalPressure rm'))
     = true
  /\ le (rm_adequacyGap rm') (rm_adequacyGap rm) = true
  /\ (forall d g g',
        obj_get (rm_dimensionGaps rm) d = Some g ->
        obj_get (rm_dimensionGaps rm') d = Some g' ->
        le g' g = true)
  /\ (forall d, dimension_flag d ∈ flags (rm_risks rm) ->
                dimension_flag d ∈ flags (rm_risks rm')).
Proof.
  intros Hr rm rm'.
  destruct (OPI_mono ctx ctx' Hr) as (o & o' & Ho & Ho' & Hle).
  assert (OPI (rm_operationalPressure rm) = Fin o) as Hopi by exact Ho.
  assert (OPI (rm_operationalPressure rm') = Fin o') as Hopi' by exact Ho'.
  assert (forall d s,
            obj_get (rm_dimensionScores rm) d = Some s ->
            le (sub (score100 s) (Fin o')) (sub (score100 s) (Fin o)) = true)
    as Hgap.
  { intros d s Hs. apply sub_le_mono_r; try done; [|by apply le_Fin].
    eapply between_finite, computeDimensionScores_score_between.
    apply obj_get_Some_elem, Hs. }
  split; [reflexivity|]. split; [reflexivity|]. split; [|split; [|split]].
  - rewrite Hopi, Hopi'. by apply le_Fin.
  - subst rm rm'. rewrite !rm_adequacyGap_sub. cbn zeta. rewrite Hopi, Hopi'.
    apply sub_le_mono_r; try done; [|by apply le_Fin].
    eapply between_finite, rm_SSI_between.
  - intros d g g'. subst rm rm'. rewrite !rm_dimensionGaps_sub. cbn zeta.
    rewrite Hopi, Hopi'.
    rewrite (obj_get_map_entries (fun s => sub (score100 s) (Fin o))).
    rewrite (obj_get_map_entries (fun s => sub (score100 s) (Fin o'))).
    change (rm_dimensionScores (computeReportModel ?i))
      with (computeDimensionScores (Scoring.responses i) (QUESTIONNAIRE i)).
    cbn [Scoring.responses QUESTIONNAIRE].
    destruct (obj_get _ d) as [s|] eqn:Hs; [|done].
    intros [= <-] [= <-]. by apply (Hgap d).
  - intros d. subst rm rm'. rewrite !elem_of_rm_flags. cbn zeta.
    intros [(d' & s & E & Hs & Hlt)|[[E _]|[E _]]].
    + left. exists d', s. split; [done|]. split; [exact Hs|].
      rewrite Hopi'. rewrite Hopi in Hlt.
      eapply le_lt_trans; [|exact Hlt]. by apply (Hgap d').
    + by apply dimension_flag_not_entropy in E.
    + by apply dimension_flag_not_drift in E.
Qed.

End WithHost.

Lemma higher_answers_never_lower_scores_witness :
  let rm := @computeReportModel Examples.sample_host
              Examples.sample_entropy_input in
  let rm' := @computeReportModel Examples.sample_host
               Examples.sample_entropy_only_input in
  @answers_raised Examples.sample_host
    (Scoring.responses Examples.sample_entropy_input)
    (Scoring.responses Examples.sample_entropy_only_input)
  /\ le (rm_SSI rm) (rm_SSI rm') = true
  /\ le (rm_adequacyGap rm) (rm_adequacyGap rm') = true
  /\ (forall f, f ∈ flags (rm_risks rm') -> f ∈ flags (rm_risks rm)).
Proof.
  cbn zeta.
  assert (@answers_raised Examples.sample_host
            (Scoring.responses Examples.sample_entropy_input)
            (Scoring.responses Examples.sample_entropy_only_input)) as Hr.
  { intros id. cbn [Scoring.responses Examples.sample_entropy_input
                    Examples.sample_entropy_only_input].
    destruct (decide (id = "gov_1")) as [->|Hne1]; [compute_done|].
    destruct (decide (id = "gov_2")) as [->|Hne2]; [compute_done|].
    by rewrite !lookup_insert_ne, lookup_empty by done. }
  split; [exact Hr|].
  exact (proj2 (proj2 (@higher_answers_never_lower_scores Examples.sample_host
                         _ _ (<["oc_ai_usage" := VNum (int 4)]> ∅)
                         Examples.governance_schema Hr))).
Defined.

Lemma higher_pressure_never_raises_gaps_witness :
  let rm := @computeReportModel Examples.sample_host
              {| Scoring.responses :=
                   Scoring.responses Examples.sample_four_input;
                 contextResponses := ∅;
                 QUESTIONNAIRE := Examples.four_dimension_schema |} in
  let rm' := @computeReportModel Examples.sample_host
               {| Scoring.responses :=
                    Scoring.responses Examples.sample_four_input;
                  contextResponses := Examples.sample_context;
                  QUESTIONNAIRE := Examples.four_dimension_schema |} in
  @pressure_raised Examples.sample_host ∅ Examples.sample_context
  /\ le (OPI (rm_operationalPressure rm)) (OPI (rm_operationalPressure rm'))
     = true
  /\ le (rm_adequacyGap rm') (rm_adequacyGap rm) = true.
Proof.
  cbn zeta.
  assert (@pressure_raised Examples.sample_host ∅ Examples.sample_context)
    as Hr.
  { intros factor weight Hin.
    repeat (apply elem_of_cons in Hin as [[= -> ->]|Hin]; [compute_done|]).
    by apply elem_of_nil in Hin. }
  split; [exact Hr|].
  pose proof (@higher_pressure_never_raises_gaps Examples.sample_host
                (Scoring.responses Examples.sample_four_input) _ _
                Examples.four_dimension_schema Hr)
    as (_ & _ & Hopi & Hgap & _).
  split; [exact Hopi|exact Hgap].
Defined.

End MonotonicityFacts.
